(** * WOS Rally Sync: clock synchronisation, rally schedule and room state

    A shallow embedding of the client (web/src/App.jsx) and of the
    Durable Object that owns a room (worker/src/index.ts).

    Numbers.  JavaScript numbers that pass the code's [Number.isFinite]
    guards are modelled as exact rationals [Q]: timestamps come from
    [Date.now()] and durations are milliseconds, so the sums, differences
    and halvings the code performs on them are exact.  The values the
    guards reject are kept as separate constructors of [number] and
    [jsval].  Where a result can depend on the rounding of the doubles
    (the server stores march times and launch instants as they come),
    the code is embedded a second time over [F64], double precision
    with its rounding, and the statements say in which range the
    arithmetic is exact.  Messages are those of the types the code
    declares ([ClientMsg], [ServerMsg]): a numeric field is a number or
    absent. *)

From Stdlib Require Import QArith Qminmax Qround Qabs Qpower Lqa Sorted.
From Stdlib Require SpecFloat.
From stdpp Require Import gmap strings list pretty.

(** ** JavaScript values carried in message payloads *)

Inductive number :=
  | Num (q : Q)
  | NaN
  | Infinity
  | NegInfinity.

Inductive jsval :=
  | JUndefined
  | JNull
  | JBool (b : bool)
  | JNumber (n : number)
  | JString (s : string)
  | JObject.

(** [Number.isFinite(v)]: true only for a value of type number that is
    neither NaN nor an infinity; no coercion takes place. *)
Definition Number_isFinite (v : jsval) : bool :=
  match v with
  | JNumber (Num _) => true
  | _ => false
  end.

(** The rational behind a value accepted by [Number.isFinite]. *)
Definition finite_value (v : jsval) : option Q :=
  match v with
  | JNumber (Num q) => Some q
  | _ => None
  end.

(** [x < y] on finite numbers. *)
Definition Qltb (x y : Q) : bool :=
  match (x ?= y)%Q with
  | Lt => true
  | _ => false
  end.

(** ** Data model shared by client and server (index.ts, lines 1-17) *)

Record Player := mkPlayer {
  id : string;
  name : string;
  marchMs : Q
}.

Record Rally := mkRally {
  starterId : string;
  launchAt : Q
}.

(** A room state by value: the JSON text of a STATE message, the content
    of the storage key, and the client's replica.  [lastActiveAt] is
    absent in the client's initial replica and may be absent in a stored
    object. *)
Record RoomState := mkRoomState {
  players : list Player;
  rally : option Rally;
  lastActiveAt : option Q
}.

(** ** Client: clock synchronisation (App.jsx, lines 13 and 277-298) *)

Definition SYNC_SAMPLE_COUNT : nat := 6.

Record Sample := mkSample {
  offsetMs : Q;
  rttMs : Q;
  atTs : Q
}.

(** The refs and React state written by [setOffsetSample]. *)
Record SyncState := mkSyncState {
  syncSamplesRef : list Sample;
  offsetRef : Q;
  timeOffsetMs : Q;
  bestRttMs : option Q;
  lastSyncAt : option Q
}.

(** [useRef([])], [useRef(0)], [useState(0)], [useState(null)]. *)
Definition initialSync : SyncState :=
  {| syncSamplesRef := []; offsetRef := 0; timeOffsetMs := 0;
     bestRttMs := None; lastSyncAt := None |}.

(** [arr.slice(-k)] for [k > 0]: a new array with the last [k] elements,
    or all of them when there are fewer. *)
Definition slice_last {A} (k : nat) (arr : list A) : list A :=
  drop (length arr - k) arr.

(** The reducer [(min, next) => (next.rttMs < min.rttMs ? next : min)]. *)
Definition pick_min (min next : Sample) : Sample :=
  if Qltb (rttMs next) (rttMs min) then next else min.

(** [samples.reduce(pick_min, samples[0])]; on an empty array the initial
    value [samples[0]] is undefined, and so is the result. *)
Definition best_of (samples : list Sample) : option Sample :=
  match samples with
  | [] => None
  | s0 :: _ => Some (fold_left pick_min samples s0)
  end.

Definition setOffsetSample (offset rtt at_ts : Q) (st : SyncState) : SyncState :=
  let samples :=
    slice_last (SYNC_SAMPLE_COUNT - 1) (syncSamplesRef st)
      ++ [ {| offsetMs := offset; rttMs := rtt; atTs := at_ts |} ] in
  match best_of samples with
  | Some best =>
      {| syncSamplesRef := samples;
         offsetRef := offsetMs best;
         timeOffsetMs := offsetMs best;
         bestRttMs := Some (rttMs best);
         lastSyncAt := Some at_ts |}
  | None =>
      {| syncSamplesRef := samples;
         offsetRef := offsetRef st;
         timeOffsetMs := timeOffsetMs st;
         bestRttMs := bestRttMs st;
         lastSyncAt := lastSyncAt st |}
  end.

(** The payload of TIME_SYNC_RESPONSE as parsed from JSON: each field may
    hold any value. *)
Record SyncPayload := mkSyncPayload {
  t0 : jsval;
  t1 : jsval;
  t2 : jsval
}.

(** [handleTimeSyncResponse(payload)].  [t3] is the reading of
    [Date.now()] taken after the guards; [None] is a missing payload. *)
Definition handleTimeSyncResponse (t3 : Q) (payload : option SyncPayload)
    (st : SyncState) : SyncState :=
  match payload with
  | None => st
  | Some p =>
      if forallb Number_isFinite [t0 p; t1 p; t2 p] then
        match finite_value (t0 p), finite_value (t1 p), finite_value (t2 p) with
        | Some a, Some b, Some c =>
            let rtt := Qmax 0 ((t3 - a) - (c - b)) in
            let offset := (((b - a) + (c - t3)) / 2)%Q in
            setOffsetSample offset rtt t3 st
        | _, _, _ => st
        end
      else st
  end.

(** ** Client: rally schedule (App.jsx, lines 422-467) *)

Inductive Phase := JOIN | MARCH.

(** A row is [{ ...p, startAt, rallyStartAt, diffMs, diffToRallyStartMs,
    diffFromLaunchMs, landInMs }]; [row_player] holds the spread fields. *)
Record Row := mkRow {
  row_player : Player;
  startAt : Q;
  rallyStartAt : Q;
  diffMs : Q;
  diffToRallyStartMs : Q;
  diffFromLaunchMs : Q;
  landInMs : Q
}.

Record RallyComputed := mkRallyComputed {
  starter : Player;
  rc_launchAt : Q;
  rc_rallyStartAt : Q;
  arrivalAt : Q;
  rows : list Row;
  joinRemainingMs : Q;
  phase : Phase
}.

(** [arr.find(pred)]: the first element satisfying [pred]. *)
Fixpoint find_first {A} (pred : A -> bool) (arr : list A) : option A :=
  match arr with
  | [] => None
  | x :: rest => if pred x then Some x else find_first pred rest
  end.

(** [Array.prototype.sort(cmp)] is stable, and with a consistent
    comparator its result is the one of any stable sort: insertion from
    the right, an element going in front of the first one it does not
    compare greater than. *)
Fixpoint insert_by {A} (cmp : A -> A -> Q) (x : A) (sorted : list A) : list A :=
  match sorted with
  | [] => [x]
  | y :: rest =>
      if Qle_bool (cmp x y) 0 then x :: y :: rest
      else y :: insert_by cmp x rest
  end.

Definition sort_by {A} (cmp : A -> A -> Q) (arr : list A) : list A :=
  foldr (insert_by cmp) [] arr.

Section RallySchedule.
Local Open Scope Q_scope.

(** The callback of [state.players.map], with exact differences: what
    the code computes as long as its doubles do not round, and in any
    case of the same sign ([F64.make_row] is the callback in double
    precision). *)
Definition make_row (arrival launch rallyDurationMs now : Q) (p : Player) : Row :=
  let start := arrival - marchMs p in
  let playerRallyStartAt := start - rallyDurationMs in
  {| row_player := p;
     startAt := start;
     rallyStartAt := playerRallyStartAt;
     diffMs := start - now;
     diffToRallyStartMs := playerRallyStartAt - now;
     diffFromLaunchMs := start - launch;
     landInMs := arrival - now |}.

(** [rallyComputed]: [None] is the [null] the memo returns. [delay] is
    the rally time in minutes chosen in the UI. *)
Definition rallyComputed (state : RoomState) (now delay : Q) : option RallyComputed :=
  match rally state with
  | None => None
  | Some activeRally =>
      match find_first (fun p => String.eqb (id p) (starterId activeRally))
              (players state) with
      | None => None
      | Some s =>
          let launch := launchAt activeRally in
          let rallyDurationMs := delay * 60 * 1000 in
          let arrival := launch + marchMs s in
          let joinRemaining := launch - now in
          Some {| starter := s;
                  rc_launchAt := launch;
                  rc_rallyStartAt := launch - rallyDurationMs;
                  arrivalAt := arrival;
                  rows :=
                    sort_by (fun a b => startAt a - startAt b)
                      (make_row arrival launch rallyDurationMs now
                         <$> players state);
                  joinRemainingMs := joinRemaining;
                  phase := if Qltb 0 joinRemaining then JOIN else MARCH |}
      end
  end.

End RallySchedule.

(** ** Client: display formatting (App.jsx, lines 26-35 and 882-902) *)

(** [String(n).padStart(2, "0")] for a natural number [n]. *)
Definition pad2 (n : Z) : string :=
  let s := pretty n in
  if decide (String.length s < 2)%nat then String.append "0" s else s.

(** [Math.round(x)]: the integer nearest to [x], halves going up. *)
Definition Math_round (x : Q) : Z := Qfloor (x + (1 # 2))%Q.

(** [formatMs] with exact quotients and the decimal digits of the
    minutes: what the code shows for durations far below [2 ^ 53] ms,
    where its rounded quotients floor and round to the same whole
    numbers and [String] does not switch to exponent form. *)
Definition formatMs (ms : Q) : string :=
  let totalSec := Z.max 0 (Math_round (ms / 1000)%Q) in
  let m := (totalSec / 60)%Z in
  let s := (totalSec mod 60)%Z in
  String.append (pad2 m) (String.append ":" (pad2 s)).

(** The test that appends the flag: [r.diffFromLaunchMs < 0]. *)
Definition beforeMarch (r : Row) : bool := Qltb (diffFromLaunchMs r) 0.

(** The countdown cell of a row in the rally table. *)
Definition countdownText (ph : Phase) (r : Row) : string :=
  match ph with
  | JOIN =>
      let text :=
        if Qltb 0 (diffToRallyStartMs r)
        then String.append "in " (formatMs (diffToRallyStartMs r))
        else String.append "running " (formatMs (- diffToRallyStartMs r)%Q) in
      if beforeMarch r then String.append text " (before March)" else text
  | MARCH =>
      if Qltb 0 (diffMs r) then formatMs (diffMs r)
      else String.append "since " (formatMs (- diffMs r)%Q)
  end.

(** ** Server: messages (index.ts, lines 19-29) *)

Record RallyStartPayload := mkRallyStartPayload {
  rs_starterId : string;
  rs_launchAt : option number;
  rs_rallyDurationMs : option number;
  rs_preDelayMs : option number
}.

(** A parsed client message; [None] stands for an absent payload (or an
    absent [t0]). *)
Inductive ClientMsg :=
  | STATE_REQUEST
  | PLAYER_ADD (payload : option Player)
  | PLAYER_REMOVE (payload : option string)
  | RALLY_START (payload : option RallyStartPayload)
  | RALLY_END
  | TIME_SYNC_REQUEST (payload : option number).

Inductive ServerMsg :=
  | STATE (payload : RoomState)
  | TIME_SYNC_RESPONSE (r0 r1 r2 : Q).

(** ** Server: the isolate and the room object (index.ts, lines 31-89)

    Arrays are objects: a room's [players] is a reference into [heap], so
    that two room states holding the same array see each other's [push].
    The storage holds copies (a value is serialised when it is put and
    rebuilt when it is read); so does the text of a STATE message.
    Events are handled one at a time, each handler running to its end. *)

Definition loc := nat.
Definition socket := nat.

Record RoomObject := mkRoomObject {
  obj_players : loc;
  obj_rally : option Rally;
  obj_lastActiveAt : Q
}.

Record World := mkWorld {
  heap : gmap loc (list Player);       (* the array objects of the isolate *)
  data : option RoomObject;            (* this.data *)
  storage : option RoomState;          (* the storage key "state" *)
  sockets : list socket;               (* this.sockets *)
  clock : nat -> Q;                    (* the successive readings of Date.now() *)
  ticks : nat;                         (* how many readings were taken *)
  outbox : list (socket * ServerMsg)   (* what was sent, oldest first *)
}.

Definition with_heap (h : gmap loc (list Player)) (w : World) : World :=
  mkWorld h (data w) (storage w) (sockets w) (clock w) (ticks w) (outbox w).
Definition with_data (d : option RoomObject) (w : World) : World :=
  mkWorld (heap w) d (storage w) (sockets w) (clock w) (ticks w) (outbox w).
Definition with_storage (s : option RoomState) (w : World) : World :=
  mkWorld (heap w) (data w) s (sockets w) (clock w) (ticks w) (outbox w).
Definition with_sockets (l : list socket) (w : World) : World :=
  mkWorld (heap w) (data w) (storage w) l (clock w) (ticks w) (outbox w).
Definition with_ticks (n : nat) (w : World) : World :=
  mkWorld (heap w) (data w) (storage w) (sockets w) (clock w) n (outbox w).
Definition with_outbox (o : list (socket * ServerMsg)) (w : World) : World :=
  mkWorld (heap w) (data w) (storage w) (sockets w) (clock w) (ticks w) o.

(** The array [[]] of the module-level [DEFAULT_STATE], created once when
    the module is loaded.  [{ ...DEFAULT_STATE, lastActiveAt: now }]
    copies the reference, not the array. *)
Definition DEFAULT_PLAYERS : loc := 0%nat.

Definition MAX_AGE_MS : Q := 6 * 60 * 60 * 1000.

(** A handler either goes on with a value or has executed [return]. *)
Inductive outcome (A : Type) :=
  | Next (a : A)
  | Return.
Arguments Next {A} a.
Arguments Return {A}.

Definition M (A : Type) : Type := World -> outcome A * World.

#[global] Instance M_ret : MRet M := fun A a w => (Next a, w).
#[global] Instance M_bind : MBind M := fun A B f m w =>
  match m w with
  | (Next a, w') => f a w'
  | (Return, w') => (Return, w')
  end.

Definition exit {A} : M A := fun w => (Return, w).
Definition get {A} (f : World -> A) : M A := fun w => (Next (f w), w).
Definition modify (f : World -> World) : M unit := fun w => (Next (), f w).

(** Calling a method: its [return] ends the method, not the caller. *)
Definition call (m : M unit) : M unit := fun w => (Next (), (m w).2).

(** Running a handler to its end. *)
Definition exec (m : M unit) (w : World) : World := (m w).2.

Definition Date_now : M Q :=
  fun w => (Next (clock w (ticks w)), with_ticks (S (ticks w)) w).

(** [if (!this.data) return;] and the object afterwards. *)
Definition this_data : M RoomObject :=
  fun w => match data w with
           | Some d => (Next d, w)
           | None => (Return, w)
           end.

Definition array_at (w : World) (l : loc) : list Player :=
  default [] (heap w !! l).

Definition read_array (l : loc) : M (list Player) := get (fun w => array_at w l).

Definition write_array (l : loc) (arr : list Player) : M unit :=
  modify (fun w => with_heap (<[l := arr]> (heap w)) w).

Definition new_array (arr : list Player) : M loc :=
  fun w => let l := fresh (dom (heap w) : gset loc) in
           (Next l, with_heap (<[l := arr]> (heap w)) w).

(** [JSON.stringify(this.data)], also what [storage.put] keeps. *)
Definition to_json (w : World) (d : RoomObject) : RoomState :=
  {| players := array_at w (obj_players d);
     rally := obj_rally d;
     lastActiveAt := Some (obj_lastActiveAt d) |}.

Definition persist : M unit :=
  modify (fun w => match data w with
                   | None => w
                   | Some d => with_storage (Some (to_json w d)) w
                   end).

Definition send (ws : socket) (msg : ServerMsg) : M unit :=
  modify (fun w => with_outbox (outbox w ++ [(ws, msg)]) w).

Definition broadcast : M unit :=
  modify (fun w => match data w with
                   | None => w
                   | Some d =>
                       with_outbox
                         (outbox w ++ ((fun ws => (ws, STATE (to_json w d))) <$> sockets w))
                         w
                   end).

(** [this.data = { ...DEFAULT_STATE, lastActiveAt: now }; await this.persist()]. *)
Definition reset_to_default (now : Q) : M unit :=
  modify (with_data (Some {| obj_players := DEFAULT_PLAYERS;
                             obj_rally := None;
                             obj_lastActiveAt := now |}));;
  persist.

(** [ensureLoaded] (lines 53-71).  [!stored.lastActiveAt] holds of an
    absent field and of the number 0; the stored object that is kept is
    a fresh one, rebuilt from the storage. *)
Definition ensureLoaded : M unit :=
  d ← get data;
  match d with
  | Some _ => exit
  | None =>
      stored ← get storage;
      now ← Date_now;
      match stored with
      | Some st =>
          match lastActiveAt st with
          | None => reset_to_default now
          | Some t =>
              if Qeq_bool t 0 || Qltb MAX_AGE_MS (now - t)
              then reset_to_default now
              else
                l ← new_array (players st);
                modify (with_data (Some {| obj_players := l;
                                           obj_rally := rally st;
                                           obj_lastActiveAt := t |}))
          end
      | None => reset_to_default now
      end
  end.

(** ** Server: [handleMessage] (index.ts, lines 91-168) *)

(** [Number(x)] for an optional field of type number, present or
    absent.  Values of another JSON type (null, a string, a boolean, an
    array), which [Number] would coerce, are outside [ClientMsg] as the
    code declares it and outside this model. *)
Definition to_Number (x : option number) : number :=
  match x with
  | Some n => n
  | None => NaN
  end.

(** [x ?? 0]. *)
Definition or_zero (x : option number) : option number :=
  match x with
  | Some n => Some n
  | None => Some (Num 0)
  end.

Definition set_rally (r : option Rally) : M unit :=
  d ← this_data;
  modify (with_data (Some {| obj_players := obj_players d;
                             obj_rally := r;
                             obj_lastActiveAt := obj_lastActiveAt d |})).

Definition set_players (l : loc) : M unit :=
  d ← this_data;
  modify (with_data (Some {| obj_players := l;
                             obj_rally := obj_rally d;
                             obj_lastActiveAt := obj_lastActiveAt d |})).

Definition set_lastActiveAt (t : Q) : M unit :=
  d ← this_data;
  modify (with_data (Some {| obj_players := obj_players d;
                             obj_rally := obj_rally d;
                             obj_lastActiveAt := t |})).

(** The launch instant of a RALLY_START: a finite [launchAt] of the
    message as it is, otherwise the server's clock plus the two
    durations, the message being dropped when a duration is not a finite
    number or is negative.  The sum is the exact one: that of the code
    as long as its doubles do not round ([launch_sum_exact] gives a
    range; [launch_sum_rounds_beyond_the_exact_range] shows the
    rounding and the overflow beyond it). *)
Definition computeLaunchAt (p : RallyStartPayload) : M Q :=
  match rs_launchAt p with
  | Some (Num given) => mret given
  | _ =>
      match to_Number (rs_rallyDurationMs p) with
      | Num durationMs =>
          if Qltb durationMs 0 then exit
          else
            match to_Number (or_zero (rs_preDelayMs p)) with
            | Num delayMs =>
                if Qltb delayMs 0 then exit
                else now ← Date_now; mret (now + delayMs + durationMs)%Q
            | _ => exit
            end
      | _ => exit
      end
  end.

(** Upsert by id, in place: [players[idx] = payload] when [findIndex]
    finds the id, [players.push(payload)] otherwise. *)
Definition upsert (p : Player) (arr : list Player) : list Player :=
  match list_find (fun q => id q = id p) arr with
  | Some (idx, _) => <[idx := p]> arr
  | None => arr ++ [p]
  end.

Definition handle (ws : socket) (msg : ClientMsg) : M unit :=
  match msg with
  | STATE_REQUEST =>
      d ← this_data;
      reply ← get (fun w => STATE (to_json w d));
      send ws reply
  | PLAYER_ADD payload =>
      match payload with
      | None => exit
      | Some p =>
          if String.eqb (id p) "" then exit
          else
            d ← this_data;
            arr ← read_array (obj_players d);
            write_array (obj_players d) (upsert p arr);;
            persist;;
            broadcast
      end
  | PLAYER_REMOVE payload =>
      match payload with
      | None => exit
      | Some removed =>
          if String.eqb removed "" then exit
          else
            d ← this_data;
            arr ← read_array (obj_players d);
            l ← new_array (filter (fun q => id q ≠ removed) arr);
            set_players l;;
            d ← this_data;
            match obj_rally d with
            | Some r => if String.eqb (starterId r) removed then set_rally None else mret ()
            | None => mret ()
            end;;
            persist;;
            broadcast
      end
  | RALLY_START payload =>
      match payload with
      | None => exit
      | Some p =>
          if String.eqb (rs_starterId p) "" then exit
          else
            computedLaunchAt ← computeLaunchAt p;
            set_rally (Some {| starterId := rs_starterId p; launchAt := computedLaunchAt |});;
            persist;;
            broadcast
      end
  | RALLY_END =>
      set_rally None;;
      persist;;
      broadcast
  | TIME_SYNC_REQUEST payload =>
      match payload with
      | Some (Num r0) =>
          r1 ← Date_now;
          r2 ← Date_now;
          send ws (TIME_SYNC_RESPONSE r0 r1 r2)
      | _ => exit
      end
  end.

(** [raw] is the message text as [JSON.parse] sees it: [None] when
    parsing throws. *)
Definition handleMessage (ws : socket) (raw : option ClientMsg) : M unit :=
  call ensureLoaded;;
  _ ← this_data;
  now ← Date_now;
  set_lastActiveAt now;;
  match raw with
  | None => exit
  | Some msg => handle ws msg
  end.

(** The WebSocket branch of [fetch] (lines 170-190): the socket joins
    the room and is sent the current state. *)
Definition accept (ws : socket) : M unit :=
  call ensureLoaded;;
  modify (fun w => with_sockets (sockets w ++ [ws]) w);;
  d ← this_data;
  reply ← get (fun w => STATE (to_json w d));
  send ws reply.

(** ** Server: runs and the dangling-starter predicate *)

(** An isolate in which the module was just loaded and a room object
    just constructed over an empty storage. *)
Definition fresh_world (clk : nat -> Q) : World :=
  {| heap := {[ DEFAULT_PLAYERS := [] ]};
     data := None;
     storage := None;
     sockets := [];
     clock := clk;
     ticks := 0;
     outbox := [] |}.

(** [new RallyRoom(state, env)] for another room in the isolate [w]:
    its own [data], [sockets] and storage, the same module and heap. *)
Definition new_room (stored : option RoomState) (w : World) : World :=
  {| heap := heap w;
     data := None;
     storage := stored;
     sockets := [];
     clock := clock w;
     ticks := ticks w;
     outbox := [] |}.

(** The state a client would be sent now. *)
Definition current_state (w : World) : option RoomState :=
  match data w with
  | Some d => Some (to_json w d)
  | None => None
  end.

Definition has_player (who : string) (l : list Player) : bool :=
  existsb (fun p => String.eqb (id p) who) l.

(** The rally is present and its starter is not among the players. *)
Definition dangling (s : RoomState) : bool :=
  match rally s with
  | Some r => negb (has_player (starterId r) (players s))
  | None => false
  end.

Definition dangling_world (w : World) : bool :=
  match current_state w with
  | Some s => dangling s
  | None => false
  end.

Definition step (ws : socket) (msg : ClientMsg) (w : World) : World :=
  exec (handleMessage ws (Some msg)) w.

(** What reaches a room object: a client connecting, or the text of a
    message ([None]: text that does not parse). *)
Inductive Event :=
  | Connect (ws : socket)
  | Message (ws : socket) (raw : option ClientMsg).

Definition deliver (e : Event) (w : World) : World :=
  match e with
  | Connect ws => exec (accept ws) w
  | Message ws raw => exec (handleMessage ws raw) w
  end.

Definition run (events : list Event) (w : World) : World :=
  fold_left (fun acc e => deliver e acc) events w.

(** A RALLY_START whose starter is one of the players of the state the
    room has in memory when the message is handled. Other events are
    unconstrained. *)
Definition starts_known_player (w : World) (e : Event) : Prop :=
  match e with
  | Message _ (Some (RALLY_START (Some p))) =>
      match current_state w with
      | Some s => has_player (rs_starterId p) (players s) = true
      | None => False
      end
  | _ => True
  end.

Inductive reachable (clk : nat -> Q) : World -> Prop :=
  | reachable_fresh : reachable clk (fresh_world clk)
  | reachable_deliver w e :
      reachable clk w ->
      starts_known_player w e ->
      reachable clk (deliver e w).

(** Nothing loaded and nothing stored yet, or a state in memory whose
    rally, if any, names one of its players. *)
Definition settled (w : World) : Prop :=
  (data w = None /\ storage w = None)
  \/ (exists d, data w = Some d /\ dangling (to_json w d) = false).

(** Nothing loaded and nothing stored yet, or a state in memory whose
    rally, if any, names a starter. *)
Definition named (w : World) : Prop :=
  (data w = None /\ storage w = None)
  \/ (exists d, data w = Some d
        /\ forall r, obj_rally d = Some r -> starterId r <> ""%string).

(** The stored state is thrown away on load: no [lastActiveAt], a falsy
    one, or one more than [MAX_AGE_MS] before [now]. *)
Definition expired (now : Q) (stored : RoomState) : bool :=
  match lastActiveAt stored with
  | None => true
  | Some t => Qeq_bool t 0 || Qltb MAX_AGE_MS (now - t)
  end.

(** [samples] arriving one after the other, each folded in by
    [setOffsetSample]. *)
Definition incorporate (arrivals : list Sample) (st : SyncState) : SyncState :=
  fold_left (fun acc s => setOffsetSample (offsetMs s) (rttMs s) (atTs s) acc)
    arrivals st.

(** ** Client: requests and the message handler (App.jsx, lines 300-347) *)

(** [requestTimeSync(socket)]: what is sent, if anything. [socket_open]
    is [socket && socket.readyState === WebSocket.OPEN], [local_now] the
    reading of [Date.now()]. *)
Definition requestTimeSync (socket_open : bool) (local_now : Q) : option ClientMsg :=
  if socket_open then Some (TIME_SYNC_REQUEST (Some (Num local_now))) else None.

(** [runSyncBurst]: the delays, in milliseconds, after which the
    requests of one burst are issued. *)
Definition runSyncBurst : list Z :=
  (fun i => Z.of_nat i * 250)%Z <$> seq 0 SYNC_SAMPLE_COUNT.

(** What the component keeps of the two kinds of server message. *)
Record ClientView := mkClientView {
  view_state : RoomState;
  view_sync : SyncState
}.

(** [useState({ players: [], rally: null })] and the sync refs. *)
Definition initialView : ClientView :=
  {| view_state := mkRoomState [] None None; view_sync := initialSync |}.

(** The payload of a TIME_SYNC_RESPONSE after [JSON.parse]. *)
Definition sync_payload (r0 r1 r2 : Q) : SyncPayload :=
  {| t0 := JNumber (Num r0); t1 := JNumber (Num r1); t2 := JNumber (Num r2) |}.

(** The socket's message listener. [raw] is [None] when [JSON.parse]
    throws; [local_now] is the reading of [Date.now()] a sync reply
    would take. *)
Definition onMessage (local_now : Q) (raw : option ServerMsg) (c : ClientView) : ClientView :=
  match raw with
  | None => c
  | Some (STATE payload) =>
      {| view_state := payload; view_sync := view_sync c |}
  | Some (TIME_SYNC_RESPONSE r0 r1 r2) =>
      {| view_state := view_state c;
         view_sync := handleTimeSyncResponse local_now
                        (Some (sync_payload r0 r1 r2)) (view_sync c) |}
  end.

(** The tick: [Date.now() + offsetRef.current]. *)
Definition correctedNow (local_now : Q) (st : SyncState) : Q :=
  (local_now + offsetRef st)%Q.

(** [lastSyncAt && Date.now() - lastSyncAt < syncFreshMs], as the
    condition of [isSynced ? "Synced" : "Syncing"]: [null] and 0 are
    falsy. *)
Definition isSynced (st : SyncState) (local_now : Q) : bool :=
  match lastSyncAt st with
  | None => false
  | Some t => negb (Qeq_bool t 0) && Qltb (local_now - t) 60000
  end.

(** ** Client: what the buttons send (App.jsx, lines 354-420) *)

(** [canStartRally]; [ws] tells whether the socket object exists. *)
Definition canStartRally (ws : bool) (state : RoomState) (starter_id : string) : bool :=
  ws && (0 <? length (players state))%nat
     && negb (String.eqb starter_id "")
     && has_player starter_id (players state).

(** [sendRallyStart]: [delay] is the rally time in minutes, [preDelaySec]
    the pre-start countdown in seconds, both finite.  The products are
    the exact ones: those of the code for whole minutes and seconds
    ([start_sums_exact]); a product that overflows would be sent as
    null, which is outside this model. *)
Definition sendRallyStart (ws : bool) (state : RoomState) (starter_id : string)
    (delay preDelaySec : Q) : option ClientMsg :=
  if canStartRally ws state starter_id then
    Some (RALLY_START (Some
      {| rs_starterId := starter_id;
         rs_launchAt := None;
         rs_rallyDurationMs := Some (Num (delay * 60 * 1000));
         rs_preDelayMs := Some (Num (Qmax 0 preDelaySec * 1000)) |}))
  else None.

(** [canAdd]: [trimmed] is [name.trim()], [seconds] is [Number(seconds)]. *)
Definition canAdd (ws : bool) (trimmed : string) (seconds : number) : bool :=
  ws && (0 <? String.length trimmed)%nat
     && match seconds with
        | Num sec => Qltb 0 sec && Qle_bool sec (24 * 60 * 60)
        | _ => false
        end.

(** [addPlayer]: [uuid] is the result of [crypto.randomUUID()]. *)
Definition addPlayer (ws : bool) (trimmed : string) (seconds : number) (uuid : string)
    : option ClientMsg :=
  if canAdd ws trimmed seconds then
    match seconds with
    | Num sec =>
        Some (PLAYER_ADD (Some {| id := uuid; name := trimmed;
                                  marchMs := inject_Z (Math_round (sec * 1000)) |}))
    | _ => None
    end
  else None.

Definition removePlayer (ws : bool) (who : string) : option ClientMsg :=
  if ws then Some (PLAYER_REMOVE (Some who)) else None.

(** ** Client: the local selection (App.jsx, lines 265-275) *)

(** [new Set(arr)] listed in insertion order: the first occurrence of
    each element. *)
Fixpoint set_of_array (arr : list string) : list string :=
  match arr with
  | [] => []
  | x :: rest => x :: List.filter (fun y => negb (String.eqb y x)) (set_of_array rest)
  end.

(** The updater of [toggleNotifyPlayer]: [delete] when present, [add]
    (at the end of the insertion order) when not. *)
Definition toggleNotifyPlayer (playerId : string) (prev : list string) : list string :=
  let set := set_of_array prev in
  if existsb (String.eqb playerId) set
  then List.filter (fun y => negb (String.eqb y playerId)) set
  else set ++ [playerId].

(** ** Client: formatting an instant (App.jsx, lines 37-42) *)

(** [new Date(ts)] for a finite [ts]: the time value is [ts] truncated
    towards zero, and there is none beyond 8.64e15 ms from the epoch. *)
Definition Date_of (ts : Q) : option Z :=
  if Qle_bool (Qabs ts) 8640000000000000
  then Some (if Qle_bool 0 ts then Qfloor ts else Qceiling ts)
  else None.

(** [getUTCHours], [getUTCMinutes], [getUTCSeconds] of a time value. *)
Definition getUTCHours (t : Z) : Z := ((t / 3600000) mod 24)%Z.
Definition getUTCMinutes (t : Z) : Z := ((t / 60000) mod 60)%Z.
Definition getUTCSeconds (t : Z) : Z := ((t / 1000) mod 60)%Z.

(** An invalid date gives NaN for each field, which [pad2] leaves as it
    is. *)
Definition formatTimeOfDay (ts : Q) : string :=
  match Date_of ts with
  | Some t =>
      String.append (pad2 (getUTCHours t))
        (String.append ":" (String.append (pad2 (getUTCMinutes t))
          (String.append ":" (String.append (pad2 (getUTCSeconds t)) " UTC"))))
  | None => "NaN:NaN:NaN UTC"
  end.

(** ** Client: audio cues (App.jsx, lines 109-219)

    Times are seconds on the audio context's clock, taken as exact
    rationals like the millisecond instants; [currentTime] is the one
    reading of [ctx.currentTime] during the call, [None] when there is no
    audio context. *)

(** One [beepAt(timeSec, { freq, duration, gain })]. *)
Record Beep := mkBeep {
  beep_time : Q;
  beep_freq : Q;
  beep_duration : Q;
  beep_gain : Q
}.

(** The options of [scheduleBeepsToTarget]. *)
Record BeepOptions := mkBeepOptions {
  spacingSec : Q;
  leadSec : Q;
  freqCount : Q;
  freqGo : Q;
  gain : Q;
  gainFactor : Q
}.

(** The defaults, with the one option [callNameWithBeeps] passes. *)
Definition beep_defaults (factor : Q) : BeepOptions :=
  {| spacingSec := 3 # 4;
     leadSec := 5 * (3 # 4);
     freqCount := 720;
     freqGo := 1100;
     gain := 65 # 1000;
     gainFactor := factor |}.

(** The loop [for (let i = 5; i >= 1; i--)]: the pairs [{ n, t }]. *)
Definition countdown_times (goTime spacing : Q) : list (Z * Q) :=
  (fun i => (i, goTime - inject_Z (6 - i) * spacing)%Q) <$> [5; 4; 3; 2; 1]%Z.

(** [scheduleBeepsToTarget]; [currentTime] is [ctx.currentTime], absent
    without an audio context.  The arithmetic is the exact one on
    seconds: the instants of the code up to the rounding of its doubles,
    which decides the filter only for a count beep that close to one of
    its two thresholds. *)
Definition scheduleBeepsToTarget (currentTime : option Q) (targetTs nowTs : Q)
    (o : BeepOptions) : list Beep :=
  match currentTime with
  | None => []
  | Some cur =>
      let secUntilTarget := Qmax 0 ((targetTs - nowTs) / 1000) in
      let base := (cur + secUntilTarget)%Q in
      let first := (base - leadSec o)%Q in
      let startTime := Qmax (cur + (2 # 100)) first in
      let goTime := Qmax (cur + (2 # 100)) base in
      let filtered :=
        sort_by (fun a b => (a.2 - b.2)%Q)
          (List.filter
             (fun x => Qle_bool startTime x.2 && Qle_bool x.2 (goTime - (1 # 100)))
             (countdown_times goTime (spacingSec o))) in
      ((fun x => mkBeep x.2 (freqCount o) (85 # 1000) (gain o * gainFactor o)) <$> filtered)
      ++ [mkBeep goTime (freqGo o) (12 # 100) (gain o * (11 # 10) * gainFactor o)]
  end.

(** The utterance [speakName] hands to the speech synthesis. *)
Record Utterance := mkUtterance {
  utter_text : string;
  utter_rate : Q;
  utter_pitch : Q;
  utter_volume : Q;
  utter_lang : string
}.

(** [speakName(name, { lang: "en-US", rate: 1.05, volume })]; [tts]
    tells whether the window has a speech synthesis. *)
Definition speakName (tts : bool) (who : string) (volume : Q) : option Utterance :=
  if tts then
    Some {| utter_text := String.append who ", get ready";
            utter_rate := 105 # 100;
            utter_pitch := 1;
            utter_volume := volume;
            utter_lang := "en-US" |}
  else None.

Definition callNameWithBeeps (tts : bool) (currentTime : option Q)
    (who : string) (targetTs nowTs ttsVolume beepGainFactor : Q)
    : option Utterance * list Beep :=
  (speakName tts who ttsVolume,
   scheduleBeepsToTarget currentTime targetTs nowTs (beep_defaults beepGainFactor)).

(** ** Client: the announcement effect (App.jsx, lines 475-533) *)

Inductive CallKind := RallyCall | MarchCall.

(** A key of [announcedRef]. The source builds the text
    [`rally:${r.id}:${targetTs}`] or [`march:...`]; the text determines
    the prefix, the id and the number (the last colon ends the id), so a
    key is kept as these three, two keys being the same when the numbers
    are equal. *)
Record AnnounceKey := mkAnnounceKey {
  key_kind : CallKind;
  key_player : string;
  key_target : Q
}.

Definition kind_eqb (a b : CallKind) : bool :=
  match a, b with
  | RallyCall, RallyCall | MarchCall, MarchCall => true
  | _, _ => false
  end.

Definition key_eqb (a b : AnnounceKey) : bool :=
  kind_eqb (key_kind a) (key_kind b)
  && String.eqb (key_player a) (key_player b)
  && Qeq_bool (key_target a) (key_target b).

(** [announcedRef.current.has(key)]. *)
Definition announced_has (announced : list AnnounceKey) (key : AnnounceKey) : bool :=
  existsb (key_eqb key) announced.

(** One [callFor(r.name, targetTs)]. *)
Record Call := mkCall {
  call_name : string;
  call_target : Q
}.

(** The switches and the local selection the effect reads. *)
Record Announcer := mkAnnouncer {
  ttsEnabled : bool;
  ttsRallyCalls : bool;
  ttsMarchCalls : bool;
  selectedIds : list string
}.

(** The target and key of a row, or [None] where the loop continues. *)
Definition announce_target (cfg : Announcer) (ph : Phase) (r : Row)
    : option AnnounceKey :=
  match ph with
  | JOIN =>
      if ttsRallyCalls cfg
      then Some (mkAnnounceKey RallyCall (id (row_player r)) (rallyStartAt r))
      else None
  | MARCH =>
      if ttsMarchCalls cfg
      then Some (mkAnnounceKey MarchCall (id (row_player r)) (startAt r))
      else None
  end.

(** The body of the loop for one row: the set of keys and the calls made
    so far, before and after. *)
Definition announce_row (cfg : Announcer) (ph : Phase) (now : Q)
    (acc : list AnnounceKey * list Call) (r : Row) : list AnnounceKey * list Call :=
  let effectiveOnlySelected := (0 <? length (selectedIds cfg))%nat in
  if effectiveOnlySelected
     && negb (existsb (String.eqb (id (row_player r))) (selectedIds cfg))
  then acc
  else
    match announce_target cfg ph r with
    | None => acc
    | Some key =>
        if announced_has acc.1 key then acc
        else
          let targetTs := key_target key in
          let msLeft := (targetTs - now)%Q in
          let acc1 :=
            if Qle_bool msLeft 4200 && Qle_bool (4200 - 350) msLeft
            then (acc.1 ++ [key], acc.2 ++ [mkCall (name (row_player r)) targetTs])
            else acc in
          if Qltb msLeft (4200 - 350) && Qltb 600 msLeft
          then (acc1.1 ++ [key], acc1.2 ++ [mkCall (name (row_player r)) targetTs])
          else acc1
    end.

(** The effect, run for one value of [rallyComputed] and [now]: the new
    content of [announcedRef] and the calls made, in order. *)
Definition announce (cfg : Announcer) (rc : option RallyComputed) (now : Q)
    (announced : list AnnounceKey) : list AnnounceKey * list Call :=
  if negb (ttsEnabled cfg) then (announced, [])
  else
    match rc with
    | None => (announced, [])
    | Some computed =>
        fold_left (announce_row cfg (phase computed) now) (rows computed) (announced, [])
    end.

(** The effect over successive renders, each with its own schedule and
    corrected time. *)
Fixpoint announce_all (cfg : Announcer) (renders : list (option RallyComputed * Q))
    (announced : list AnnounceKey) : list AnnounceKey * list Call :=
  match renders with
  | [] => (announced, [])
  | (rc, now) :: rest =>
      let first := announce cfg rc now announced in
      let later := announce_all cfg rest first.1 in
      (later.1, first.2 ++ later.2)
  end.

(** A row is due at [now]: it passes the local selection, its phase's
    switch is on, and its target lies more than 600 ms and at most
    4200 ms ahead. *)
Definition due (cfg : Announcer) (ph : Phase) (now : Q) (r : Row) (key : AnnounceKey) : Prop :=
  (selectedIds cfg = [] \/ existsb (String.eqb (id (row_player r))) (selectedIds cfg) = true)
  /\ announce_target cfg ph r = Some key
  /\ (600 < key_target key - now)%Q
  /\ (key_target key - now <= 4200)%Q.

(** No key occurs twice. *)
Definition keys_distinct (announced : list AnnounceKey) : Prop :=
  forall i j a b, i < j -> announced !! i = Some a -> announced !! j = Some b ->
    key_eqb a b = false.

(** ** Server: which messages have an effect *)

Definition finite_nonneg (n : number) : bool :=
  match n with
  | Num q => negb (Qltb q 0)
  | _ => false
  end.

(** The RALLY_START messages that get past every [return]: a starter is
    named, and either a finite [launchAt] comes with the message or both
    durations are finite and not negative. *)
Definition rally_start_accepted (p : option RallyStartPayload) : bool :=
  match p with
  | None => false
  | Some q =>
      negb (String.eqb (rs_starterId q) "")
      && (match rs_launchAt q with Some (Num _) => true | _ => false end
          || (finite_nonneg (to_Number (rs_rallyDurationMs q))
              && finite_nonneg (to_Number (or_zero (rs_preDelayMs q)))))
  end.

(** The messages [handleMessage] returns from without storing or
    sending anything. *)
Definition ignored (raw : option ClientMsg) : bool :=
  match raw with
  | None => true
  | Some STATE_REQUEST => false
  | Some (PLAYER_ADD p) => from_option (fun q => String.eqb (id q) "") true p
  | Some (PLAYER_REMOVE r) => from_option (fun q => String.eqb q "") true r
  | Some (RALLY_START p) => negb (rally_start_accepted p)
  | Some RALLY_END => false
  | Some (TIME_SYNC_REQUEST t) =>
      match t with
      | Some (Num _) => false
      | _ => true
      end
  end.

(** ** Client and server together *)

(** The messages a socket was sent, oldest first. *)
Definition received_by (ws : socket) (out : list (socket * ServerMsg)) : list ServerMsg :=
  snd <$> List.filter (fun m => Nat.eqb m.1 ws) out.

(** A client handling messages in order (the local time of a sync reply
    plays no part in what follows, and is set to 0). *)
Definition handle_all (msgs : list ServerMsg) (c : ClientView) : ClientView :=
  fold_left (fun acc m => onMessage 0 (Some m) acc) msgs c.

(** The replica of a client that has handled all it was sent. *)
Definition replica (ws : socket) (out : list (socket * ServerMsg)) : RoomState :=
  view_state (handle_all (received_by ws out) initialView).

(** Two states with the same players and the same rally. *)
Definition same_room (a b : RoomState) : Prop :=
  players a = players b /\ rally a = rally b.

(** What the room keeps true from a fresh start: before anything is
    loaded there is nothing stored, nobody connected, and the default
    array is empty; afterwards the stored state has the players and the
    rally of the state in memory, the players' ids are non-empty and
    pairwise different, and every connected client's replica has these
    players and this rally. *)
Definition healthy (w : World) : Prop :=
  (data w = None /\ storage w = None /\ sockets w = []
   /\ array_at w DEFAULT_PLAYERS = [])
  \/ (exists d stored,
        data w = Some d
        /\ storage w = Some stored
        /\ same_room stored (to_json w d)
        /\ NoDup (id <$> players (to_json w d))
        /\ (""%string ∉ (id <$> players (to_json w d)))
        /\ forall ws, ws ∈ sockets w -> same_room (replica ws (outbox w)) (to_json w d)).

(** ** Double-precision arithmetic *)

(** The source computes on IEEE 754 binary64 numbers.  Where a result
    can depend on their rounding, the code is embedded over [F64]: an
    operation is the exact operation on the rationals followed by
    [round64], which rounds to the nearest double, a tie going to the
    even significand, with gradual underflow and overflow to infinity.
    The sign of zero is not kept. *)
Module F64.

(** [floor (log2 |q|)] for [q <> 0]: the difference of the bit lengths
    of numerator and denominator, or one less. *)
Definition ilog2 (q : Q) : Z :=
  let e := (Z.log2 (Z.abs (Qnum q)) - Z.log2 (Zpos (Qden q)))%Z in
  if Qle_bool (2 ^ e) (Qabs q) then e else (e - 1)%Z.

(** The integer nearest to [x], a tie going to the even one. *)
Definition nearest_even (x : Q) : Z :=
  let f := Qfloor x in
  match (x - inject_Z f ?= 1 # 2)%Q with
  | Lt => f
  | Gt => (f + 1)%Z
  | Eq => if Z.even f then f else (f + 1)%Z
  end.

(** Rounding to 53 significant bits; the unit in the last place is
    never below [2 ^ -1074], and a result of magnitude [2 ^ 1024] or
    more is an infinity. *)
Definition round64 (q : Q) : number :=
  if Qeq_bool q 0 then Num 0
  else
    let e := Z.max (ilog2 q - 52) (-1074) in
    let r := Qred (inject_Z (nearest_even (q * 2 ^ (- e))) * 2 ^ e) in
    if Qle_bool (2 ^ 1024) (Qabs r)
    then (if Qle_bool 0 q then Infinity else NegInfinity)
    else Num r.

(** The rationals that are doubles: rounding returns them. *)
Definition is_double (q : Q) : bool :=
  match round64 q with
  | Num r => Qeq_bool r q
  | _ => false
  end.

(** Multiples of [2 ^ -1074]: every double is one, and so is every sum
    or difference of doubles. *)
Definition on_grid (q : Q) : Prop :=
  exists k : Z, (q == inject_Z k * 2 ^ (-1074))%Q.

(** Halves of an integer of magnitude below [bound]. *)
Definition half_int (bound : Z) (q : Q) : Prop :=
  exists k : Z, (q == inject_Z k * (1 # 2))%Q /\ (Z.abs k < bound)%Z.

(** Whole and half milliseconds of magnitude below [2 ^ 49]: sums and
    differences of up to eight of them are doubles, so the code's
    arithmetic on them is exact. *)
Definition exact_ms (q : Q) : bool :=
  Qeq_bool (inject_Z (Qfloor (2 * q))) (2 * q) && Qltb (Qabs q) (2 ^ 49).

(** Whole numbers of magnitude below [2 ^ 30]. *)
Definition small_int (q : Q) : bool :=
  Qeq_bool (inject_Z (Qfloor q)) q && Qltb (Qabs q) (2 ^ 30).

Definition opp (x : number) : number :=
  match x with
  | Num a => Num (- a)
  | NaN => NaN
  | Infinity => NegInfinity
  | NegInfinity => Infinity
  end.

Definition add (x y : number) : number :=
  match x, y with
  | NaN, _ | _, NaN => NaN
  | Num a, Num b => round64 (a + b)
  | Infinity, NegInfinity | NegInfinity, Infinity => NaN
  | Infinity, _ | _, Infinity => Infinity
  | NegInfinity, _ | _, NegInfinity => NegInfinity
  end.

Definition sub (x y : number) : number := add x (opp y).

Definition mul (x y : number) : number :=
  match x, y with
  | NaN, _ | _, NaN => NaN
  | Num a, Num b => round64 (a * b)
  | Num a, Infinity | Infinity, Num a =>
      if Qeq_bool a 0 then NaN else if Qltb 0 a then Infinity else NegInfinity
  | Num a, NegInfinity | NegInfinity, Num a =>
      if Qeq_bool a 0 then NaN else if Qltb 0 a then NegInfinity else Infinity
  | Infinity, Infinity | NegInfinity, NegInfinity => Infinity
  | Infinity, NegInfinity | NegInfinity, Infinity => NegInfinity
  end.

(** The Standard Library's binary64 ([SpecFloat], precision 53,
    exponents up to 1024), to compare with: a whole number as a float,
    and a float as a [number]. *)
Definition spec_of_Z (z : Z) : SpecFloat.spec_float :=
  SpecFloat.binary_normalize 53 1024 z 0 false.

Definition of_spec (x : SpecFloat.spec_float) : number :=
  match x with
  | SpecFloat.S754_zero _ => Num 0
  | SpecFloat.S754_infinity false => Infinity
  | SpecFloat.S754_infinity true => NegInfinity
  | SpecFloat.S754_nan => NaN
  | SpecFloat.S754_finite s m e =>
      Num (Qred ((if s then -1 else 1) * inject_Z (Zpos m) * 2 ^ e))
  end.

(** [x < y]: false when either side is NaN. *)
Definition lt (x y : number) : bool :=
  match x, y with
  | NaN, _ | _, NaN => false
  | Num a, Num b => Qltb a b
  | _, NegInfinity => false
  | NegInfinity, _ => true
  | Infinity, _ => false
  | _, Infinity => true
  end.

(** *** The rally schedule in doubles (App.jsx, lines 422-467) *)

Record Row := mkRow {
  row_player : Player;
  startAt : number;
  rallyStartAt : number;
  diffMs : number;
  diffToRallyStartMs : number;
  diffFromLaunchMs : number;
  landInMs : number
}.

Record RallyComputed := mkRallyComputed {
  starter : Player;
  rc_launchAt : Q;
  rc_rallyStartAt : number;
  arrivalAt : number;
  rows : list Row;
  joinRemainingMs : number;
  phase : Phase
}.

(** The stable sort, as above: an element goes in front of the first
    one it does not compare greater than.  A comparator result that is
    NaN counts as 0. *)
Fixpoint insert_by {A} (cmp : A -> A -> number) (x : A) (sorted : list A) : list A :=
  match sorted with
  | [] => [x]
  | y :: rest =>
      if lt (Num 0) (cmp x y) then y :: insert_by cmp x rest
      else x :: y :: rest
  end.

Definition sort_by {A} (cmp : A -> A -> number) (arr : list A) : list A :=
  foldr (insert_by cmp) [] arr.

(** The callback of [state.players.map]. *)
Definition make_row (arrival : number) (launch : Q) (rallyDurationMs : number)
    (now : Q) (p : Player) : Row :=
  let start := sub arrival (Num (marchMs p)) in
  let playerRallyStartAt := sub start rallyDurationMs in
  {| row_player := p;
     startAt := start;
     rallyStartAt := playerRallyStartAt;
     diffMs := sub start (Num now);
     diffToRallyStartMs := sub playerRallyStartAt (Num now);
     diffFromLaunchMs := sub start (Num launch);
     landInMs := sub arrival (Num now) |}.

(** [rallyComputed] on a state whose numbers are doubles. *)
Definition rallyComputed (state : RoomState) (now delay : Q) : option RallyComputed :=
  match rally state with
  | None => None
  | Some activeRally =>
      match find_first (fun p => String.eqb (id p) (starterId activeRally))
              (players state) with
      | None => None
      | Some s =>
          let launch := launchAt activeRally in
          let rallyDurationMs := mul (mul (Num delay) (Num 60)) (Num 1000) in
          let arrival := add (Num launch) (Num (marchMs s)) in
          let joinRemaining := sub (Num launch) (Num now) in
          Some {| starter := s;
                  rc_launchAt := launch;
                  rc_rallyStartAt := sub (Num launch) rallyDurationMs;
                  arrivalAt := arrival;
                  rows :=
                    sort_by (fun a b => sub (startAt a) (startAt b))
                      (make_row arrival launch rallyDurationMs now
                         <$> players state);
                  joinRemainingMs := joinRemaining;
                  phase := if lt (Num 0) joinRemaining then JOIN else MARCH |}
      end
  end.

(** The test that appends the flag: [r.diffFromLaunchMs < 0]. *)
Definition beforeMarch (r : Row) : bool := lt (diffFromLaunchMs r) (Num 0).


End F64.

(** ** Concrete scenarios *)

Definition alice : Player := mkPlayer "a" "Alice" 30000.
Definition bob : Player := mkPlayer "b" "Bob" 50000.

(** A clock that advances by one millisecond per reading, a good while
    after the epoch. *)
Definition demo_clock (n : nat) : Q := inject_Z (100000000 + Z.of_nat n).

(** Alice starts a rally launching at 5000 and Bob joins it. *)
Definition demo_state : RoomState :=
  mkRoomState [alice; bob] (Some (mkRally "a" 5000)) None.

(** A RALLY_START naming a player nobody added. *)
Definition ghost_start : ClientMsg :=
  RALLY_START (Some (mkRallyStartPayload "ghost" None (Some (Num 300000)) None)).

(** A RALLY_START carrying its own launch instant next to the durations. *)
Definition dated_start : RallyStartPayload :=
  mkRallyStartPayload "a" (Some (Num 42)) (Some (Num 300000)) (Some (Num 10000)).

(** A RALLY_START as the client sends it. *)
Definition plain_start : RallyStartPayload :=
  mkRallyStartPayload "a" None (Some (Num 300000)) (Some (Num 10000)).

(** A fresh room in which Alice is added and then starts a rally. *)
Definition demo_room : World :=
  deliver (Message 0%nat (Some (RALLY_START (Some plain_start))))
    (deliver (Message 0%nat (Some (PLAYER_ADD (Some alice))))
       (fresh_world demo_clock)).

(** The state that room then has in memory. *)
Definition demo_room_state : RoomState :=
  Eval vm_compute in default (mkRoomState [] None None) (current_state demo_room).

(** A state stored long before [demo_clock] starts. *)
Definition stale_state : RoomState := mkRoomState [bob] None (Some 1000%Q).

(** * Properties *)

(** ** Order on finite numbers *)

Lemma Qltb_lt (x y : Q) : Qltb x y = true <-> (x < y)%Q.
Proof.
  unfold Qltb. rewrite Qlt_alt. destruct (x ?= y)%Q; split; congruence.
Qed.

Lemma Qltb_ge (x y : Q) : Qltb x y = false <-> (y <= x)%Q.
Proof.
  split; intros H.
  - apply Qnot_lt_le. intros Hlt. apply Qltb_lt in Hlt. congruence.
  - destruct (Qltb x y) eqn:E; [|done].
    apply Qltb_lt in E. exfalso. eapply Qlt_not_le; eauto.
Qed.

Lemma Qltb_irrefl (x : Q) : Qltb x x = false.
Proof. apply Qltb_ge. apply Qle_refl. Qed.

(** ** The sample window *)

Lemma slice_last_all {A} (k : nat) (l : list A) :
  length l <= k -> slice_last k l = l.
Proof.
  intros H. unfold slice_last. replace (length l - k) with 0 by lia. done.
Qed.

Lemma slice_last_length {A} (k : nat) (l : list A) :
  length (slice_last k l) <= k.
Proof. unfold slice_last. rewrite length_drop. lia. Qed.

Lemma slice_last_snoc {A} (k : nat) (l : list A) (x : A) :
  slice_last k (slice_last (S k) l) ++ [x] = slice_last (S k) (l ++ [x]).
Proof.
  unfold slice_last. rewrite drop_drop, length_drop, length_app. simpl.
  destruct (decide (length l <= k)) as [Hle|Hgt].
  - replace (length l - S k + (length l - (length l - S k) - k)) with 0 by lia.
    replace (length l + 1 - S k) with 0 by lia. done.
  - rewrite drop_app_le by lia. do 2 f_equal. lia.
Qed.

Lemma setOffsetSample_window (o r t : Q) (st : SyncState) :
  syncSamplesRef (setOffsetSample o r t st)
  = slice_last (SYNC_SAMPLE_COUNT - 1) (syncSamplesRef st)
      ++ [ {| offsetMs := o; rttMs := r; atTs := t |} ].
Proof. unfold setOffsetSample. by destruct (best_of _). Qed.

Lemma incorporate_snoc (l : list Sample) (s : Sample) (st : SyncState) :
  incorporate (l ++ [s]) st
  = setOffsetSample (offsetMs s) (rttMs s) (atTs s) (incorporate l st).
Proof. unfold incorporate. by rewrite fold_left_app. Qed.

Lemma incorporate_window (l : list Sample) :
  syncSamplesRef (incorporate l initialSync) = slice_last SYNC_SAMPLE_COUNT l.
Proof.
  induction l as [|s l IH] using rev_ind; [done|].
  rewrite incorporate_snoc, setOffsetSample_window, IH.
  destruct s as [o r t]. simpl. apply (slice_last_snoc 5).
Qed.

(** C9: however many samples were incorporated, the window holds the
    last [SYNC_SAMPLE_COUNT] = 6 of them in arrival order, so never more
    than 6; and one more sample arriving at a full window removes the
    oldest retained sample only, the others staying in order before the
    new one. *)
Theorem C9_window_bounded_drop_oldest (arrivals : list Sample) (o r t : Q) :
  let st := incorporate arrivals initialSync in
  let st' := setOffsetSample o r t st in
  SYNC_SAMPLE_COUNT = 6
  /\ syncSamplesRef st = slice_last 6 arrivals
  /\ length (syncSamplesRef st) <= 6
  /\ length (syncSamplesRef st') <= 6
  /\ (length (syncSamplesRef st) = 6 ->
      syncSamplesRef st'
      = drop 1 (syncSamplesRef st) ++ [ {| offsetMs := o; rttMs := r; atTs := t |} ])
  /\ (length (syncSamplesRef st) < 6 ->
      syncSamplesRef st'
      = syncSamplesRef st ++ [ {| offsetMs := o; rttMs := r; atTs := t |} ]).
Proof.
  intros st st'. subst st'.
  assert (Hw : syncSamplesRef st = slice_last 6 arrivals) by apply incorporate_window.
  assert (Hlen : length (syncSamplesRef st) <= 6)
    by (rewrite Hw; apply slice_last_length).
  split_and!; try done.
  - rewrite setOffsetSample_window, length_app. simpl.
    pose proof (slice_last_length 5 (syncSamplesRef st)). lia.
  - intros H6. rewrite setOffsetSample_window. f_equal.
    unfold slice_last. rewrite H6. done.
  - intros Hlt. rewrite setOffsetSample_window. f_equal.
    apply slice_last_all. simpl. lia.
Qed.

(** ** Selection of the operative offset *)

Lemma pick_min_self (s : Sample) : pick_min s s = s.
Proof. unfold pick_min. by rewrite Qltb_irrefl. Qed.

(** What the reduction returns, started from [init]: either [init]
    itself, nothing in the array being strictly faster, or the first
    element of the array that is strictly faster than [init] and than
    everything before it, and at least as fast as everything after. *)
Lemma fold_pick_min (l : list Sample) (init b : Sample) :
  fold_left pick_min l init = b ->
  (b = init /\ forall x, x ∈ l -> (rttMs init <= rttMs x)%Q)
  \/ (exists i, l !! i = Some b
        /\ (rttMs b < rttMs init)%Q
        /\ (forall j x, j < i -> l !! j = Some x -> (rttMs b < rttMs x)%Q)
        /\ (forall x, x ∈ l -> (rttMs b <= rttMs x)%Q)).
Proof.
  revert init. induction l as [|x l IH]; intros init; simpl.
  - intros <-. left. split; [done|]. intros y Hy. by apply elem_of_nil in Hy.
  - unfold pick_min at 2. destruct (Qltb (rttMs x) (rttMs init)) eqn:E; intros Hfold.
    + apply Qltb_lt in E. right.
      destruct (IH x Hfold) as [[Hb Hall]|(i & Hi & Hlt & Hbefore & Hall)].
      * exists 0. rewrite Hb. split_and!; try done; try (intros; lia).
        intros y Hy. apply elem_of_cons in Hy as [->|Hy]; [apply Qle_refl|auto].
      * exists (S i). split_and!; try done.
        -- eapply Qlt_trans; eauto.
        -- intros [|j] y Hj Hy; simpl in Hy.
           ++ by injection Hy as <-.
           ++ apply (Hbefore j); [lia|done].
        -- intros y Hy. apply elem_of_cons in Hy as [->|Hy]; [by apply Qlt_le_weak|auto].
    + apply Qltb_ge in E.
      destruct (IH init Hfold) as [[Hb Hall]|(i & Hi & Hlt & Hbefore & Hall)].
      * left. split; [done|].
        intros y Hy. apply elem_of_cons in Hy as [->|Hy]; auto.
      * right. exists (S i). split_and!; try done.
        -- intros [|j] y Hj Hy; simpl in Hy.
           ++ injection Hy as <-. eapply Qlt_le_trans; eauto.
           ++ apply (Hbefore j); [lia|done].
        -- intros y Hy. apply elem_of_cons in Hy as [->|Hy]; [|auto].
           apply Qlt_le_weak. eapply Qlt_le_trans; eauto.
Qed.

(** [best_of] returns the first sample of minimum round-trip time. *)
Lemma best_of_first_minimum (samples : list Sample) (best : Sample) :
  best_of samples = Some best ->
  exists i, samples !! i = Some best
    /\ (forall x, x ∈ samples -> (rttMs best <= rttMs x)%Q)
    /\ (forall j x, j < i -> samples !! j = Some x -> (rttMs best < rttMs x)%Q).
Proof.
  destruct samples as [|s0 rest]; [done|].
  unfold best_of. intros [= Hfold]. simpl in Hfold. rewrite pick_min_self in Hfold.
  destruct (fold_pick_min rest s0 best Hfold)
    as [[Hb Hall]|(i & Hi & Hlt & Hbefore & Hall)].
  - exists 0. rewrite Hb. split_and!; try done; try (intros; lia).
    intros y Hy. apply elem_of_cons in Hy as [->|Hy]; [apply Qle_refl|auto].
  - exists (S i). split_and!; try done.
    + intros y Hy. apply elem_of_cons in Hy as [->|Hy]; [by apply Qlt_le_weak|auto].
    + intros [|j] y Hj Hy; simpl in Hy.
      * by injection Hy as <-.
      * apply (Hbefore j); [lia|done].
Qed.

Lemma best_of_nonempty (samples : list Sample) :
  samples <> [] -> is_Some (best_of samples).
Proof. destruct samples; [done|]. intros _. by eexists. Qed.

(** The state [setOffsetSample] leaves for the best sample of the new
    window. *)
Lemma setOffsetSample_best (o r t : Q) (st : SyncState) :
  exists best,
    best_of (syncSamplesRef (setOffsetSample o r t st)) = Some best
    /\ offsetRef (setOffsetSample o r t st) = offsetMs best
    /\ timeOffsetMs (setOffsetSample o r t st) = offsetMs best
    /\ bestRttMs (setOffsetSample o r t st) = Some (rttMs best).
Proof.
  rewrite setOffsetSample_window. unfold setOffsetSample.
  set (samples := _ ++ [_]).
  destruct (best_of_nonempty samples) as [best Hbest].
  { subst samples. by destruct (slice_last _ _). }
  rewrite Hbest. simpl. eauto.
Qed.

(** C2: after every [setOffsetSample], the operative offset is the
    offset of a sample of the retained window whose round-trip time is
    minimal in the window, and which is the earliest such sample (every
    sample before it is strictly slower).  The selection looks at
    round-trip times only: the same samples retained in any other order
    give a best sample of the same round-trip time, and the very same
    sample when no other sample ties with it. *)
Theorem C2_operative_offset_is_first_min_rtt (o r t : Q) (st : SyncState) :
  let st' := setOffsetSample o r t st in
  let window := syncSamplesRef st' in
  exists i best,
    window !! i = Some best
    /\ offsetRef st' = offsetMs best
    /\ timeOffsetMs st' = offsetMs best
    /\ bestRttMs st' = Some (rttMs best)
    /\ (forall x, x ∈ window -> (rttMs best <= rttMs x)%Q)
    /\ (forall j x, j < i -> window !! j = Some x -> (rttMs best < rttMs x)%Q)
    /\ (forall reordered best',
          reordered ≡ₚ window ->
          best_of reordered = Some best' ->
          (rttMs best' == rttMs best)%Q
          /\ ((forall x, x ∈ window -> (rttMs x == rttMs best)%Q -> x = best) ->
              best' = best)).
Proof.
  intros st' window.
  destruct (setOffsetSample_best o r t st) as (best & Hbest & Ho & Ht & Hr).
  destruct (best_of_first_minimum _ _ Hbest) as (i & Hi & Hmin & Hfirst).
  exists i, best. split_and!; try done.
  intros reordered best' Hperm Hbest'.
  destruct (best_of_first_minimum _ _ Hbest') as (i' & Hi' & Hmin' & _).
  assert (Hin' : best' ∈ window).
  { rewrite <- Hperm. by eapply list_elem_of_lookup_2. }
  assert (Hin : best ∈ reordered).
  { rewrite Hperm. by eapply list_elem_of_lookup_2. }
  assert (Heq : (rttMs best' == rttMs best)%Q).
  { apply Qle_antisym; [apply Hmin', Hin | apply Hmin, Hin']. }
  split; [done|]. intros Huniq. by apply Huniq.
Qed.

(** The spec's burst: round-trip times 80, 45, 120, 45, 200, 60 ms with
    offsets 1..6; the best sample is the first of the two 45 ms ones. *)
Example burst_selects_first_45 :
  let burst := [mkSample 1 80 0; mkSample 2 45 0; mkSample 3 120 0;
                mkSample 4 45 0; mkSample 5 200 0; mkSample 6 60 0] in
  offsetRef (incorporate burst initialSync) = 2%Q.
Proof. reflexivity. Qed.

(** ** Sync replies *)

Lemma Number_isFinite_spec (v : jsval) :
  Number_isFinite v = true <-> exists q, v = JNumber (Num q).
Proof.
  split.
  - destruct v as [| | |[]| |]; try done. eauto.
  - by intros [q ->].
Qed.

Lemma Qmax_zero (x : Q) :
  ((0 <= x -> Qmax 0 x == x) /\ (x <= 0 -> Qmax 0 x == 0) /\ 0 <= Qmax 0 x)%Q.
Proof.
  split_and!.
  - intros H. by apply Q.max_r.
  - intros H. by apply Q.max_l.
  - apply Q.le_max_l.
Qed.

(** C4: a reply whose three timestamps are finite numbers adds exactly
    one sample to the window, the one with
    [rtt = max(0, (t3 - t0) - (t2 - t1))], [offset = ((t1 - t0) + (t2 - t3)) / 2]
    and arrival time [t3]; a reply in which one of them is not a finite
    number, or without a payload, leaves the whole sync state (window
    and operative offset) as it was. *)
Theorem C4_sync_reply_folded_or_discarded (t3 : Q) (st : SyncState) :
  (forall a b c : Q,
      let reply := {| t0 := JNumber (Num a); t1 := JNumber (Num b); t2 := JNumber (Num c) |} in
      let sample := {| offsetMs := ((b - a) + (c - t3)) / 2;
                       rttMs := Qmax 0 ((t3 - a) - (c - b));
                       atTs := t3 |} in
      handleTimeSyncResponse t3 (Some reply) st
        = setOffsetSample (offsetMs sample) (rttMs sample) t3 st
      /\ syncSamplesRef (handleTimeSyncResponse t3 (Some reply) st)
        = slice_last 5 (syncSamplesRef st) ++ [sample]
      /\ (0 <= rttMs sample)%Q
      /\ (0 <= (t3 - a) - (c - b) -> rttMs sample == (t3 - a) - (c - b))%Q
      /\ ((t3 - a) - (c - b) <= 0 -> rttMs sample == 0)%Q)
  /\ (forall reply : SyncPayload,
        Number_isFinite (t0 reply) && Number_isFinite (t1 reply)
          && Number_isFinite (t2 reply) = false ->
        handleTimeSyncResponse t3 (Some reply) st = st)
  /\ handleTimeSyncResponse t3 None st = st.
Proof.
  split_and!; [|intros reply Hbad|done].
  - intros a b c reply sample. split_and!.
    + done.
    + unfold handleTimeSyncResponse. simpl. by rewrite setOffsetSample_window.
    + apply Qmax_zero.
    + apply Qmax_zero.
    + apply Qmax_zero.
  - unfold handleTimeSyncResponse. simpl. rewrite andb_true_r.
    rewrite andb_assoc. by rewrite Hbad.
Qed.

(** ** The rally schedule *)

Lemma insert_by_perm {A} (cmp : A -> A -> Q) (x : A) (l : list A) :
  insert_by cmp x l ≡ₚ x :: l.
Proof.
  induction l as [|y l IH]; simpl; [done|].
  destruct (Qle_bool _ _); [done|].
  rewrite IH. apply Permutation_swap.
Qed.

Lemma sort_by_perm {A} (cmp : A -> A -> Q) (l : list A) :
  sort_by cmp l ≡ₚ l.
Proof.
  induction l as [|x l IH]; simpl; [done|].
  by rewrite insert_by_perm, IH.
Qed.

Lemma find_first_Some {A} (pred : A -> bool) (l : list A) (x : A) :
  find_first pred l = Some x -> x ∈ l /\ pred x = true.
Proof.
  induction l as [|y l IH]; simpl; [done|].
  destruct (pred y) eqn:E.
  - intros [= <-]. split; [apply elem_of_cons; by left|done].
  - intros H. destruct (IH H). split; [apply elem_of_cons; by right|done].
Qed.

Lemma find_first_existsb {A} (pred : A -> bool) (l : list A) :
  is_Some (find_first pred l) <-> existsb pred l = true.
Proof.
  induction l as [|y l IH]; simpl.
  - split; [by intros [? ?]|done].
  - destruct (pred y); simpl; [|done]. split; [done|by eexists].
Qed.

(** [rallyComputed] returns a result exactly when the rally is present
    and its starter is among the players. *)
Lemma rallyComputed_Some (state : RoomState) (now delay : Q) :
  is_Some (rallyComputed state now delay)
  <-> exists r, rally state = Some r /\ has_player (starterId r) (players state) = true.
Proof.
  unfold rallyComputed, has_player. destruct (rally state) as [r|].
  - pose proof (find_first_existsb
      (fun p => String.eqb (id p) (starterId r)) (players state)) as Hiff.
    destruct (find_first _ _) as [s|].
    + split; [|by eexists]. intros _. exists r. split; [done|]. apply Hiff. by eexists.
    + split; [by intros [? ?]|]. intros (r' & [= <-] & Hex).
      apply Hiff in Hex as [? ?]. done.
  - split; [by intros [? ?]|]. by intros (r & ? & _).
Qed.

(** The parts of a result, as the source computes them. *)
Lemma rallyComputed_inv (state : RoomState) (now delay : Q) (rc : RallyComputed) :
  rallyComputed state now delay = Some rc ->
  exists r,
    rally state = Some r
    /\ starter rc ∈ players state
    /\ id (starter rc) = starterId r
    /\ rc_launchAt rc = launchAt r
    /\ arrivalAt rc = (launchAt r + marchMs (starter rc))%Q
    /\ joinRemainingMs rc = (launchAt r - now)%Q
    /\ phase rc = (if Qltb 0 (launchAt r - now) then JOIN else MARCH)
    /\ rows rc ≡ₚ make_row (arrivalAt rc) (launchAt r) (delay * 60 * 1000) now
                    <$> players state.
Proof.
  unfold rallyComputed. destruct (rally state) as [r|]; [|done].
  destruct (find_first _ _) as [s|] eqn:Hfind; [|done].
  intros [= <-]. simpl. apply find_first_Some in Hfind as [Hin Hid].
  apply String.eqb_eq in Hid.
  exists r. split_and!; try done. apply sort_by_perm.
Qed.

(** * Double-precision arithmetic *)

Section Binary64.
Local Open Scope Q_scope.

Lemma two_pow_pos (e : Z) : 0 < 2 ^ e.
Proof. by apply Qpower_0_lt. Qed.

Lemma two_pow_Z (e : Z) : (0 <= e)%Z -> inject_Z (2 ^ e) == 2 ^ e.
Proof. intros He. by rewrite Zpower_Qpower. Qed.

Lemma two_pow_add (a b : Z) : 2 ^ (a + b) == 2 ^ a * 2 ^ b.
Proof. by apply Qpower_plus. Qed.

Lemma two_pow_cancel (e : Z) : 2 ^ e * 2 ^ (- e) == 1.
Proof. rewrite <- two_pow_add. by replace (e + - e)%Z with 0%Z by lia. Qed.

(** [round64] at some known values: one tenth; the sum of one tenth and
    two tenths, which is not three tenths; a tie going to the even
    significand; the largest double, and the overflow next to it; the
    smallest subnormal and the tie below it, which goes to 0. *)
Example round64_known_values :
  F64.round64 (1 # 10) = Num (3602879701896397 # 36028797018963968)
  /\ F64.add (F64.round64 (1 # 10)) (F64.round64 (2 # 10))
     = Num (1351079888211149 # 4503599627370496)
  /\ F64.round64 (3 # 10) = Num (5404319552844595 # 18014398509481984)
  /\ F64.round64 (inject_Z (2 ^ 53 + 1)) = Num (inject_Z (2 ^ 53))
  /\ F64.round64 (inject_Z (2 ^ 53 + 3)) = Num (inject_Z (2 ^ 53 + 4))
  /\ F64.round64 (inject_Z (2 ^ 1024 - 2 ^ 970 - 1)) = Num (inject_Z (2 ^ 1024 - 2 ^ 971))
  /\ F64.round64 (inject_Z (2 ^ 1024 - 2 ^ 970)) = Infinity
  /\ F64.round64 (1 # 2 ^ 1074) = Num (1 # 2 ^ 1074)
  /\ F64.round64 (1 # 2 ^ 1075) = Num 0.
Proof. split_and!; vm_compute; reflexivity. Qed.

(** The operations agree with the Standard Library's binary64 on the
    values the examples of this file are about. *)
Example operations_agree_with_SpecFloat :
  F64.of_spec (SpecFloat.SFsub 53 1024
                 (SpecFloat.SFadd 53 1024 (F64.spec_of_Z 1700000000001) (F64.spec_of_Z (10 ^ 16)))
                 (F64.spec_of_Z (10 ^ 16)))
  = F64.sub (F64.add (Num 1700000000001) (Num (inject_Z (10 ^ 16))))
      (Num (inject_Z (10 ^ 16)))
  /\ F64.of_spec (SpecFloat.SFadd 53 1024 (F64.spec_of_Z 100000005) (F64.spec_of_Z (2 ^ 53)))
     = F64.add (Num 100000005) (Num (inject_Z (2 ^ 53)))
  /\ F64.of_spec (SpecFloat.SFadd 53 1024 (F64.spec_of_Z (10 ^ 308)) (F64.spec_of_Z (10 ^ 308)))
     = F64.add (Num (inject_Z (10 ^ 308))) (Num (inject_Z (10 ^ 308)))
  /\ F64.of_spec (SpecFloat.SFmul 53 1024
                    (SpecFloat.SFmul 53 1024 (F64.spec_of_Z 5) (F64.spec_of_Z 60)) (F64.spec_of_Z 1000))
     = F64.mul (F64.mul (Num 5) (Num 60)) (Num 1000)
  /\ F64.of_spec (SpecFloat.SFdiv 53 1024 (F64.spec_of_Z 1) (F64.spec_of_Z 10)) = F64.round64 (1 # 10)
  /\ F64.of_spec (SpecFloat.SFadd 53 1024
                    (SpecFloat.SFdiv 53 1024 (F64.spec_of_Z 1) (F64.spec_of_Z 10))
                    (SpecFloat.SFdiv 53 1024 (F64.spec_of_Z 2) (F64.spec_of_Z 10)))
     = F64.add (F64.round64 (1 # 10)) (F64.round64 (2 # 10)).
Proof. split_and!; vm_compute; reflexivity. Qed.

(** The leading bit: [2 ^ ilog2 q <= |q|]. *)
Lemma ilog2_le (q : Q) : ~ q == 0 -> 2 ^ F64.ilog2 q <= Qabs q.
Proof.
  intros Hq. unfold F64.ilog2.
  set (n := Z.abs (Qnum q)). set (d := Zpos (Qden q)).
  destruct (Qle_bool _ _) eqn:E; [by apply Qle_bool_iff|]. clear E.
  assert (Hn : (0 < n)%Z).
  { subst n. destruct q as [[|p|p] dq]; simpl; try lia.
    destruct Hq. reflexivity. }
  assert (Hd : (0 < d)%Z) by (subst d; lia).
  pose proof (Z.log2_spec n Hn) as [Hlo _].
  pose proof (Z.log2_spec d Hd) as [_ Hhi].
  pose proof (Z.log2_nonneg n) as Ha. pose proof (Z.log2_nonneg d) as Hb.
  set (a := Z.log2 n) in *. set (b := Z.log2 d) in *.
  replace (a - b - 1)%Z with (a - Z.succ b)%Z by lia.
  rewrite Qpower_minus by done.
  rewrite <- !two_pow_Z by lia.
  assert (Habs : Qabs q == inject_Z n / inject_Z d).
  { subst n d. destruct q as [nq dq]. unfold Qabs. simpl.
    rewrite (Qmake_Qdiv (Z.abs nq) dq). reflexivity. }
  rewrite Habs.
  assert (HB : (0 < 2 ^ Z.succ b)%Z) by lia.
  apply Qle_shift_div_l; [by rewrite <- (Zlt_Qlt 0)|].
  unfold Qdiv. rewrite <- Qmult_assoc, (Qmult_comm (/ _)), Qmult_assoc.
  apply Qle_shift_div_r; [by rewrite <- (Zlt_Qlt 0)|].
  rewrite <- !inject_Z_mult, <- Zle_Qle. nia.
Qed.

Lemma nearest_even_Z (x : Q) (z : Z) : x == inject_Z z -> F64.nearest_even x = z.
Proof.
  intros Hx. unfold F64.nearest_even.
  assert (Hf : Qfloor x = z) by (rewrite Hx; apply Qfloor_Z).
  rewrite Hf.
  assert (Hc : (x - inject_Z z ?= 1 # 2) = Lt).
  { rewrite <- Qlt_alt. rewrite Hx. lra. }
  by rewrite Hc.
Qed.

Lemma nearest_even_bounds (x : Q) :
  (Qfloor x <= F64.nearest_even x <= Qfloor x + 1)%Z.
Proof.
  unfold F64.nearest_even.
  destruct (_ ?= _); [destruct (Z.even _)|..]; lia.
Qed.

Lemma nearest_even_pos (x : Q) : 1 <= x -> (1 <= F64.nearest_even x)%Z.
Proof.
  intros Hx. pose proof (nearest_even_bounds x) as [Hlo _].
  assert (1 <= Qfloor x)%Z; [|lia].
  change 1%Z with (Qfloor 1). by apply Qfloor_resp_le.
Qed.

Lemma nearest_even_neg (x : Q) : x <= -1 -> (F64.nearest_even x <= -1)%Z.
Proof.
  intros Hx. pose proof (nearest_even_bounds x) as [_ Hhi].
  assert (Hf : (Qfloor x <= -1)%Z).
  { change (-1)%Z with (Qfloor (-1)). by apply Qfloor_resp_le. }
  destruct (decide (Qfloor x = -1)%Z) as [Heq|Hne]; [|lia].
  assert (Hx' : x == inject_Z (-1)).
  { pose proof (Qfloor_le x) as Hle. rewrite Heq in Hle.
    apply Qle_antisym; [done|]. exact Hle. }
  rewrite (nearest_even_Z _ _ Hx'). lia.
Qed.

(** A multiple of [2 ^ -j] with a numerator of at most 53 bits is a
    double: rounding leaves it as it is. *)
Lemma round64_exact (q : Q) (k j : Z) :
  (0 <= j <= 1074)%Z ->
  (Z.abs k < 2 ^ 53)%Z ->
  q == inject_Z k * 2 ^ (- j) ->
  F64.round64 q = Num (Qred q).
Proof.
  intros Hj Hk Hq. unfold F64.round64.
  destruct (Qeq_bool q 0) eqn:E0.
  { apply Qeq_bool_iff in E0. f_equal. symmetry.
    change 0 with (Qred 0). by apply Qred_complete. }
  apply Qeq_bool_neq in E0.
  assert (Habs : Qabs q < 2 ^ (53 - j)).
  { rewrite Hq, Qabs_Qmult, (Qabs_pos (2 ^ _)) by (apply Qlt_le_weak, two_pow_pos).
    replace (53 - j)%Z with (53 + - j)%Z by lia. rewrite two_pow_add.
    apply Qmult_lt_compat_r; [apply two_pow_pos|].
    rewrite <- two_pow_Z by lia.
    assert (Qabs (inject_Z k) == inject_Z (Z.abs k)) as -> by reflexivity.
    by rewrite <- Zlt_Qlt. }
  pose proof (ilog2_le q E0) as Hlog.
  assert (HL : (F64.ilog2 q < 53 - j)%Z).
  { apply (Qpower_lt_compat_l_inv 2); [|done]. eapply Qle_lt_trans; done. }
  set (e := Z.max (F64.ilog2 q - 52) (-1074)).
  assert (He : (e <= - j)%Z) by lia.
  assert (Hscaled : q * 2 ^ (- e) == inject_Z (k * 2 ^ (- j - e))).
  { rewrite inject_Z_mult, two_pow_Z by lia.
    replace (- j - e)%Z with (- j + - e)%Z by lia.
    rewrite two_pow_add, Hq. ring. }
  rewrite (nearest_even_Z _ _ Hscaled).
  assert (Hback : inject_Z (k * 2 ^ (- j - e)) * 2 ^ e == q).
  { rewrite <- Hscaled, <- Qmult_assoc, (Qmult_comm (2 ^ (- e))), two_pow_cancel. ring. }
  rewrite (Qred_complete _ _ Hback).
  destruct (Qle_bool _ _) eqn:Eov; [|done].
  apply Qle_bool_iff in Eov. rewrite Qred_correct in Eov.
  exfalso. apply (Qlt_irrefl (2 ^ 1024)).
  eapply Qle_lt_trans; [exact Eov|]. eapply Qlt_le_trans; [exact Habs|].
  apply Qpower_le_compat_l; [lia|done].
Qed.

(** *** Halves of integers *)

Lemma half_int_Qeq (b : Z) (q q' : Q) : q == q' -> F64.half_int b q -> F64.half_int b q'.
Proof. intros Heq (k & Hk & Hb). exists k. by rewrite <- Heq. Qed.

Lemma half_int_weaken (b b' : Z) (q : Q) :
  (b <= b')%Z -> F64.half_int b q -> F64.half_int b' q.
Proof. intros Hle (k & Hk & Hb). exists k. split; [done|lia]. Qed.

Lemma half_int_add (b1 b2 : Z) (x y : Q) :
  F64.half_int b1 x -> F64.half_int b2 y -> F64.half_int (b1 + b2) (x + y).
Proof.
  intros (k1 & H1 & B1) (k2 & H2 & B2). exists (k1 + k2)%Z. split; [|lia].
  rewrite inject_Z_plus, H1, H2. ring.
Qed.

Lemma half_int_opp (b : Z) (x : Q) : F64.half_int b x -> F64.half_int b (- x).
Proof.
  intros (k & H & B). exists (- k)%Z. split; [|lia].
  rewrite inject_Z_opp, H. ring.
Qed.

Lemma round64_half (q : Q) : F64.half_int (2 ^ 53) q -> F64.round64 q = Num (Qred q).
Proof.
  intros (k & Hk & Hb). apply (round64_exact q k 1); [lia|done|].
  rewrite Hk. reflexivity.
Qed.

Lemma exact_ms_half (q : Q) : F64.exact_ms q = true -> F64.half_int (2 ^ 50) q.
Proof.
  unfold F64.exact_ms. intros [Hint Hlt]%andb_true_iff.
  apply Qeq_bool_iff in Hint. apply Qltb_lt in Hlt.
  exists (Qfloor (2 * q)). split; [rewrite Hint; field|].
  assert (Hq : Qabs (inject_Z (Qfloor (2 * q))) < inject_Z (2 ^ 50)).
  { rewrite Hint, Qabs_Qmult. change (Qabs 2) with 2.
    change (inject_Z (2 ^ 50)) with (2 * 2 ^ 49). by apply Qmult_lt_l. }
  assert (Qabs (inject_Z (Qfloor (2 * q))) == inject_Z (Z.abs (Qfloor (2 * q)))) as Habs
    by reflexivity.
  rewrite Habs in Hq. by rewrite <- Zlt_Qlt in Hq.
Qed.

(** Sums and differences that stay within 53 bits are exact. *)
Lemma add_exact (b1 b2 : Z) (x y : Q) :
  F64.half_int b1 x -> F64.half_int b2 y -> (b1 + b2 <= 2 ^ 53)%Z ->
  exists r, F64.add (Num x) (Num y) = Num r /\ r == x + y /\ F64.half_int (b1 + b2) r.
Proof.
  intros Hx Hy Hb. pose proof (half_int_add _ _ _ _ Hx Hy) as Hsum.
  exists (Qred (x + y)). split_and!.
  - simpl. apply round64_half. by eapply half_int_weaken.
  - apply Qred_correct.
  - eapply half_int_Qeq; [|done]. symmetry. apply Qred_correct.
Qed.

Lemma sub_exact (b1 b2 : Z) (x y : Q) :
  F64.half_int b1 x -> F64.half_int b2 y -> (b1 + b2 <= 2 ^ 53)%Z ->
  exists r, F64.sub (Num x) (Num y) = Num r /\ r == x - y /\ F64.half_int (b1 + b2) r.
Proof.
  intros Hx Hy Hb.
  destruct (add_exact b1 b2 x (- y) Hx (half_int_opp _ _ Hy) Hb) as (r & Hr & Heq & Hh).
  exists r. split_and!; [done| |done]. rewrite Heq. ring.
Qed.

(** *** The grid of doubles and the sign of a rounded value *)

Lemma on_grid_add (x y : Q) : F64.on_grid x -> F64.on_grid y -> F64.on_grid (x + y).
Proof.
  intros (k1 & H1) (k2 & H2). exists (k1 + k2)%Z.
  rewrite inject_Z_plus, H1, H2. ring.
Qed.

Lemma on_grid_opp (x : Q) : F64.on_grid x -> F64.on_grid (- x).
Proof. intros (k & H). exists (- k)%Z. rewrite inject_Z_opp, H. ring. Qed.

Lemma round64_on_grid (q r : Q) : F64.round64 q = Num r -> F64.on_grid r.
Proof.
  unfold F64.round64. destruct (Qeq_bool q 0).
  { intros [= <-]. exists 0%Z. ring. }
  set (e := Z.max (F64.ilog2 q - 52) (-1074)).
  set (m := F64.nearest_even _).
  destruct (Qle_bool _ _); [by destruct (Qle_bool 0 q)|].
  intros [= <-]. exists (m * 2 ^ (e + 1074))%Z.
  rewrite Qred_correct, inject_Z_mult, two_pow_Z by lia.
  rewrite <- Qmult_assoc, <- two_pow_add.
  by replace (e + 1074 + -1074)%Z with e by lia.
Qed.

Lemma is_double_on_grid (q : Q) : F64.is_double q = true -> F64.on_grid q.
Proof.
  unfold F64.is_double. destruct (F64.round64 q) as [r| | |] eqn:E; try done.
  intros Heq%Qeq_bool_iff. destruct (round64_on_grid _ _ E) as [k Hk].
  exists k. by rewrite <- Heq.
Qed.

(** Scaled to its last place, a value on the grid is at least 1 in
    magnitude: nothing but 0 rounds to 0. *)
Lemma scaled_at_least_1 (q : Q) :
  ~ q == 0 -> F64.on_grid q ->
  1 <= Qabs (q * 2 ^ (- Z.max (F64.ilog2 q - 52) (-1074))).
Proof.
  intros Hq [k Hk]. rewrite Qabs_Qmult, (Qabs_pos (2 ^ _)) by (apply Qlt_le_weak, two_pow_pos).
  destruct (Z.max_spec (F64.ilog2 q - 52) (-1074)) as [[Hlt ->]|[Hle ->]].
  - assert (Hk0 : k <> 0%Z).
    { intros ->. apply Hq. rewrite Hk. ring. }
    assert (Hscaled : Qabs q * 2 ^ (- -1074) == inject_Z (Z.abs k)).
    { rewrite Hk, Qabs_Qmult, (Qabs_pos (2 ^ _)) by (apply Qlt_le_weak, two_pow_pos).
      rewrite <- Qmult_assoc, two_pow_cancel. 
      assert (Qabs (inject_Z k) == inject_Z (Z.abs k)) as -> by reflexivity. ring. }
    rewrite Hscaled. change 1 with (inject_Z 1). rewrite <- Zle_Qle. lia.
  - pose proof (ilog2_le q Hq) as Hlog.
    apply Qle_trans with (2 ^ F64.ilog2 q * 2 ^ (- (F64.ilog2 q - 52))).
    + rewrite <- two_pow_add.
      replace (F64.ilog2 q + - (F64.ilog2 q - 52))%Z with 52%Z by lia. done.
    + apply Qmult_le_compat_r; [done|]. apply Qlt_le_weak, two_pow_pos.
Qed.

Lemma round64_neg (q : Q) :
  F64.on_grid q -> q < 0 -> F64.lt (F64.round64 q) (Num 0) = true.
Proof.
  intros Hg Hq.
  assert (Hq0 : ~ q == 0) by (intros H; rewrite H in Hq; by apply Qlt_irrefl in Hq).
  pose proof (scaled_at_least_1 q Hq0 Hg) as Hbig.
  unfold F64.round64.
  destruct (Qeq_bool q 0) eqn:E0; [by apply Qeq_bool_iff in E0|].
  set (e := Z.max (F64.ilog2 q - 52) (-1074)) in *.
  pose proof (two_pow_pos e) as Hp. pose proof (two_pow_pos (- e)) as Hp'.
  assert (Hx : q * 2 ^ (- e) <= -1).
  { rewrite Qabs_neg in Hbig; [lra|].
    apply Qlt_le_weak. rewrite <- (Qmult_0_l (2 ^ (- e))).
    by apply Qmult_lt_compat_r. }
  pose proof (nearest_even_neg _ Hx) as Hm.
  destruct (Qle_bool (2 ^ 1024) _).
  - destruct (Qle_bool 0 q) eqn:E; [|done]. apply Qle_bool_iff in E. lra.
  - simpl. apply Qltb_lt. rewrite Qred_correct.
    apply Qle_lt_trans with (inject_Z (-1) * 2 ^ e).
    + apply Qmult_le_compat_r; [|lra]. by rewrite <- Zle_Qle.
    + change (inject_Z (-1)) with (-1). lra.
Qed.

Lemma round64_pos (q : Q) :
  F64.on_grid q -> 0 < q -> F64.lt (Num 0) (F64.round64 q) = true.
Proof.
  intros Hg Hq.
  assert (Hq0 : ~ q == 0) by (intros H; rewrite H in Hq; by apply Qlt_irrefl in Hq).
  pose proof (scaled_at_least_1 q Hq0 Hg) as Hbig.
  unfold F64.round64.
  destruct (Qeq_bool q 0) eqn:E0; [by apply Qeq_bool_iff in E0|].
  set (e := Z.max (F64.ilog2 q - 52) (-1074)) in *.
  pose proof (two_pow_pos e) as Hp. pose proof (two_pow_pos (- e)) as Hp'.
  assert (Hx : 1 <= q * 2 ^ (- e)).
  { rewrite Qabs_pos in Hbig; [done|].
    apply Qlt_le_weak. rewrite <- (Qmult_0_l (2 ^ (- e))).
    by apply Qmult_lt_compat_r. }
  pose proof (nearest_even_pos _ Hx) as Hm.
  destruct (Qle_bool (2 ^ 1024) _).
  - destruct (Qle_bool 0 q) eqn:E; [done|].
    assert (Qle_bool 0 q = true) by (apply Qle_bool_iff; lra). congruence.
  - simpl. apply Qltb_lt. rewrite Qred_correct.
    apply Qlt_le_trans with (inject_Z 1 * 2 ^ e).
    + change (inject_Z 1) with 1. lra.
    + apply Qmult_le_compat_r; [|lra]. by rewrite <- Zle_Qle.
Qed.

Lemma lt_asym (x y : number) : F64.lt x y = true -> F64.lt y x = false.
Proof.
  destruct x as [a| | |], y as [b| | |]; simpl; try done.
  rewrite Qltb_lt, Qltb_ge. apply Qlt_le_weak.
Qed.

(** The sign of a difference of doubles survives the rounding. *)
Lemma sub_negative (a b : Q) :
  F64.on_grid a -> F64.on_grid b ->
  (F64.lt (F64.sub (Num a) (Num b)) (Num 0) = true <-> a < b).
Proof.
  intros Ha Hb. pose proof (on_grid_add _ _ Ha (on_grid_opp _ Hb)) as Hg.
  change (F64.sub (Num a) (Num b)) with (F64.round64 (a + - b)). split.
  - intros Hneg. apply Qnot_le_lt. intros Hle.
    destruct (Qeq_dec (a + - b) 0) as [H0|H0].
    + unfold F64.round64 in Hneg. by rewrite (proj2 (Qeq_bool_iff _ _) H0) in Hneg.
    + assert (0 < a + - b) as Hpos by (destruct (Qlt_le_dec 0 (a + - b)); [done|]; exfalso; apply H0; lra).
      apply (round64_pos _ Hg), lt_asym in Hpos. congruence.
  - intros Hlt. apply round64_neg; [done|lra].
Qed.


End Binary64.

(** ** The rally schedule in doubles *)

Section Schedule64.
Local Open Scope Q_scope.

Lemma insert64_perm {A} (cmp : A -> A -> number) (x : A) (l : list A) :
  F64.insert_by cmp x l ≡ₚ x :: l.
Proof.
  induction l as [|y l IH]; [done|]. cbn [F64.insert_by].
  destruct (F64.lt (Num 0) (cmp x y)); [|done].
  rewrite IH. apply Permutation_swap.
Qed.

Lemma sort64_perm {A} (cmp : A -> A -> number) (l : list A) :
  F64.sort_by cmp l ≡ₚ l.
Proof.
  induction l as [|x l IH]; [done|]. unfold F64.sort_by in *. cbn [foldr].
  by rewrite insert64_perm, IH.
Qed.

Lemma rallyComputed64_Some (state : RoomState) (now delay : Q) :
  is_Some (F64.rallyComputed state now delay)
  <-> exists r, rally state = Some r /\ has_player (starterId r) (players state) = true.
Proof.
  unfold F64.rallyComputed, has_player. destruct (rally state) as [r|].
  - pose proof (find_first_existsb
      (fun p => String.eqb (id p) (starterId r)) (players state)) as Hiff.
    destruct (find_first _ _) as [s|].
    + split; [|by eexists]. intros _. exists r. split; [done|]. apply Hiff. by eexists.
    + split; [by intros [? ?]|]. intros (r' & [= <-] & Hex).
      apply Hiff in Hex as [? ?]. done.
  - split; [by intros [? ?]|]. by intros (r & ? & _).
Qed.

(** The parts of a result, as the source computes them. *)
Lemma rallyComputed64_inv (state : RoomState) (now delay : Q) (rc : F64.RallyComputed) :
  F64.rallyComputed state now delay = Some rc ->
  exists r,
    rally state = Some r
    /\ F64.starter rc ∈ players state
    /\ id (F64.starter rc) = starterId r
    /\ F64.rc_launchAt rc = launchAt r
    /\ F64.arrivalAt rc = F64.add (Num (launchAt r)) (Num (marchMs (F64.starter rc)))
    /\ F64.rows rc
       = F64.sort_by (fun a b => F64.sub (F64.startAt a) (F64.startAt b))
           (F64.make_row (F64.arrivalAt rc) (launchAt r)
              (F64.mul (F64.mul (Num delay) (Num 60)) (Num 1000)) now
              <$> players state).
Proof.
  unfold F64.rallyComputed. destruct (rally state) as [r|]; [|done].
  destruct (find_first _ _) as [s|] eqn:Hfind; [|done].
  intros [= <-]. simpl. apply find_first_Some in Hfind as [Hin Hid].
  apply String.eqb_eq in Hid.
  exists r. by split_and!.
Qed.

Lemma rows64_of_players (state : RoomState) (now delay : Q)
    (rc : F64.RallyComputed) (r : Rally) :
  F64.rallyComputed state now delay = Some rc ->
  rally state = Some r ->
  forall row, row ∈ F64.rows rc <->
    exists p, p ∈ players state
      /\ row = F64.make_row (F64.arrivalAt rc) (launchAt r)
                 (F64.mul (F64.mul (Num delay) (Num 60)) (Num 1000)) now p.
Proof.
  intros Hrc Hr row.
  destruct (rallyComputed64_inv _ _ _ _ Hrc) as (r' & Hr' & _ & _ & _ & _ & Hrows).
  assert (r' = r) as -> by congruence.
  rewrite Hrows, sort64_perm, list_elem_of_fmap.
  split; intros (p & ? & ?); exists p; done.
Qed.

Lemma exact_players_elem (l : list Player) (p : Player) :
  forallb (fun p => F64.exact_ms (marchMs p)) l = true -> p ∈ l ->
  F64.exact_ms (marchMs p) = true.
Proof.
  intros Hall Hp. rewrite forallb_forall in Hall. apply Hall.
  by apply list_elem_of_In.
Qed.

(** Within the exact range the arrival instant and every [startAt] are
    the exact sum and difference. *)
Lemma arrival_exact (launch march : Q) :
  F64.exact_ms launch = true -> F64.exact_ms march = true ->
  exists a, F64.add (Num launch) (Num march) = Num a
    /\ a == launch + march /\ F64.half_int (2 ^ 51) a.
Proof.
  intros Hl%exact_ms_half Hm%exact_ms_half.
  destruct (add_exact _ _ _ _ Hl Hm) as (a & Ha & Heq & Hh); [lia|].
  exists a. split_and!; [done|done|].
  eapply half_int_weaken; [|done]. lia.
Qed.

Lemma startAt_exact (a launch now : Q) (dur : number) (p : Player) :
  F64.half_int (2 ^ 51) a -> F64.exact_ms (marchMs p) = true ->
  exists s, F64.startAt (F64.make_row (Num a) launch dur now p) = Num s
    /\ s == a - marchMs p /\ F64.half_int (2 ^ 51 + 2 ^ 50) s.
Proof.
  intros Ha Hm%exact_ms_half. simpl.
  destruct (sub_exact _ _ _ _ Ha Hm) as (s & Hs & Heq & Hh); [lia|].
  by exists s.
Qed.

End Schedule64.
(** C1: for a rally whose starter S is among the players, with a launch
    instant and march times that are whole or half milliseconds below
    [2 ^ 49] in magnitude, [rallyComputed] has a result; its rows are
    those of the players, one each; [arrivalAt = launchAt + S.marchMs];
    every row has [startAt = arrivalAt - marchMs], so any two rows land
    at the same instant [startAt + marchMs], which is [arrivalAt]; and
    the row of S has [startAt = launchAt].  The sums are the exact ones:
    in this range the doubles do not round. *)
Theorem C1_landing_alignment
    (state : RoomState) (r : Rally) (now delay : Q) :
  rally state = Some r ->
  has_player (starterId r) (players state) = true ->
  F64.exact_ms (launchAt r) = true ->
  forallb (fun p => F64.exact_ms (marchMs p)) (players state) = true ->
  exists rc arrival,
    F64.rallyComputed state now delay = Some rc
    /\ F64.starter rc ∈ players state
    /\ id (F64.starter rc) = starterId r
    /\ F64.arrivalAt rc = Num arrival
    /\ (arrival == launchAt r + marchMs (F64.starter rc))%Q
    /\ (forall p, p ∈ players state ->
          exists row, row ∈ F64.rows rc /\ F64.row_player row = p)
    /\ (forall row, row ∈ F64.rows rc ->
          F64.row_player row ∈ players state
          /\ exists start,
               F64.startAt row = Num start
               /\ (start == arrival - marchMs (F64.row_player row))%Q
               /\ (start + marchMs (F64.row_player row) == arrival)%Q)
    /\ (forall a b, a ∈ F64.rows rc -> b ∈ F64.rows rc ->
          exists start_a start_b,
            F64.startAt a = Num start_a /\ F64.startAt b = Num start_b
            /\ (start_a + marchMs (F64.row_player a)
                == start_b + marchMs (F64.row_player b))%Q)
    /\ (forall row, row ∈ F64.rows rc -> F64.row_player row = F64.starter rc ->
          exists start, F64.startAt row = Num start /\ (start == launchAt r)%Q)
    /\ (exists row start,
          row ∈ F64.rows rc /\ F64.row_player row = F64.starter rc
          /\ F64.startAt row = Num start /\ (start == launchAt r)%Q).
Proof.
  intros Hr Hhas Hlaunch Hmarch.
  destruct (proj2 (rallyComputed64_Some state now delay)) as [rc Hrc]; [eauto|].
  destruct (rallyComputed64_inv _ _ _ _ Hrc) as (r' & Hr' & Hin & Hid & _ & Harr & _).
  assert (r' = r) as -> by congruence.
  pose proof (rows64_of_players _ _ _ _ _ Hrc Hr) as Hrows.
  destruct (arrival_exact (launchAt r) (marchMs (F64.starter rc)) Hlaunch
              (exact_players_elem _ _ Hmarch Hin)) as (arrival & Ha & Haeq & Hah).
  rewrite Ha in Harr.
  exists rc, arrival.
  assert (Hrow : forall row, row ∈ F64.rows rc ->
            F64.row_player row ∈ players state
            /\ exists start,
                 F64.startAt row = Num start
                 /\ (start == arrival - marchMs (F64.row_player row))%Q
                 /\ (start + marchMs (F64.row_player row) == arrival)%Q).
  { intros row (p & Hp & ->)%Hrows. rewrite Harr. split; [done|].
    destruct (startAt_exact arrival (launchAt r) now
                (F64.mul (F64.mul (Num delay) (Num 60)) (Num 1000)) p Hah
                (exact_players_elem _ _ Hmarch Hp)) as (s & Hs & Hseq & _).
    exists s. split_and!; [done|done|]. cbn [F64.row_player F64.make_row].
    rewrite Hseq. ring. }
  assert (Hst : forall row, row ∈ F64.rows rc -> F64.row_player row = F64.starter rc ->
            exists start, F64.startAt row = Num start /\ (start == launchAt r)%Q).
  { intros row Hrowin Hpl. destruct (Hrow row Hrowin) as (_ & s & Hs & Hseq & _).
    exists s. split; [done|]. rewrite Hseq, Hpl, Haeq. ring. }
  split_and!; try done.
  - intros p Hp. eexists. split; [apply Hrows; eauto|done].
  - intros a b Hain Hbin.
    destruct (Hrow a Hain) as (_ & sa & Hsa & _ & Hla).
    destruct (Hrow b Hbin) as (_ & sb & Hsb & _ & Hlb).
    exists sa, sb. split_and!; [done|done|]. by rewrite Hla, Hlb.
  - assert (Hsrow : F64.make_row (F64.arrivalAt rc) (launchAt r)
                      (F64.mul (F64.mul (Num delay) (Num 60)) (Num 1000)) now
                      (F64.starter rc) ∈ F64.rows rc) by (apply Hrows; eauto).
    destruct (Hst _ Hsrow eq_refl) as (s & Hs & Hseq).
    eexists _, s. by split_and!.
Qed.

(** C3: for a rally whose starter is among the players, the phase
    computed at [now] is JOIN when [now < launchAt] and MARCH when
    [launchAt <= now], whatever the other inputs; so once it is MARCH at
    some instant it is MARCH at every later one. *)
Theorem C3_phase_join_then_march
    (state : RoomState) (r : Rally) (delay : Q) :
  rally state = Some r ->
  has_player (starterId r) (players state) = true ->
  (forall now, exists rc,
      rallyComputed state now delay = Some rc
      /\ rc_launchAt rc = launchAt r
      /\ (phase rc = JOIN <-> (now < launchAt r)%Q)
      /\ (phase rc = MARCH <-> (launchAt r <= now)%Q))
  /\ (forall now now' delay' rc rc',
        (now <= now')%Q ->
        rallyComputed state now delay = Some rc ->
        rallyComputed state now' delay' = Some rc' ->
        phase rc = MARCH -> phase rc' = MARCH).
Proof.
  intros Hr Hhas.
  assert (Hphase : forall now d rc,
            rallyComputed state now d = Some rc ->
            rc_launchAt rc = launchAt r
            /\ (phase rc = JOIN <-> (now < launchAt r)%Q)
            /\ (phase rc = MARCH <-> (launchAt r <= now)%Q)).
  { intros now d rc Hrc.
    destruct (rallyComputed_inv _ _ _ _ Hrc)
      as (r' & Hr' & _ & _ & Hl & _ & _ & Hph & _).
    assert (r' = r) as -> by congruence.
    rewrite Hph. split; [done|].
    destruct (Qltb 0 (launchAt r - now)) eqn:E.
    - apply Qltb_lt in E. split; split; try done; intros H; [lra|exfalso; lra].
    - apply Qltb_ge in E. split; split; try done; intros H; [exfalso; lra|lra]. }
  split.
  - intros now.
    destruct (proj2 (rallyComputed_Some state now delay)) as [rc Hrc]; [eauto|].
    exists rc. split; [done|]. by eapply Hphase.
  - intros now now' delay' rc rc' Hle Hrc Hrc' Hm.
    apply Hphase in Hrc as (_ & _ & Hiff). apply Hphase in Hrc' as (_ & _ & Hiff').
    apply Hiff'. apply Hiff in Hm. lra.
Qed.

(** ** Signed arithmetic and display clamping *)

Lemma Math_round_nonpos (x : Q) : (x <= 0)%Q -> (Math_round x <= 0)%Z.
Proof.
  intros Hx. unfold Math_round.
  pose proof (Qfloor_le (x + (1 # 2))) as Hfl.
  assert (Hlt : (inject_Z (Qfloor (x + (1 # 2))) < inject_Z 1)%Q).
  { eapply Qle_lt_trans; [exact Hfl|]. change (inject_Z 1) with 1%Q. lra. }
  rewrite <- Zlt_Qlt in Hlt. lia.
Qed.

Lemma formatMs_clamps (ms : Q) : (ms <= 0)%Q -> formatMs ms = "00:00"%string.
Proof.
  intros Hms. unfold formatMs.
  assert (Hr : (Math_round (ms / 1000) <= 0)%Z).
  { apply Math_round_nonpos. apply Qle_shift_div_r; lra. }
  rewrite Z.max_l by done. reflexivity.
Qed.

Section Signed64.
Local Open Scope Q_scope.

Lemma small_int_Z (q : Q) :
  F64.small_int q = true -> exists z : Z, q == inject_Z z /\ (Z.abs z < 2 ^ 30)%Z.
Proof.
  unfold F64.small_int. intros [Hint Hlt]%andb_true_iff.
  apply Qeq_bool_iff in Hint. apply Qltb_lt in Hlt.
  exists (Qfloor q). split; [by rewrite Hint|].
  rewrite <- Hint in Hlt.
  assert (Qabs (inject_Z (Qfloor q)) == inject_Z (Z.abs (Qfloor q))) as Habs by reflexivity.
  rewrite Habs in Hlt. change (2 ^ 30) with (inject_Z (2 ^ 30)) in Hlt.
  by rewrite <- Zlt_Qlt in Hlt.
Qed.

(** [delay * 60 * 1000] for a whole number of minutes. *)
Lemma duration_exact (delay : Q) :
  F64.small_int delay = true ->
  exists u, F64.mul (F64.mul (Num delay) (Num 60)) (Num 1000) = Num u
    /\ u == delay * 60 * 1000 /\ F64.half_int (2 ^ 47) u.
Proof.
  intros (z & Hz & Hb)%small_int_Z.
  assert (H1 : F64.mul (Num delay) (Num 60) = Num (Qred (delay * 60))).
  { apply (round64_exact _ (z * 60) 0); [lia|lia|].
    rewrite inject_Z_mult, Hz. change (2 ^ (- 0)) with 1. ring. }
  rewrite H1.
  assert (H2 : F64.mul (Num (Qred (delay * 60))) (Num 1000)
               = Num (Qred (Qred (delay * 60) * 1000))).
  { apply (round64_exact _ (z * 60000) 0); [lia|lia|].
    rewrite Qred_correct, inject_Z_mult, Hz. change (2 ^ (- 0)) with 1.
    change (inject_Z 60000) with (60 * 1000). ring. }
  rewrite H2. eexists. split; [done|]. split.
  - by rewrite !Qred_correct.
  - exists (z * 120000)%Z. split; [|lia].
    rewrite !Qred_correct, inject_Z_mult, Hz.
    change (inject_Z 120000) with (60 * 1000 * 2). field.
Qed.

(** A [startAt] that is a number is a double. *)
Lemma startAt_on_grid (arrival dur : number) (launch now : Q) (p : Player) (s : Q) :
  F64.startAt (F64.make_row arrival launch dur now p) = Num s -> F64.on_grid s.
Proof.
  cbn [F64.startAt F64.make_row]. unfold F64.sub.
  destruct arrival as [a| | |]; try done. apply round64_on_grid.
Qed.

(** The sign of [start - t] tells whether [start < t]. *)
Lemma diff_sign (start : number) (t : Q) :
  (forall s, start = Num s -> F64.on_grid s) -> F64.on_grid t ->
  (F64.lt (F64.sub start (Num t)) (Num 0) = true <-> F64.lt start (Num t) = true).
Proof.
  intros Hs Ht. destruct start as [s| | |]; try done.
  rewrite sub_negative by auto. simpl. by rewrite Qltb_lt.
Qed.

(** Every field of a row, within the exact range. *)
Lemma make_row_exact (a launch now u : Q) (p : Player) :
  F64.half_int (2 ^ 51) a -> F64.half_int (2 ^ 47) u ->
  F64.exact_ms launch = true -> F64.exact_ms now = true ->
  F64.exact_ms (marchMs p) = true ->
  let row := F64.make_row (Num a) launch (Num u) now p in
  exists start rallyStart diff diffRally diffLaunch land,
    F64.startAt row = Num start /\ start == a - marchMs p
    /\ F64.rallyStartAt row = Num rallyStart /\ rallyStart == start - u
    /\ F64.diffMs row = Num diff /\ diff == start - now
    /\ F64.diffToRallyStartMs row = Num diffRally /\ diffRally == rallyStart - now
    /\ F64.diffFromLaunchMs row = Num diffLaunch /\ diffLaunch == start - launch
    /\ F64.landInMs row = Num land /\ land == a - now.
Proof.
  intros Ha Hu Hl%exact_ms_half Hn%exact_ms_half Hm%exact_ms_half row. subst row.
  cbn [F64.startAt F64.rallyStartAt F64.diffMs F64.diffToRallyStartMs
       F64.diffFromLaunchMs F64.landInMs F64.make_row].
  destruct (sub_exact _ _ _ _ Ha Hm) as (s & -> & Hs & Hsh); [lia|].
  destruct (sub_exact _ _ _ _ Hsh Hu) as (rs & -> & Hrs & Hrsh); [lia|].
  destruct (sub_exact _ _ _ _ Hsh Hn) as (d & -> & Hd & _); [lia|].
  destruct (sub_exact _ _ _ _ Hrsh Hn) as (drs & -> & Hdrs & _); [lia|].
  destruct (sub_exact _ _ _ _ Hsh Hl) as (dl & -> & Hdl & _); [lia|].
  destruct (sub_exact _ _ _ _ Ha Hn) as (land & -> & Hland & _); [lia|].
  exists s, rs, d, drs, dl, land. by split_and!.
Qed.

End Signed64.

(** C8: in every row the remaining times keep their sign.  Whatever the
    doubles involved, [diffMs = startAt - now] is negative once
    [startAt] is in the past, and the test behind the "(before March)"
    flag, [diffFromLaunchMs < 0], holds exactly when the row's [startAt]
    lies before the launch instant.  Only [formatMs] clamps: it shows a
    non-positive duration as 00:00.  With whole or half milliseconds
    below [2 ^ 49] in magnitude, and a whole number of minutes as rally
    time, every field is the plain difference, exactly: [diffMs = startAt
    - now], [diffToRallyStartMs = rallyStartAt - now], [landInMs =
    arrivalAt - now], [diffFromLaunchMs = startAt - launchAt], and the
    player starts before the launch exactly when the player's march is
    longer than the starter's. *)
Theorem C8_signed_row_arithmetic
    (state : RoomState) (now delay : Q) (rc : F64.RallyComputed) (row : F64.Row) :
  F64.rallyComputed state now delay = Some rc ->
  row ∈ F64.rows rc ->
  F64.is_double now = true ->
  F64.is_double (F64.rc_launchAt rc) = true ->
  (F64.lt (F64.startAt row) (Num now) = true ->
     F64.lt (F64.diffMs row) (Num 0) = true)
  /\ (F64.lt (F64.diffFromLaunchMs row) (Num 0) = true
      <-> F64.lt (F64.startAt row) (Num (F64.rc_launchAt rc)) = true)
  /\ (F64.beforeMarch row = true
      <-> F64.lt (F64.startAt row) (Num (F64.rc_launchAt rc)) = true)
  /\ (forall diff, F64.diffMs row = Num diff -> (diff <= 0)%Q ->
        formatMs diff = "00:00"%string)
  /\ (F64.exact_ms now = true ->
      F64.exact_ms (F64.rc_launchAt rc) = true ->
      forallb (fun p => F64.exact_ms (marchMs p)) (players state) = true ->
      F64.small_int delay = true ->
      exists start rallyStart arrival diff diffRally diffLaunch land,
        F64.startAt row = Num start
        /\ F64.rallyStartAt row = Num rallyStart
        /\ F64.arrivalAt rc = Num arrival
        /\ F64.diffMs row = Num diff /\ (diff == start - now)%Q
        /\ F64.diffToRallyStartMs row = Num diffRally
        /\ (diffRally == rallyStart - now)%Q
        /\ F64.landInMs row = Num land /\ (land == arrival - now)%Q
        /\ F64.diffFromLaunchMs row = Num diffLaunch
        /\ (diffLaunch == start - F64.rc_launchAt rc)%Q
        /\ ((start < F64.rc_launchAt rc)%Q
            <-> (marchMs (F64.starter rc) < marchMs (F64.row_player row))%Q)).
Proof.
  intros Hrc Hrow Hnow%is_double_on_grid Hlaunch%is_double_on_grid.
  destruct (rallyComputed64_inv _ _ _ _ Hrc) as (r & Hr & Hin & _ & Hl & Harr & _).
  destruct (proj1 (rows64_of_players _ _ _ _ _ Hrc Hr row) Hrow) as (p & Hp & Heq).
  rewrite Hl in *.
  assert (Hgrid : forall s, F64.startAt row = Num s -> F64.on_grid s).
  { subst row. intros s. apply startAt_on_grid. }
  assert (Hd : F64.diffMs row = F64.sub (F64.startAt row) (Num now)) by (by subst row).
  assert (Hdl : F64.diffFromLaunchMs row = F64.sub (F64.startAt row) (Num (launchAt r)))
    by (by subst row).
  split_and!.
  - intros Hpast. rewrite Hd. by apply diff_sign.
  - rewrite Hdl. by apply diff_sign.
  - unfold F64.beforeMarch. rewrite Hdl. by apply diff_sign.
  - intros diff _ Hle. by apply formatMs_clamps.
  - intros Hn Hla Hms Hdelay.
    destruct (duration_exact delay Hdelay) as (u & Hu & _ & Huh).
    destruct (arrival_exact (launchAt r) (marchMs (F64.starter rc)) Hla
                (exact_players_elem _ _ Hms Hin)) as (a & Ha & Haeq & Hah).
    rewrite Ha in Harr. rewrite Harr, Hu in Heq.
    destruct (make_row_exact a (launchAt r) now u p Hah Huh Hla Hn
                (exact_players_elem _ _ Hms Hp))
      as (s & rs & d & drs & dl & land & Hs & Hseq & Hrs & _ & Hdm & Hdeq
          & Hdrs & Hdrseq & Hdlm & Hdleq & Hland & Hlandeq).
    rewrite <- Heq in *.
    exists s, rs, a, d, drs, dl, land. split_and!; try done.
    subst row. cbn [F64.row_player F64.make_row]. rewrite Hseq, Haeq.
    split; intros H; lra.
Qed.

(** ** The room object: symbolic execution of the handlers *)

Ltac run_handler :=
  cbv [step exec handleMessage handle call ensureLoaded reset_to_default
       computeLaunchAt to_Number or_zero
       this_data get modify exit Date_now
       set_lastActiveAt set_rally set_players persist broadcast send accept
       read_array write_array new_array mbind M_bind mret M_ret
       with_data with_heap with_storage with_sockets with_ticks with_outbox
       data heap storage sockets clock ticks outbox
       to_json array_at obj_players obj_rally obj_lastActiveAt];
  cbn [snd fst].

Lemma has_player_iff (who : string) (l : list Player) :
  has_player who l = true <-> exists p, p ∈ l /\ id p = who.
Proof.
  unfold has_player. rewrite existsb_exists.
  split; intros (p & Hin & Heq); exists p;
    (split; [by apply list_elem_of_In|by apply String.eqb_eq]).
Qed.

Lemma has_player_upsert (who : string) (p : Player) (l : list Player) :
  has_player who l = true -> has_player who (upsert p l) = true.
Proof.
  rewrite !has_player_iff. intros (x & Hin & Heq). unfold upsert.
  destruct (list_find _ l) as [[idx q]|] eqn:Hfind.
  - apply list_find_Some in Hfind as (Hidx & Hq & _).
    apply list_elem_of_lookup in Hin as [i Hi].
    destruct (decide (i = idx)) as [->|Hne].
    + exists p. split; [|congruence].
      apply list_elem_of_insert. by eapply lookup_lt_Some.
    + exists x. split; [|done]. apply list_elem_of_lookup. exists i.
      by rewrite list_lookup_insert_ne.
  - exists x. split; [|done]. apply elem_of_app. by left.
Qed.

Lemma has_player_filter (who removed : string) (l : list Player) :
  who <> removed ->
  has_player who l = true ->
  has_player who (filter (fun q => id q ≠ removed) l) = true.
Proof.
  intros Hne. rewrite !has_player_iff. intros (x & Hin & Heq).
  exists x. split; [|done]. apply list_elem_of_filter. split; [congruence|done].
Qed.

Lemma has_player_removed (removed : string) (l : list Player) :
  has_player removed (filter (fun q => id q ≠ removed) l) = false.
Proof.
  destruct (has_player _ _) eqn:E; [|done].
  apply has_player_iff in E as (x & Hin & Heq).
  apply list_elem_of_filter in Hin as [Hne _]. done.
Qed.

Section Execution.
Variables (h : gmap loc (list Player)) (pl : loc) (ra : option Rally) (la : Q).
Variables (st : option RoomState) (so : list socket).
Variables (ck : nat -> Q) (tk : nat) (ob : list (socket * ServerMsg)).
Variable ws : socket.

(** A room whose state is in memory. *)
Let loaded : World :=
  mkWorld h (Some (mkRoomObject pl ra la)) st so ck tk ob.

Let arr : list Player := default [] (h !! pl).

Let everyone (s : RoomState) : list (socket * ServerMsg) :=
  (fun client => (client, STATE s)) <$> so.

Lemma step_unparsable :
  exec (handleMessage ws None) loaded
  = mkWorld h (Some (mkRoomObject pl ra (ck tk))) st so ck (S tk) ob.
Proof. reflexivity. Qed.

Lemma step_STATE_REQUEST :
  step ws STATE_REQUEST loaded
  = mkWorld h (Some (mkRoomObject pl ra (ck tk))) st so ck (S tk)
      (ob ++ [(ws, STATE (mkRoomState arr ra (Some (ck tk))))]).
Proof. reflexivity. Qed.

Lemma step_PLAYER_ADD (p : Player) :
  id p <> ""%string ->
  let s' := mkRoomState (upsert p arr) ra (Some (ck tk)) in
  step ws (PLAYER_ADD (Some p)) loaded
  = mkWorld (<[pl := upsert p arr]> h) (Some (mkRoomObject pl ra (ck tk)))
      (Some s') so ck (S tk) (ob ++ everyone s').
Proof.
  intros Hid s'. apply String.eqb_neq in Hid. subst s' loaded everyone arr.
  run_handler. rewrite Hid. run_handler. by rewrite lookup_insert_eq.
Qed.

Lemma step_PLAYER_REMOVE (removed : string) :
  removed <> ""%string ->
  let ra' := match ra with
             | Some r => if String.eqb (starterId r) removed then None else Some r
             | None => None
             end in
  let arr' := filter (fun q => id q ≠ removed) arr in
  let s' := mkRoomState arr' ra' (Some (ck tk)) in
  step ws (PLAYER_REMOVE (Some removed)) loaded
  = mkWorld (<[fresh (dom h) := arr']> h)
      (Some (mkRoomObject (fresh (dom h)) ra' (ck tk)))
      (Some s') so ck (S tk) (ob ++ everyone s').
Proof.
  intros Hid ra' arr' s'. apply String.eqb_neq in Hid.
  subst s' arr' ra' loaded everyone arr.
  run_handler. rewrite Hid. run_handler.
  destruct ra as [r|]; [destruct (String.eqb (starterId r) removed)|];
    run_handler; by rewrite lookup_insert_eq.
Qed.

Lemma step_RALLY_END :
  let s' := mkRoomState arr None (Some (ck tk)) in
  step ws RALLY_END loaded
  = mkWorld h (Some (mkRoomObject pl None (ck tk))) (Some s') so ck (S tk)
      (ob ++ everyone s').
Proof. reflexivity. Qed.

(** A RALLY_START that names a starter and carries a finite [launchAt]. *)
Lemma step_RALLY_START_given (p : RallyStartPayload) (given : Q) :
  rs_starterId p <> ""%string ->
  rs_launchAt p = Some (Num given) ->
  let r' := Some (mkRally (rs_starterId p) given) in
  let s' := mkRoomState arr r' (Some (ck tk)) in
  step ws (RALLY_START (Some p)) loaded
  = mkWorld h (Some (mkRoomObject pl r' (ck tk))) (Some s') so ck (S tk)
      (ob ++ everyone s').
Proof.
  intros Hid Hgiven r' s'. apply String.eqb_neq in Hid.
  subst s' r' loaded everyone arr.
  run_handler. rewrite Hid, Hgiven. reflexivity.
Qed.

(** A RALLY_START that names a starter, carries no finite [launchAt],
    and whose two durations are finite and not negative. *)
Lemma step_RALLY_START_computed (p : RallyStartPayload) (durationMs delayMs : Q) :
  rs_starterId p <> ""%string ->
  (forall given, rs_launchAt p <> Some (Num given)) ->
  to_Number (rs_rallyDurationMs p) = Num durationMs ->
  to_Number (or_zero (rs_preDelayMs p)) = Num delayMs ->
  (0 <= durationMs)%Q ->
  (0 <= delayMs)%Q ->
  let r' := Some (mkRally (rs_starterId p) (ck (S tk) + delayMs + durationMs)) in
  let s' := mkRoomState arr r' (Some (ck tk)) in
  step ws (RALLY_START (Some p)) loaded
  = mkWorld h (Some (mkRoomObject pl r' (ck tk))) (Some s') so ck (S (S tk))
      (ob ++ everyone s').
Proof.
  intros Hid Hnone Hdur Hdel Hdur0 Hdel0 r' s'. apply String.eqb_neq in Hid.
  apply Qltb_ge in Hdur0, Hdel0.
  subst s' r' loaded everyone arr.
  cbv [step exec handleMessage handle call ensureLoaded this_data get exit
       Date_now set_lastActiveAt modify mbind M_bind mret M_ret
       with_data with_ticks data heap storage sockets clock ticks outbox
       obj_players obj_rally obj_lastActiveAt]; cbn [snd fst].
  rewrite Hid. unfold computeLaunchAt. cbv [mbind M_bind].
  destruct (rs_launchAt p) as [[g| | |]|]; [by destruct (Hnone g)|..];
    rewrite Hdur, Hdur0, Hdel, Hdel0; reflexivity.
Qed.

(** Whatever a RALLY_START carries, the players stay and the rally is
    either left as it was or replaced by one for the starter named. *)
Lemma step_RALLY_START_shape (p : option RallyStartPayload) :
  let w' := step ws (RALLY_START p) loaded in
  heap w' = h
  /\ exists ra',
      data w' = Some (mkRoomObject pl ra' (ck tk))
      /\ (ra' = ra
          \/ exists q launch,
              p = Some q /\ rs_starterId q <> ""%string
              /\ ra' = Some (mkRally (rs_starterId q) launch)).
Proof.
  intros w'. subst w' loaded.
  destruct p as [[sid given dur del]|]; run_handler;
    cbn [rs_starterId rs_launchAt rs_rallyDurationMs rs_preDelayMs];
    [|split; [done|]; eexists; split; [done|by left]].
  destruct (String.eqb sid "") eqn:Hid; run_handler;
    [split; [done|]; eexists; split; [done|by left]|].
  apply String.eqb_neq in Hid.
  destruct given as [[g| | |]|], dur as [[d| | |]|], del as [[e| | |]|];
    run_handler;
    repeat match goal with
           | |- context [Qltb ?x ?y] => destruct (Qltb x y); run_handler
           end;
    (split; [done|]; eexists; split; [done|]);
    first [by left | right; do 2 eexists; simpl; done].
Qed.

Lemma step_TIME_SYNC_REQUEST_shape (r : option number) :
  let w' := step ws (TIME_SYNC_REQUEST r) loaded in
  heap w' = h /\ data w' = Some (mkRoomObject pl ra (ck tk)).
Proof. subst loaded. by destruct r as [[]|]. Qed.

Lemma step_PLAYER_ADD_dropped (p : option Player) :
  from_option (fun q => String.eqb (id q) "") true p = true ->
  step ws (PLAYER_ADD p) loaded
  = mkWorld h (Some (mkRoomObject pl ra (ck tk))) st so ck (S tk) ob.
Proof.
  subst loaded. destruct p as [q|]; simpl; [|done].
  intros Hid. run_handler. by rewrite Hid.
Qed.

Lemma step_PLAYER_REMOVE_dropped (removed : option string) :
  from_option (fun q => String.eqb q "") true removed = true ->
  step ws (PLAYER_REMOVE removed) loaded
  = mkWorld h (Some (mkRoomObject pl ra (ck tk))) st so ck (S tk) ob.
Proof.
  subst loaded. destruct removed as [q|]; simpl; [|done].
  intros Hid. run_handler. by rewrite Hid.
Qed.

(** The first message to a room that has nothing in memory and nothing
    stored is handled from the default state. *)
Lemma step_first_message (msg : ClientMsg) :
  step ws msg (mkWorld h None None so ck tk ob)
  = step ws msg
      (mkWorld h (Some (mkRoomObject DEFAULT_PLAYERS None (ck tk)))
         (Some (mkRoomState (default [] (h !! DEFAULT_PLAYERS)) None (Some (ck tk))))
         so ck (S tk) ob).
Proof. reflexivity. Qed.

End Execution.

(** ** Connecting and loading *)

Lemma accept_loaded h d st so ck tk ob ws :
  exec (accept ws) (mkWorld h (Some d) st so ck tk ob)
  = mkWorld h (Some d) st (so ++ [ws]) ck tk
      (ob ++ [(ws, STATE (to_json (mkWorld h (Some d) st so ck tk ob) d))]).
Proof. by destruct d. Qed.

Lemma accept_first h so ck tk ob ws :
  exec (accept ws) (mkWorld h None None so ck tk ob)
  = exec (accept ws)
      (mkWorld h (Some (mkRoomObject DEFAULT_PLAYERS None (ck tk)))
         (Some (mkRoomState (default [] (h !! DEFAULT_PLAYERS)) None (Some (ck tk))))
         so ck (S tk) ob).
Proof. reflexivity. Qed.

(** What [ensureLoaded] leaves in memory for a room that has nothing
    there yet: the default state, whose players are whatever the shared
    default array holds at that time, when nothing is stored or the
    stored state is expired; the stored state otherwise. *)
Lemma ensureLoaded_state (w : World) :
  data w = None ->
  let now := clock w (ticks w) in
  current_state (exec ensureLoaded w)
  = match storage w with
    | Some stored =>
        if expired now stored
        then Some (mkRoomState (array_at w DEFAULT_PLAYERS) None (Some now))
        else Some stored
    | None => Some (mkRoomState (array_at w DEFAULT_PLAYERS) None (Some now))
    end.
Proof.
  destruct w as [h d st so ck tk ob]. simpl. intros ->.
  destruct st as [[ps ra [t|]]|]; try reflexivity.
  unfold expired. simpl. unfold current_state. run_handler. cbn [lastActiveAt].
  destruct (Qeq_bool t 0 || Qltb MAX_AGE_MS (ck tk - t)); run_handler; [done|].
  cbn [players rally]. by rewrite lookup_insert_eq.
Qed.

(** As long as nobody has pushed into the shared default array, a reset
    gives the empty state. *)
Lemma ensureLoaded_pristine (w : World) (stored : RoomState) :
  data w = None ->
  storage w = Some stored ->
  array_at w DEFAULT_PLAYERS = [] ->
  let now := clock w (ticks w) in
  current_state (exec ensureLoaded w)
  = if expired now stored then Some (mkRoomState [] None (Some now)) else Some stored.
Proof.
  intros Hd Hs Hdef now. rewrite ensureLoaded_state by done.
  by rewrite Hs, Hdef.
Qed.

(** ** Dangling starters *)

Lemma settled_not_dangling (w : World) : settled w -> dangling_world w = false.
Proof.
  unfold dangling_world, current_state.
  intros [[-> _]|(d & -> & Hd)]; done.
Qed.

Lemma dangling_json h pl ra la st so ck tk ob :
  dangling (to_json (mkWorld h (Some (mkRoomObject pl ra la)) st so ck tk ob)
              (mkRoomObject pl ra la))
  = match ra with
    | Some r => negb (has_player (starterId r) (default [] (h !! pl)))
    | None => false
    end.
Proof. reflexivity. Qed.

Lemma handle_settled h pl ra la st so ck tk ob ws raw :
  let w := mkWorld h (Some (mkRoomObject pl ra la)) st so ck tk ob in
  dangling (to_json w (mkRoomObject pl ra la)) = false ->
  starts_known_player w (Message ws raw) ->
  settled (exec (handleMessage ws raw) w).
Proof.
  intros w Hd Hknown. subst w. rewrite dangling_json in Hd. right.
  destruct raw as [msg|];
    [|rewrite step_unparsable; eexists; split; [done|by rewrite dangling_json]].
  change (exec (handleMessage ws (Some msg)) ?w) with (step ws msg w).
  destruct msg as [|p|removed|p| |r].
  - rewrite step_STATE_REQUEST. eexists. split; [done|]. by rewrite dangling_json.
  - destruct (from_option (fun q => String.eqb (id q) "") true p) eqn:Hid.
    + rewrite step_PLAYER_ADD_dropped by done.
      eexists. split; [done|]. by rewrite dangling_json.
    + destruct p as [p|]; [|done]. simpl in Hid. apply String.eqb_neq in Hid.
      rewrite step_PLAYER_ADD by done.
      eexists. split; [done|]. rewrite dangling_json, lookup_insert_eq. simpl.
      destruct ra as [r|]; [|done].
      apply negb_false_iff in Hd. apply negb_false_iff. by apply has_player_upsert.
  - destruct (from_option (fun q => String.eqb q "") true removed) eqn:Hid.
    + rewrite step_PLAYER_REMOVE_dropped by done.
      eexists. split; [done|]. by rewrite dangling_json.
    + destruct removed as [removed|]; [|done]. simpl in Hid.
      apply String.eqb_neq in Hid. rewrite step_PLAYER_REMOVE by done.
      eexists. split; [done|]. rewrite dangling_json, lookup_insert_eq. simpl.
      destruct ra as [r|]; [|done].
      destruct (String.eqb (starterId r) removed) eqn:Hst; [done|].
      apply String.eqb_neq in Hst.
      apply negb_false_iff in Hd. apply negb_false_iff. by apply has_player_filter.
  - destruct (step_RALLY_START_shape h pl ra la st so ck tk ob ws p)
      as (Hheap & ra' & Hdata & Hra).
    exists (mkRoomObject pl ra' (ck tk)). split; [done|].
    unfold dangling, to_json, array_at. rewrite Hheap. simpl.
    destruct Hra as [->|(q & launch & -> & _ & ->)]; [done|].
    cbv [starts_known_player current_state to_json array_at data heap
         obj_players players] in Hknown.
    cbn [starterId]. by rewrite Hknown.
  - rewrite step_RALLY_END. eexists. split; [done|]. by rewrite dangling_json.
  - destruct (step_TIME_SYNC_REQUEST_shape h pl ra la st so ck tk ob ws r)
      as (Hheap & Hdata).
    eexists. split; [done|].
    unfold dangling, to_json, array_at. rewrite Hheap. done.
Qed.

Lemma deliver_settled (w : World) (e : Event) :
  settled w -> starts_known_player w e -> settled (deliver e w).
Proof.
  destruct w as [h [[pl ra la]|] st so ck tk ob]; intros Hs Hknown.
  - destruct Hs as [[? _]|(d & [= <-] & Hd)]; [done|].
    destruct e as [ws|ws raw]; simpl.
    + rewrite accept_loaded. right. eexists. split; [done|]. exact Hd.
    + by apply handle_settled.
  - destruct Hs as [[_ Hst]|(d & ? & _)]; [|done]. simpl in Hst. subst st.
    destruct e as [ws|ws raw]; simpl.
    + rewrite accept_first, accept_loaded. right. eexists. split; done.
    + destruct raw as [msg|].
      * change (exec (handleMessage ws (Some msg)) ?w) with (step ws msg w).
        rewrite step_first_message.
        apply handle_settled; [done|].
        destruct msg as [| | |[p|]| |]; done.
      * right. eexists. split; reflexivity.
Qed.

Lemma reachable_settled (clk : nat -> Q) (w : World) :
  reachable clk w -> settled w.
Proof.
  induction 1 as [|w e _ IH Hknown].
  - by left.
  - by apply deliver_settled.
Qed.

(** C7, as the code has it: in a run from a fresh room in which every
    RALLY_START names a player of the state the room has in memory when
    the message is handled, no state has a rally whose starter is
    missing from the players, and no further event of that kind brings
    one about.  Nothing in the code makes a RALLY_START name such a
    player: the server does not check the starter, and the client's
    [canStartRally] looks at the client's own replica. *)
Theorem C7_no_dangling_rally_when_starters_are_players
    (clk : nat -> Q) (w : World) :
  reachable clk w ->
  dangling_world w = false
  /\ (forall e, starts_known_player w e -> dangling_world (deliver e w) = false).
Proof.
  intros Hreach. split.
  - by apply settled_not_dangling, reachable_settled with clk.
  - intros e Hknown.
    apply settled_not_dangling, deliver_settled; [|done].
    by apply reachable_settled with clk.
Qed.

Lemma C7_witness :
  reachable demo_clock demo_room /\ dangling_world demo_room = false.
Proof.
  assert (Hreach : reachable demo_clock demo_room).
  { unfold demo_room.
    apply reachable_deliver; [apply reachable_deliver; [apply reachable_fresh|exact I]|].
    vm_compute. reflexivity. }
  split; [exact Hreach|].
  exact (proj1 (C7_no_dangling_rally_when_starters_are_players _ _ Hreach)).
Defined.

(** The spec's "never for more than one state transition" does not hold
    of the server: it accepts a RALLY_START for a player that was never
    added, and the rally it creates is still dangling after each of the
    next two transitions. *)
Lemma C7_ghost_starter_stays_dangling :
  let w1 := deliver (Message 0%nat (Some ghost_start)) (fresh_world demo_clock) in
  let w2 := deliver (Message 0%nat (Some (PLAYER_ADD (Some alice)))) w1 in
  let w3 := deliver (Message 0%nat (Some (PLAYER_ADD (Some bob)))) w2 in
  dangling_world w1 = true /\ dangling_world w2 = true /\ dangling_world w3 = true.
Proof. vm_compute. done. Qed.

(** The client's check does not stand in for one on the server: a
    client that has not yet handled the STATE of a removal still passes
    [canStartRally] for the removed player, the server accepts its
    RALLY_START, and the rally stays dangling. *)
Lemma stale_view_start_leaves_rally_dangling :
  let w1 := run [Connect 7%nat; Connect 8%nat;
                 Message 7%nat (Some (PLAYER_ADD (Some alice)))]
              (fresh_world demo_clock) in
  let view := replica 8%nat (outbox w1) in
  let w2 := deliver (Message 7%nat (Some (PLAYER_REMOVE (Some "a"%string)))) w1 in
  canStartRally true view "a" = true
  /\ exists msg,
       sendRallyStart true view "a" 5 10 = Some msg
       /\ dangling_world (deliver (Message 8%nat (Some msg)) w2) = true
       /\ dangling_world
            (deliver (Message 7%nat (Some (PLAYER_ADD (Some bob))))
               (deliver (Message 8%nat (Some msg)) w2)) = true.
Proof.
  split; [vm_compute; reflexivity|].
  eexists. split; [vm_compute; reflexivity|]. split; vm_compute; reflexivity.
Qed.

(** ** Launch instant of a rally *)

(** The sum [Date.now() + delayMs + durationMs], within the exact range. *)
Lemma launch_sum_exact (receive delayMs durationMs : Q) :
  F64.exact_ms receive = true ->
  F64.exact_ms delayMs = true ->
  F64.exact_ms durationMs = true ->
  exists launch,
    F64.add (F64.add (Num receive) (Num delayMs)) (Num durationMs) = Num launch
    /\ (launch == receive + delayMs + durationMs)%Q.
Proof.
  intros Hck%exact_ms_half Hde%exact_ms_half Hdu%exact_ms_half.
  destruct (add_exact _ _ _ _ Hck Hde) as (a & -> & Ha & Hah); [lia|].
  destruct (add_exact _ _ _ _ Hah Hdu) as (launch & -> & Hl & _); [lia|].
  exists launch. split; [done|]. by rewrite Hl, Ha.
Qed.

(** C5, as the code has it: for a RALLY_START of the declared type
    (its numeric fields are numbers or absent) that names a starter, a
    finite [launchAt] carried by the message becomes the rally's launch
    instant as it is.  When the message carries none, and its
    [rallyDurationMs] and [preDelayMs] (0 when absent) are finite and not
    negative, and they and the server's clock reading are whole or half
    milliseconds below [2 ^ 49], the launch instant is that clock
    reading plus [preDelayMs] plus [rallyDurationMs]: in this range the
    double-precision sum the code forms is the exact one.  In both cases
    the new state is stored and sent to every connected client. *)
Theorem C5_launchAt_server_clock_unless_given
    (w : World) (s : RoomState) (ws : socket) (p : RallyStartPayload) :
  current_state w = Some s ->
  rs_starterId p <> ""%string ->
  let w' := step ws (RALLY_START (Some p)) w in
  let receive := clock w (S (ticks w)) in
  let announced (launch : Q) :=
    let s' := mkRoomState (players s)
                (Some (mkRally (rs_starterId p) launch))
                (Some (clock w (ticks w))) in
    current_state w' = Some s'
    /\ storage w' = Some s'
    /\ outbox w' = outbox w ++ ((fun client => (client, STATE s')) <$> sockets w) in
  (forall given, rs_launchAt p = Some (Num given) -> announced given)
  /\ (forall durationMs delayMs,
        (forall given, rs_launchAt p <> Some (Num given)) ->
        to_Number (rs_rallyDurationMs p) = Num durationMs ->
        to_Number (or_zero (rs_preDelayMs p)) = Num delayMs ->
        (0 <= durationMs)%Q ->
        (0 <= delayMs)%Q ->
        F64.exact_ms receive = true ->
        F64.exact_ms delayMs = true ->
        F64.exact_ms durationMs = true ->
        announced (receive + delayMs + durationMs)%Q
        /\ exists launch,
             F64.add (F64.add (Num receive) (Num delayMs)) (Num durationMs) = Num launch
             /\ (launch == receive + delayMs + durationMs)%Q).
Proof.
  destruct w as [h [[pl ra la]|] st so ck tk ob]; [|done].
  intros [= <-] Hid. simpl. split.
  - intros given Hgiven. by rewrite (step_RALLY_START_given _ _ _ _ _ _ _ _ _ _ p given).
  - intros durationMs delayMs Hnone Hdur Hdel Hdur0 Hdel0 Hck Hde Hdu. split.
    + by rewrite (step_RALLY_START_computed _ _ _ _ _ _ _ _ _ _ p durationMs delayMs).
    + by apply launch_sum_exact.
Qed.

Lemma C5_witness :
  (players <$> current_state demo_room) = Some [alice]
  /\ rs_starterId plain_start <> ""%string
  /\ (rally <$> current_state (step 0%nat (RALLY_START (Some plain_start)) demo_room))
     = Some (Some (mkRally "a" (demo_clock 5 + 10000 + 300000)%Q))
  /\ F64.add (F64.add (Num (demo_clock 5)) (Num 10000)) (Num 300000)
     = Num (inject_Z (100000005 + 10000 + 300000)).
Proof.
  split; [by vm_compute|]. split; [done|].
  destruct (C5_launchAt_server_clock_unless_given demo_room demo_room_state
              0%nat plain_start) as [_ Hcomputed]; [by vm_compute|done|].
  destruct (Hcomputed 300000%Q 10000%Q ltac:(done) eq_refl eq_refl ltac:(done) ltac:(done)
              ltac:(vm_compute; reflexivity) ltac:(vm_compute; reflexivity)
              ltac:(vm_compute; reflexivity))
    as ((-> & _) & _).
  split; vm_compute; reflexivity.
Defined.

(** Beyond the exact range the sum the code forms is a rounded one: a
    duration of [2 ^ 53] ms added to the reading 100000005 gives
    9007199354740996, one less than the exact sum; and a duration near
    the largest double takes the sum to infinity. *)
Example launch_sum_rounds_beyond_the_exact_range :
  F64.add (F64.add (Num 100000005) (Num 0)) (Num (inject_Z (2 ^ 53)))
  = Num 9007199354740996
  /\ F64.add (F64.add (Num 100000005) (Num (inject_Z (10 ^ 308))))
       (Num (inject_Z (10 ^ 308))) = Infinity.
Proof. split; vm_compute; reflexivity. Qed.

(** A RALLY_START that carries a finite [launchAt] next to its durations
    gets that instant as the rally's launch instant, which is no clock
    reading plus the durations. *)
Lemma C5_client_launchAt_is_used :
  let before := deliver (Message 0%nat (Some (PLAYER_ADD (Some alice))))
                  (fresh_world demo_clock) in
  let after := step 0%nat (RALLY_START (Some dated_start)) before in
  (rally <$> current_state after) = Some (Some (mkRally "a" 42))
  /\ forall reading : nat, ~ (42 == demo_clock reading + 10000 + 300000)%Q.
Proof.
  split; [by vm_compute|].
  intros reading. unfold demo_clock, Qeq. simpl. lia.
Qed.

(** ** Removal of the starter *)

(** C6: on the server, removing the player a rally names as its starter
    leaves a state without rally and without that player, which is
    stored and sent to every connected client; on the client, a state
    whose rally names a starter that is not among the players computes
    to the same result as that state without rally: none. *)
Theorem C6_starter_gone_means_no_rally :
  (forall (w : World) (s : RoomState) (r : Rally) (ws : socket),
      current_state w = Some s ->
      rally s = Some r ->
      starterId r <> ""%string ->
      let w' := step ws (PLAYER_REMOVE (Some (starterId r))) w in
      exists s',
        current_state w' = Some s'
        /\ rally s' = None
        /\ players s' = filter (fun q => id q ≠ starterId r) (players s)
        /\ has_player (starterId r) (players s') = false
        /\ storage w' = Some s'
        /\ outbox w' = outbox w ++ ((fun client => (client, STATE s')) <$> sockets w))
  /\ (forall (state : RoomState) (r : Rally) (now delay : Q),
        rally state = Some r ->
        has_player (starterId r) (players state) = false ->
        rallyComputed state now delay = None
        /\ rallyComputed state now delay
           = rallyComputed (mkRoomState (players state) None (lastActiveAt state))
               now delay).
Proof.
  split.
  - intros [h [[pl ra la]|] st so ck tk ob] s r ws; [|done].
    intros [= <-]. simpl. intros -> Hid.
    rewrite step_PLAYER_REMOVE by done. rewrite String.eqb_refl.
    exists (mkRoomState (filter (fun q => id q ≠ starterId r) (default [] (h !! pl)))
              None (Some (ck tk))).
    split_and!; try reflexivity; [|apply has_player_removed].
    unfold current_state, to_json, array_at. simpl. by rewrite lookup_insert_eq.
  - intros state r now delay Hr Hmissing.
    assert (Hnone : rallyComputed state now delay = None).
    { destruct (rallyComputed state now delay) as [rc|] eqn:Hrc; [|done].
      assert (Hsome : is_Some (rallyComputed state now delay)) by (by eexists).
      apply rallyComputed_Some in Hsome as (r' & Hr' & Hhas). congruence. }
    by rewrite Hnone.
Qed.

Lemma C6_witness :
  (rally <$> current_state demo_room)
  = Some (Some (mkRally "a" (demo_clock 3 + 10000 + 300000)%Q))
  /\ (rally <$> current_state (step 0%nat (PLAYER_REMOVE (Some "a"%string)) demo_room))
     = Some None
  /\ rallyComputed (mkRoomState [bob] (Some (mkRally "a" 5000)) None) 6000 5 = None.
Proof.
  split; [by vm_compute|].
  destruct C6_starter_gone_means_no_rally as [Hserver Hclient].
  split.
  - destruct (Hserver demo_room demo_room_state
                (mkRally "a" (demo_clock 3 + 10000 + 300000)%Q) 0%nat)
      as (s' & Hs' & Hr & _); [by vm_compute|by vm_compute|done|].
    simpl in Hs'. rewrite Hs'. simpl. by rewrite Hr.
  - exact (proj1 (Hclient (mkRoomState [bob] (Some (mkRally "a" 5000)) None)
                    (mkRally "a" 5000) 6000%Q 5%Q eq_refl eq_refl)).
Defined.

(** Every rally the server creates names a starter, so the hypothesis of
    the server half of C6 holds in every run from a fresh room. *)
Lemma deliver_named (w : World) (e : Event) : named w -> named (deliver e w).
Proof.
  assert (Hloaded : forall h pl ra la st so ck tk ob e',
    (forall r, ra = Some r -> starterId r <> ""%string) ->
    named (deliver e' (mkWorld h (Some (mkRoomObject pl ra la)) st so ck tk ob))).
  { intros h pl ra la st so ck tk ob e' Hra. right.
    destruct e' as [ws|ws [msg|]]; unfold deliver.
    - rewrite accept_loaded. eexists. split; [done|]. exact Hra.
    - change (exec (handleMessage ws (Some msg)) ?w0) with (step ws msg w0).
      destruct msg as [|p|removed|p| |t].
      + rewrite step_STATE_REQUEST. eexists. split; [done|]. exact Hra.
      + destruct (from_option (fun q => String.eqb (id q) "") true p) eqn:Hid.
        * rewrite step_PLAYER_ADD_dropped by done. eexists. split; [done|]. exact Hra.
        * destruct p as [p|]; [|done]. simpl in Hid. apply String.eqb_neq in Hid.
          rewrite step_PLAYER_ADD by done. eexists. split; [done|]. exact Hra.
      + destruct (from_option (fun q => String.eqb q "") true removed) eqn:Hid.
        * rewrite step_PLAYER_REMOVE_dropped by done. eexists. split; [done|]. exact Hra.
        * destruct removed as [removed|]; [|done]. simpl in Hid.
          apply String.eqb_neq in Hid. rewrite step_PLAYER_REMOVE by done.
          eexists. split; [done|]. simpl. intros r.
          destruct ra as [r0|]; [|done].
          destruct (String.eqb _ _); [done|]. intros [= <-]. by apply Hra.
      + destruct (step_RALLY_START_shape h pl ra la st so ck tk ob ws p)
          as (_ & ra' & Hdata & Hshape).
        eexists. split; [exact Hdata|]. simpl. intros r ->.
        destruct Hshape as [<-|(q & launch & _ & Hq & [= ->])]; [by apply Hra|done].
      + rewrite step_RALLY_END. eexists. split; [done|]. done.
      + destruct (step_TIME_SYNC_REQUEST_shape h pl ra la st so ck tk ob ws t)
          as (_ & Hdata).
        eexists. split; [exact Hdata|]. exact Hra.
    - rewrite step_unparsable. eexists. split; [done|]. exact Hra. }
  destruct w as [h [[pl ra la]|] st so ck tk ob].
  - intros [[? _]|(d & [= <-] & Hd)]; [done|]. by apply Hloaded.
  - intros [[_ Hst]|(d & ? & _)]; [|done]. simpl in Hst. subst st.
    destruct e as [ws|ws [msg|]].
    + simpl. rewrite accept_first. by apply (Hloaded _ _ _ _ _ _ _ _ _ (Connect ws)).
    + simpl. change (exec (handleMessage ws (Some msg)) ?w0) with (step ws msg w0).
      rewrite step_first_message.
      by apply (Hloaded _ _ _ _ _ _ _ _ _ (Message ws (Some msg))).
    + right. eexists. split; [reflexivity|done].
Qed.

Lemma run_named (clk : nat -> Q) (events : list Event) :
  named (run events (fresh_world clk)).
Proof.
  unfold run. rewrite <- fold_left_rev_right.
  induction (rev events) as [|e l IH]; simpl; [by left|].
  by apply deliver_named.
Qed.

(** ** Room expiry *)

(** C10 at a failing input: a first room of the isolate gets a player
    pushed into the array it shares with [DEFAULT_STATE]; a second room
    whose stored state is expired is then reset, and the state it is
    reset to, and stores, holds the first room's player instead of no
    players. *)
Theorem C10_reset_state_shares_default_array :
  let first := deliver (Message 0%nat (Some (PLAYER_ADD (Some alice))))
                 (fresh_world demo_clock) in
  let second := new_room (Some stale_state) first in
  let now := clock second (ticks second) in
  expired now stale_state = true
  /\ current_state (exec ensureLoaded second)
     = Some (mkRoomState [alice] None (Some now))
  /\ storage (exec ensureLoaded second)
     = Some (mkRoomState [alice] None (Some now)).
Proof. by vm_compute. Qed.

(** ** The spec's scenarios *)

(** Alice (30 s) starts, Bob (50 s) joins, launch at 5000, now 6000. *)
Lemma C1_witness :
  rally demo_state = Some (mkRally "a" 5000)
  /\ has_player "a" (players demo_state) = true
  /\ exists rc,
      F64.rallyComputed demo_state 6000 5 = Some rc
      /\ F64.starter rc = alice
      /\ F64.arrivalAt rc = Num 35000
      /\ (forall a b, a ∈ F64.rows rc -> b ∈ F64.rows rc ->
            exists start_a start_b,
              F64.startAt a = Num start_a /\ F64.startAt b = Num start_b
              /\ (start_a + marchMs (F64.row_player a)
                  == start_b + marchMs (F64.row_player b))%Q)
      /\ (forall row, row ∈ F64.rows rc -> F64.row_player row = alice ->
            exists start, F64.startAt row = Num start /\ (start == 5000)%Q).
Proof.
  split; [reflexivity|]. split; [reflexivity|].
  destruct (C1_landing_alignment demo_state (mkRally "a" 5000) 6000 5
              eq_refl eq_refl eq_refl eq_refl)
    as (rc & arrival & Hrc & _ & _ & Harr & _ & _ & _ & Hland & Hstarter & _).
  exists rc.
  assert (Hs : F64.starter rc = alice /\ F64.arrivalAt rc = Num 35000).
  { vm_compute in Hrc. by injection Hrc as <-. }
  destruct Hs as [Hs Harr']. rewrite Hs in Hstarter.
  split_and!; [exact Hrc|exact Hs|exact Harr'|exact Hland|exact Hstarter].
Defined.

(** A starter whose march time is beyond the exact range: the sum
    [launchAt + marchMs] rounds, and the starter's own row starts one
    millisecond before the launch. *)
Lemma C1_rounded_starter_row_misses_launch :
  let far := mkPlayer "s" "Far" (inject_Z (10 ^ 16)) in
  let state := mkRoomState [far] (Some (mkRally "s" 1700000000001)) None in
  exists rc row,
    F64.rallyComputed state 1700000000000 5 = Some rc
    /\ F64.is_double (marchMs far) = true
    /\ F64.starter rc = far
    /\ row ∈ F64.rows rc
    /\ F64.row_player row = far
    /\ F64.arrivalAt rc = Num (inject_Z (10 ^ 16 + 1700000000000))
    /\ F64.startAt row = Num 1700000000000
    /\ ~ (1700000000000 == launchAt (mkRally "s" 1700000000001))%Q.
Proof.
  intros far state. eexists _, _.
  split; [by vm_compute|].
  split; [by vm_compute|].
  split; [reflexivity|].
  split; [apply elem_of_cons; left; reflexivity|].
  split; [reflexivity|].
  split; [reflexivity|].
  split; [reflexivity|]. by intros H.
Qed.

Lemma C3_witness :
  rally demo_state = Some (mkRally "a" 5000)
  /\ has_player "a" (players demo_state) = true
  /\ (phase <$> rallyComputed demo_state 1000 5) = Some JOIN
  /\ (phase <$> rallyComputed demo_state 6000 5) = Some MARCH.
Proof.
  split; [reflexivity|]. split; [reflexivity|].
  destruct (C3_phase_join_then_march demo_state (mkRally "a" 5000) 5 eq_refl eq_refl)
    as [Hat _].
  split.
  - destruct (Hat 1000%Q) as (rc & -> & _ & Hjoin & _).
    simpl. f_equal. by apply Hjoin.
  - destruct (Hat 6000%Q) as (rc & -> & _ & _ & Hmarch).
    simpl. f_equal. by apply Hmarch.
Defined.

(** Bob's march is longer than the starter's: he starts 20 s before the
    launch, and at 6000 his start lies 21 s in the past. *)
Lemma C8_witness :
  exists rc row,
    F64.rallyComputed demo_state 6000 5 = Some rc
    /\ row ∈ F64.rows rc
    /\ F64.row_player row = bob
    /\ F64.is_double 6000 = true
    /\ F64.is_double (F64.rc_launchAt rc) = true
    /\ F64.lt (F64.startAt row) (Num 6000) = true
    /\ F64.lt (F64.diffMs row) (Num 0) = true
    /\ F64.beforeMarch row = true
    /\ (forall diff, F64.diffMs row = Num diff -> (diff <= 0)%Q ->
          formatMs diff = "00:00"%string)
    /\ F64.diffMs row = Num (-21000)
    /\ F64.diffFromLaunchMs row = Num (-20000).
Proof.
  eexists. eexists.
  assert (Hrc : F64.rallyComputed demo_state 6000 5 = Some ?[rc])
    by (vm_compute; reflexivity).
  split; [exact Hrc|].
  split; [apply elem_of_cons; left; reflexivity|].
  split; [reflexivity|].
  assert (Hnow : F64.is_double 6000 = true) by (vm_compute; reflexivity).
  assert (Hlaunch : F64.is_double 5000 = true) by (vm_compute; reflexivity).
  split; [exact Hnow|]. split; [exact Hlaunch|].
  match goal with
  | |- context [F64.diffMs ?r] =>
      destruct (C8_signed_row_arithmetic demo_state 6000 5 _ r Hrc
                  ltac:(apply elem_of_cons; left; reflexivity) Hnow Hlaunch)
        as (Hpast & _ & Hflag & Hclamp & _)
  end.
  split; [vm_compute; reflexivity|].
  split; [apply Hpast; vm_compute; reflexivity|].
  split; [apply Hflag; vm_compute; reflexivity|].
  split; [exact Hclamp|].
  split; vm_compute; reflexivity.
Defined.

(** * Further properties of the code *)

(** ** Sync bursts and liveness *)

Lemma incorporate_window_from (l : list Sample) (s : Sample) (st : SyncState) :
  syncSamplesRef (incorporate (l ++ [s]) st)
  = slice_last 6 (slice_last 5 (syncSamplesRef st) ++ l ++ [s]).
Proof.
  revert s. induction l as [|x l IH] using rev_ind; intros s.
  - simpl. destruct s as [o r t]. unfold incorporate. simpl.
    rewrite setOffsetSample_window. symmetry. apply slice_last_all.
    rewrite length_app. simpl.
    pose proof (slice_last_length 5 (syncSamplesRef st)). simpl. lia.
  - rewrite incorporate_snoc, setOffsetSample_window, IH.
    destruct s as [o r t]. simpl.
    rewrite (slice_last_snoc 5). by rewrite <- !app_assoc.
Qed.

(** X1: a burst is [SYNC_SAMPLE_COUNT] requests; once all its replies
    are folded in, whatever the window held before, the window is
    exactly the samples of that burst in arrival order, and the
    operative offset is that of their best sample. *)
Theorem burst_replaces_window (burst : list Sample) (st : SyncState) :
  length burst = length runSyncBurst ->
  syncSamplesRef (incorporate burst st) = burst
  /\ exists best,
       best_of burst = Some best
       /\ offsetRef (incorporate burst st) = offsetMs best
       /\ bestRttMs (incorporate burst st) = Some (rttMs best).
Proof.
  intros Hlen. change (length runSyncBurst) with 6 in Hlen.
  destruct (decide (burst = [])) as [->|Hne]; [done|].
  destruct (exists_last Hne) as (l & s & ->).
  assert (Hw : syncSamplesRef (incorporate (l ++ [s]) st) = l ++ [s]).
  { rewrite incorporate_window_from. unfold slice_last.
    rewrite app_assoc, !length_app in *. simpl in *.
    rewrite <- app_assoc.
    rewrite drop_app_ge by lia.
    replace (_ - _) with 0 by lia. done. }
  split; [done|].
  rewrite incorporate_snoc in *.
  destruct (setOffsetSample_best (offsetMs s) (rttMs s) (atTs s) (incorporate l st))
    as (best & Hbest & Ho & _ & Hr).
  exists best. by rewrite <- Hw.
Qed.

Lemma burst_replaces_window_witness :
  let burst := [mkSample 1 80 0; mkSample 2 45 0; mkSample 3 120 0;
                mkSample 4 45 0; mkSample 5 200 0; mkSample 6 60 0] in
  let before := incorporate [mkSample 9 1 0; mkSample 8 2 0] initialSync in
  length burst = length runSyncBurst
  /\ syncSamplesRef (incorporate burst before) = burst.
Proof.
  intros burst before. split; [reflexivity|].
  exact (proj1 (burst_replaces_window burst before eq_refl)).
Defined.

Lemma step_TIME_SYNC_REQUEST h pl ra la st so ck tk ob ws (r0 : Q) :
  step ws (TIME_SYNC_REQUEST (Some (Num r0)))
    (mkWorld h (Some (mkRoomObject pl ra la)) st so ck tk ob)
  = mkWorld h (Some (mkRoomObject pl ra (ck tk))) st so ck (S (S (S tk)))
      (ob ++ [(ws, TIME_SYNC_RESPONSE r0 (ck (S tk)) (ck (S (S tk))))]).
Proof. reflexivity. Qed.

(** X2: one sync exchange, end to end. The client sends its local time
    [t0]; the server, whose clock is [theta] ahead of the client's,
    reads [s1] after an upstream delay [d1] and [s2] for the reply, which
    reaches the client at local time [t3] after a downstream delay [d2].
    The sample the client folds in then has round-trip time [d1 + d2]
    and offset [theta + (d1 - d2) / 2]: within half the round-trip time
    of the true offset, and equal to it when the two delays are equal. *)
Theorem sync_exchange_error_bound
    (w : World) (s : RoomState) (ws : socket) (c : ClientView)
    (t_send t_recv theta d1 d2 : Q) :
  current_state w = Some s ->
  (clock w (S (ticks w)) == t_send + theta + d1)%Q ->
  (t_recv == clock w (S (S (ticks w))) - theta + d2)%Q ->
  (0 <= d1)%Q ->
  (0 <= d2)%Q ->
  exists request reply sample,
    requestTimeSync true t_send = Some request
    /\ outbox (step ws request w) = outbox w ++ [(ws, reply)]
    /\ current_state (step ws request w)
       = Some (mkRoomState (players s) (rally s) (Some (clock w (ticks w))))
    /\ last (syncSamplesRef (view_sync (onMessage t_recv (Some reply) c))) = Some sample
    /\ atTs sample = t_recv
    /\ (rttMs sample == d1 + d2)%Q
    /\ (offsetMs sample == theta + (d1 - d2) / 2)%Q
    /\ (theta - rttMs sample / 2 <= offsetMs sample <= theta + rttMs sample / 2)%Q
    /\ ((d1 == d2)%Q -> (offsetMs sample == theta)%Q).
Proof.
  destruct w as [h [[pl ra la]|] st so ck tk ob]; [|done].
  intros [= <-]. simpl. intros Hs1 Hs3 Hd1 Hd2.
  eexists. eexists. eexists. split; [reflexivity|].
  rewrite step_TIME_SYNC_REQUEST. split; [reflexivity|]. split; [reflexivity|].
  unfold onMessage, sync_payload, handleTimeSyncResponse. simpl.
  rewrite setOffsetSample_window, last_snoc. split; [reflexivity|]. simpl.
  split; [reflexivity|].
  assert (Hrtt : (Qmax 0 (t_recv - t_send - (ck (S (S tk)) - ck (S tk))) == d1 + d2)%Q).
  { destruct (Qmax_zero (t_recv - t_send - (ck (S (S tk)) - ck (S tk)))) as (Hpos & _).
    rewrite Hpos; lra. }
  split; [exact Hrtt|].
  assert (Hoff : ((ck (S tk) - t_send + (ck (S (S tk)) - t_recv)) / 2
                  == theta + (d1 - d2) / 2)%Q).
  { rewrite Hs1, Hs3. field. }
  split; [exact Hoff|]. rewrite Hrtt, Hoff.
  assert (Hhalf : forall x : Q, (x / 2 == x * (1 # 2))%Q) by (intros x; field).
  rewrite !Hhalf.
  split; [split; lra|]. intros Heq. lra.
Qed.

Lemma sync_exchange_error_bound_witness :
  exists sample,
    last (syncSamplesRef (view_sync
      (onMessage 95000040
         (Some (TIME_SYNC_RESPONSE 95000000 (demo_clock 5) (demo_clock 6)))
         initialView))) = Some sample
    /\ (offsetMs sample == 4999985 + (20 - 19) / 2)%Q.
Proof.
  destruct (sync_exchange_error_bound demo_room demo_room_state 0%nat initialView
              95000000 95000040 4999985 20 19)
    as (request & reply & sample & Hreq & Hout & _ & Hlast & _ & _ & Hoff & _);
    [by vm_compute|by vm_compute|by vm_compute|done|done|].
  exists sample.
  injection Hreq as <-. vm_compute in Hout. injection Hout as <-.
  split; [exact Hlast|exact Hoff].
Defined.

(** X3: the liveness label follows the last reply that passed the
    guards, whether or not its sample became the best one: after such a
    reply received at a local time [t3] other than 0, the client is
    "Synced" exactly while less than 60 s have passed since [t3]; a
    reply that is dropped leaves the label as it was; and before any
    reply the client is never "Synced". *)
Theorem synced_within_a_minute_of_last_reply
    (t3 now r0 r1 r2 : Q) (st : SyncState) :
  ~ (t3 == 0)%Q ->
  (isSynced (handleTimeSyncResponse t3 (Some (sync_payload r0 r1 r2)) st) now = true
   <-> (now - t3 < 60000)%Q)
  /\ (forall dropped : SyncPayload,
        Number_isFinite (t0 dropped) && Number_isFinite (t1 dropped)
          && Number_isFinite (t2 dropped) = false ->
        isSynced (handleTimeSyncResponse t3 (Some dropped) st) now = isSynced st now)
  /\ isSynced initialSync now = false.
Proof.
  intros Hnz. split_and!; [|intros dropped Hbad|done].
  - unfold handleTimeSyncResponse, sync_payload, isSynced, setOffsetSample. simpl.
    match goal with |- context [best_of ?l] =>
      destruct (best_of_nonempty l) as [b ->]; [by destruct (slice_last _ _)|]
    end.
    simpl. rewrite andb_true_iff, negb_true_iff, Qltb_lt.
    split; [by intros [_ ?]|]. intros Hlt. split; [|done].
    destruct (Qeq_bool t3 0) eqn:E; [|done]. by apply Qeq_bool_iff in E.
  - unfold handleTimeSyncResponse. simpl. rewrite andb_true_r, andb_assoc.
    by rewrite Hbad.
Qed.

Lemma synced_within_a_minute_of_last_reply_witness :
  isSynced (handleTimeSyncResponse 1000 (Some (sync_payload 0 5 5)) initialSync) 60999 = true
  /\ isSynced (handleTimeSyncResponse 1000 (Some (sync_payload 0 5 5)) initialSync) 61000 = false.
Proof.
  destruct (synced_within_a_minute_of_last_reply 1000 60999 0 5 5 initialSync ltac:(done))
    as (Hiff & _).
  split; [by apply Hiff|reflexivity].
Defined.

(** ** Formatting *)

Lemma Qfloor_unique (q : Q) (k : Z) :
  (inject_Z k <= q)%Q -> (q < inject_Z (k + 1))%Q -> Qfloor q = k.
Proof.
  intros Hle Hlt.
  pose proof (Qfloor_le q) as Hfl. pose proof (Qlt_floor q) as Hfu.
  assert (inject_Z (Qfloor q) < inject_Z (k + 1))%Q as H1
    by (eapply Qle_lt_trans; eauto).
  assert (inject_Z k < inject_Z (Qfloor q + 1))%Q as H2
    by (eapply Qle_lt_trans; eauto).
  rewrite <- Zlt_Qlt in H1, H2. lia.
Qed.

(** X4: [formatMs] shows the nearest whole second (a half rounds up),
    as minutes and seconds, the minutes not wrapping at an hour: any
    duration within half a second of [m] minutes and [s] seconds shows
    as [m]:[s].  The minutes are bounded by [10 ^ 9]: up to there the
    quotients the code forms in double precision round to the same
    whole numbers as the exact ones, and [String] prints them in
    decimal. *)
Theorem formatMs_nearest_second (m s : Z) (delta : Q) :
  (0 <= m < 10 ^ 9)%Z ->
  (0 <= s < 60)%Z ->
  (-500 <= delta)%Q ->
  (delta < 500)%Q ->
  formatMs (inject_Z ((60 * m + s) * 1000) + delta)
  = String.append (pad2 m) (String.append ":" (pad2 s)).
Proof.
  intros [Hm _] Hs Hlo Hhi. unfold formatMs.
  assert (Hround : Math_round ((inject_Z ((60 * m + s) * 1000) + delta) / 1000)
                   = (60 * m + s)%Z).
  { assert (Hdiv : ((inject_Z ((60 * m + s) * 1000) + delta) / 1000
                      == inject_Z (60 * m + s) + delta * (1 # 1000))%Q).
    { rewrite inject_Z_mult. change (inject_Z 1000) with 1000%Q. field. }
    unfold Math_round. apply Qfloor_unique; rewrite Hdiv; clear Hdiv.
    - generalize (inject_Z (60 * m + s)). intros x. lra.
    - generalize (60 * m + s)%Z. intros k.
      rewrite inject_Z_plus. change (inject_Z 1) with 1%Q.
      generalize (inject_Z k). intros x. lra. }
  rewrite Hround. rewrite Z.max_r by lia.
  replace ((60 * m + s) / 60)%Z with m by (apply Z.div_unique with s; lia).
  replace ((60 * m + s) mod 60)%Z with s by (apply Z.mod_unique with m; lia).
  reflexivity.
Qed.

Lemma formatMs_nearest_second_witness :
  formatMs 3899500 = "65:00"%string /\ formatMs 3899499 = "64:59"%string.
Proof.
  split.
  - exact (formatMs_nearest_second 65 0 (-500)
             ltac:(lia) ltac:(done) ltac:(done) ltac:(done)).
  - reflexivity.
Defined.

Lemma Qfloor_plus_Z (a : Z) (frac : Q) :
  Qfloor (inject_Z a + frac) = (a + Qfloor frac)%Z.
Proof.
  apply Qfloor_unique.
  - rewrite inject_Z_plus. pose proof (Qfloor_le frac) as Hle.
    set (y := inject_Z (Qfloor frac)) in *. set (x := inject_Z a).
    clearbody x y. lra.
  - replace (a + Qfloor frac + 1)%Z with (a + (Qfloor frac + 1))%Z by lia.
    rewrite inject_Z_plus. pose proof (Qlt_floor frac) as Hlt.
    set (y := inject_Z (Qfloor frac + 1)) in *. set (x := inject_Z a).
    clearbody x y. lra.
Qed.

Lemma Qfloor_bounds (frac : Q) (n : Z) :
  (0 <= frac)%Q -> (frac < inject_Z n)%Q -> (0 <= Qfloor frac < n)%Z.
Proof.
  intros Hlo Hhi. split.
  - change 0%Z with (Qfloor 0). by apply Qfloor_resp_le.
  - rewrite Zlt_Qlt. eapply Qle_lt_trans; [apply Qfloor_le|done].
Qed.

(** X5: [formatTimeOfDay] shows the UTC hour, minute and second of an
    instant at or after the epoch, dropping the day and whatever is less
    than a second (it does not round, unlike [formatMs]). *)
Theorem formatTimeOfDay_fields (day h m s : Z) (frac : Q) :
  (0 <= day < 100000000)%Z ->
  (0 <= h < 24)%Z ->
  (0 <= m < 60)%Z ->
  (0 <= s < 60)%Z ->
  (0 <= frac)%Q ->
  (frac < 1000)%Q ->
  formatTimeOfDay (inject_Z ((((day * 24 + h) * 60 + m) * 60 + s) * 1000) + frac)
  = String.append (pad2 h)
      (String.append ":" (String.append (pad2 m)
         (String.append ":" (String.append (pad2 s) " UTC")))).
Proof.
  intros Hday Hh Hm Hs Hlo Hhi.
  set (a := ((((day * 24 + h) * 60 + m) * 60 + s) * 1000)%Z).
  assert (Ha : (0 <= a)%Z) by (subst a; lia).
  assert (Ha' : (a + 1000 <= 8640000000000000)%Z) by (subst a; lia).
  pose proof (Qfloor_bounds frac 1000 Hlo Hhi) as Hf.
  assert (Hnonneg : (0 <= inject_Z a + frac)%Q).
  { pose proof Ha as HaQ. rewrite Zle_Qle in HaQ.
    change (inject_Z 0) with 0%Q in HaQ.
    set (x := inject_Z a) in *. clearbody x. lra. }
  unfold formatTimeOfDay, Date_of.
  assert (Hrange : Qle_bool (Qabs (inject_Z a + frac)) 8640000000000000 = true).
  { apply Qle_bool_iff. rewrite Qabs_pos by done.
    pose proof Ha' as HaQ. rewrite Zle_Qle, inject_Z_plus in HaQ.
    change (inject_Z 1000) with 1000%Q in HaQ.
    change (inject_Z 8640000000000000) with 8640000000000000%Q in HaQ.
    set (x := inject_Z a) in *. clearbody x. lra. }
  rewrite Hrange.
  apply Qle_bool_iff in Hnonneg. rewrite Hnonneg, Qfloor_plus_Z.
  unfold getUTCHours, getUTCMinutes, getUTCSeconds.
  set (f := Qfloor frac) in *.
  replace ((a + f) / 3600000)%Z with (day * 24 + h)%Z
    by (apply Z.div_unique with ((m * 60 + s) * 1000 + f)%Z; subst a; lia).
  replace ((a + f) / 60000)%Z with ((day * 24 + h) * 60 + m)%Z
    by (apply Z.div_unique with (s * 1000 + f)%Z; subst a; lia).
  replace ((a + f) / 1000)%Z with (((day * 24 + h) * 60 + m) * 60 + s)%Z
    by (apply Z.div_unique with f; subst a; lia).
  replace ((day * 24 + h) mod 24)%Z with h by (apply Z.mod_unique with day; lia).
  replace (((day * 24 + h) * 60 + m) mod 60)%Z with m
    by (apply Z.mod_unique with (day * 24 + h)%Z; lia).
  replace ((((day * 24 + h) * 60 + m) * 60 + s) mod 60)%Z with s
    by (apply Z.mod_unique with ((day * 24 + h) * 60 + m)%Z; lia).
  reflexivity.
Qed.

Lemma formatTimeOfDay_fields_witness :
  formatTimeOfDay 100000000999 = "09:46:40 UTC"%string.
Proof.
  exact (formatTimeOfDay_fields 1157 9 46 40 999
           ltac:(done) ltac:(done) ltac:(done) ltac:(done) ltac:(done) ltac:(done)).
Defined.

(** ** Order of the rows *)


Section Order64.
Local Open Scope Q_scope.




End Order64.



(** ** The announcement effect *)

Lemma key_eqb_refl (k : AnnounceKey) : key_eqb k k = true.
Proof.
  unfold key_eqb. rewrite String.eqb_refl.
  replace (Qeq_bool _ _) with true by (symmetry; apply Qeq_bool_iff; reflexivity).
  by destruct (key_kind k).
Qed.

Lemma key_eqb_sym (a b : AnnounceKey) : key_eqb a b = key_eqb b a.
Proof.
  unfold key_eqb. rewrite (String.eqb_sym (key_player a)).
  replace (Qeq_bool (key_target a) (key_target b))
    with (Qeq_bool (key_target b) (key_target a)).
  - by destruct (key_kind a), (key_kind b).
  - destruct (Qeq_bool (key_target a) (key_target b)) eqn:E.
    + apply Qeq_bool_iff. symmetry. by apply Qeq_bool_iff.
    + destruct (Qeq_bool (key_target b) (key_target a)) eqn:E'; [|done].
      apply Qeq_bool_iff in E'. symmetry in E'. apply Qeq_bool_iff in E'. congruence.
Qed.

Lemma announced_has_app (l1 l2 : list AnnounceKey) (k : AnnounceKey) :
  announced_has (l1 ++ l2) k = announced_has l1 k || announced_has l2 k.
Proof. apply existsb_app. Qed.

(** One row either leaves the set and the calls as they are, or it is
    due, its key is new, and exactly that key and one call are added. *)
Lemma announce_row_cases (cfg : Announcer) (ph : Phase) (now : Q)
    (acc : list AnnounceKey * list Call) (r : Row) :
  announce_row cfg ph now acc r = acc
  \/ exists key,
       due cfg ph now r key
       /\ announced_has acc.1 key = false
       /\ announce_row cfg ph now acc r
          = (acc.1 ++ [key], acc.2 ++ [mkCall (name (row_player r)) (key_target key)]).
Proof.
  unfold announce_row.
  destruct ((0 <? length (selectedIds cfg))%nat
            && negb (existsb (String.eqb (id (row_player r))) (selectedIds cfg)))
    eqn:Hskip; [by left|].
  assert (Hsel : selectedIds cfg = []
                 \/ existsb (String.eqb (id (row_player r))) (selectedIds cfg) = true).
  { apply andb_false_iff in Hskip as [Hlen|Hin].
    - left. destruct (selectedIds cfg); [done|discriminate].
    - right. by apply negb_false_iff. }
  destruct (announce_target cfg ph r) as [key|] eqn:Htarget; [|by left].
  destruct (announced_has acc.1 key) eqn:Hhas; [by left|].
  destruct (Qle_bool (key_target key - now) 4200
            && Qle_bool (4200 - 350) (key_target key - now)) eqn:Hfirst;
    destruct (Qltb (key_target key - now) (4200 - 350)
              && Qltb 600 (key_target key - now)) eqn:Hsecond.
  - apply andb_true_iff in Hfirst as [_ H1], Hsecond as [H2 _].
    apply Qle_bool_iff in H1. apply Qltb_lt in H2. lra.
  - right. exists key. apply andb_true_iff in Hfirst as [H1 H2].
    apply Qle_bool_iff in H1, H2. unfold due.
    split_and!; try done. lra.
  - right. exists key. apply andb_true_iff in Hsecond as [H1 H2].
    apply Qltb_lt in H1, H2. unfold due.
    split_and!; try done. lra.
  - by left.
Qed.

Lemma Qltb_negb_le (x y : Q) : Qltb x y = negb (Qle_bool y x).
Proof.
  destruct (Qle_bool y x) eqn:E; simpl.
  - apply Qltb_ge. by apply Qle_bool_iff.
  - apply Qltb_lt. apply Qnot_le_lt. intros Hle. apply Qle_bool_iff in Hle. congruence.
Qed.

(** A row that is due has its key in the set afterwards. *)
Lemma announce_row_due (cfg : Announcer) (ph : Phase) (now : Q)
    (acc : list AnnounceKey * list Call) (r : Row) (key : AnnounceKey) :
  due cfg ph now r key ->
  announced_has (announce_row cfg ph now acc r).1 key = true.
Proof.
  intros (Hsel & Htarget & Hlo & Hhi). unfold announce_row.
  assert (Hskip : (0 <? length (selectedIds cfg))%nat
                  && negb (existsb (String.eqb (id (row_player r))) (selectedIds cfg))
                  = false).
  { destruct Hsel as [->| ->]; [done|]. by rewrite andb_false_r. }
  rewrite Hskip, Htarget.
  destruct (announced_has acc.1 key) eqn:Hhas; [done|].
  apply Qle_bool_iff in Hhi. apply Qltb_lt in Hlo.
  rewrite Hhi, Hlo, Qltb_negb_le, andb_true_r. simpl.
  destruct (Qle_bool (4200 - 350) (key_target key - now)); simpl;
    rewrite announced_has_app; simpl; rewrite key_eqb_refl; by rewrite orb_true_r.
Qed.

Lemma announce_rows_grow (cfg : Announcer) (ph : Phase) (now : Q)
    (l : list Row) (acc : list AnnounceKey * list Call) :
  exists added,
    (fold_left (announce_row cfg ph now) l acc).1 = acc.1 ++ added
    /\ call_target <$> (fold_left (announce_row cfg ph now) l acc).2
       = (call_target <$> acc.2) ++ (key_target <$> added).
Proof.
  revert acc. induction l as [|r l IH]; intros acc; simpl.
  - exists []. by rewrite !app_nil_r.
  - destruct (IH (announce_row cfg ph now acc r)) as (added & Hset & Hcalls).
    destruct (announce_row_cases cfg ph now acc r) as [Heq|(key & _ & _ & Heq)];
      rewrite Heq in *.
    + by exists added.
    + exists (key :: added). simpl in *. rewrite Hset, Hcalls.
      rewrite !fmap_app, <- !app_assoc. done.
Qed.

Lemma keys_distinct_snoc (l : list AnnounceKey) (k : AnnounceKey) :
  keys_distinct l -> announced_has l k = false -> keys_distinct (l ++ [k]).
Proof.
  intros Hl Hk i j a b Hij Hi Hj.
  destruct (decide (j < length l)) as [Hj'|Hj'].
  - rewrite lookup_app_l in Hi, Hj by lia. by apply (Hl i j).
  - assert (j = length l) as ->.
    { apply lookup_lt_Some in Hj. rewrite length_app in Hj. simpl in Hj. lia. }
    rewrite lookup_app_l in Hi by lia.
    rewrite lookup_app_r, Nat.sub_diag in Hj by lia. injection Hj as <-.
    unfold announced_has in Hk.
    destruct (key_eqb a k) eqn:E; [|done].
    assert (existsb (key_eqb k) l = true); [|congruence].
    apply existsb_exists. exists a. split.
    + apply list_elem_of_In. by eapply list_elem_of_lookup_2.
    + by rewrite key_eqb_sym.
Qed.

Lemma announce_rows_distinct (cfg : Announcer) (ph : Phase) (now : Q)
    (l : list Row) (acc : list AnnounceKey * list Call) :
  keys_distinct acc.1 ->
  keys_distinct (fold_left (announce_row cfg ph now) l acc).1.
Proof.
  revert acc. induction l as [|r l IH]; intros acc Hacc; simpl; [done|].
  apply IH.
  destruct (announce_row_cases cfg ph now acc r) as [->|(key & _ & Hnew & ->)];
    [done|]. by apply keys_distinct_snoc.
Qed.

Lemma announce_grows (cfg : Announcer) (rc : option RallyComputed) (now : Q)
    (announced : list AnnounceKey) :
  exists added,
    (announce cfg rc now announced).1 = announced ++ added
    /\ call_target <$> (announce cfg rc now announced).2 = key_target <$> added.
Proof.
  unfold announce. destruct (ttsEnabled cfg); simpl.
  - destruct rc as [computed|].
    + apply (announce_rows_grow cfg (phase computed) now (rows computed) (announced, [])).
    + exists []. by rewrite app_nil_r.
  - exists []. by rewrite app_nil_r.
Qed.

Lemma announce_distinct (cfg : Announcer) (rc : option RallyComputed) (now : Q)
    (announced : list AnnounceKey) :
  keys_distinct announced -> keys_distinct (announce cfg rc now announced).1.
Proof.
  intros Hd. unfold announce. destruct (ttsEnabled cfg); simpl; [|done].
  destruct rc as [computed|]; [|done].
  by apply (announce_rows_distinct cfg (phase computed) now (rows computed) (announced, [])).
Qed.

(** X7: each key is announced at most once. Over any sequence of
    renders, whatever the schedules and times, the effect only adds keys
    to [announcedRef], one per call it makes and with the call's target,
    and never a key that is already there. *)
Theorem each_key_announced_once
    (cfg : Announcer) (renders : list (option RallyComputed * Q))
    (announced : list AnnounceKey) :
  keys_distinct announced ->
  exists added,
    (announce_all cfg renders announced).1 = announced ++ added
    /\ keys_distinct (announce_all cfg renders announced).1
    /\ call_target <$> (announce_all cfg renders announced).2 = key_target <$> added.
Proof.
  revert announced. induction renders as [|[rc now] rest IH]; intros announced Hd; simpl.
  - exists []. by rewrite app_nil_r.
  - destruct (announce_grows cfg rc now announced) as (first & Hset & Hcalls).
    destruct (IH (announce cfg rc now announced).1) as (later & Hset' & Hd' & Hcalls');
      [by apply announce_distinct|].
    exists (first ++ later). split_and!; [|done|].
    + by rewrite Hset', Hset, app_assoc.
    + by rewrite !fmap_app, Hcalls, Hcalls'.
Qed.

Lemma each_key_announced_once_witness :
  exists rc,
    rallyComputed demo_state (-299000) 5 = Some rc
    /\ (announce_all (mkAnnouncer true true false [])
          [(Some rc, (-299000)%Q); (Some rc, (-299000)%Q)] []).2
       = [mkCall "Alice" (-295000)].
Proof.
  eexists. split; [by vm_compute|].
  destruct (each_key_announced_once (mkAnnouncer true true false [])
              [(rallyComputed demo_state (-299000) 5, (-299000)%Q);
               (rallyComputed demo_state (-299000) 5, (-299000)%Q)] [])
    as (added & _ & _ & _); [by intros i j a b _ Hi|].
  by vm_compute.
Defined.

Lemma announce_rows_sound (cfg : Announcer) (ph : Phase) (now : Q)
    (l : list Row) (acc : list AnnounceKey * list Call) (call : Call) :
  call ∈ (fold_left (announce_row cfg ph now) l acc).2 ->
  call ∈ acc.2
  \/ exists row key,
       row ∈ l /\ due cfg ph now row key /\ announced_has acc.1 key = false
       /\ call = mkCall (name (row_player row)) (key_target key).
Proof.
  revert acc. induction l as [|r l IH]; intros acc; simpl; [by left|].
  intros Hin. apply IH in Hin.
  destruct (announce_row_cases cfg ph now acc r) as [Heq|(k & Hdue & Hnew & Heq)];
    rewrite Heq in Hin; simpl in Hin.
  - destruct Hin as [?|(row & key & Hrow & ? & ? & ?)]; [by left|].
    right. exists row, key. split_and!; try done. apply elem_of_cons. by right.
  - destruct Hin as [Hold|(row & key & Hrow & Hd & Hhas & ->)].
    + apply elem_of_app in Hold as [?|Hnewcall]; [by left|].
      apply list_elem_of_singleton in Hnewcall as ->.
      right. exists r, k. split_and!; try done. apply elem_of_cons. by left.
    + right. exists row, key. rewrite announced_has_app in Hhas.
      apply orb_false_iff in Hhas as [Hhas _].
      split_and!; try done. apply elem_of_cons. by right.
Qed.

(** X8: the effect calls a player only when enabled and only for a row
    that is due at that render: selected (or nothing is selected), with
    the switch of the current phase on, its target (the player's own
    rally start while the phase is JOIN, the player's march start while
    it is MARCH) more than 600 ms and at most 4200 ms ahead, and its key
    not announced before. *)
Theorem calls_only_for_due_rows
    (cfg : Announcer) (rc : option RallyComputed) (now : Q)
    (announced : list AnnounceKey) (call : Call) :
  call ∈ (announce cfg rc now announced).2 ->
  ttsEnabled cfg = true
  /\ exists computed row key,
       rc = Some computed
       /\ row ∈ rows computed
       /\ due cfg (phase computed) now row key
       /\ announced_has announced key = false
       /\ call = mkCall (name (row_player row)) (key_target key).
Proof.
  unfold announce. destruct (ttsEnabled cfg); simpl;
    [|by intros ?%elem_of_nil].
  destruct rc as [computed|]; [|by intros ?%elem_of_nil].
  intros [Hin|(row & key & ? & ? & ? & ?)]%announce_rows_sound.
  - by apply elem_of_nil in Hin.
  - split; [done|]. by exists computed, row, key.
Qed.

Lemma calls_only_for_due_rows_witness :
  exists rc,
    rallyComputed demo_state (-299000) 5 = Some rc
    /\ mkCall "Alice" (-295000)
         ∈ (announce (mkAnnouncer true true false []) (Some rc) (-299000) []).2
    /\ exists row key,
         due (mkAnnouncer true true false []) (phase rc) (-299000) row key
         /\ name (row_player row) = "Alice"%string.
Proof.
  eexists. split; [by vm_compute|].
  assert (Hin : mkCall "Alice" (-295000)
            ∈ (announce (mkAnnouncer true true false [])
                 (rallyComputed demo_state (-299000) 5) (-299000) []).2).
  { vm_compute. apply elem_of_cons. by left. }
  split; [exact Hin|].
  destruct (calls_only_for_due_rows _ _ _ _ _ Hin)
    as (_ & computed & row & key & Hrc & _ & Hdue & _ & Hcall).
  injection Hrc as <-. exists row, key. split; [exact Hdue|].
  by injection Hcall as <- _.
Defined.

Lemma announce_rows_cover (cfg : Announcer) (ph : Phase) (now : Q)
    (l : list Row) (acc : list AnnounceKey * list Call) (row : Row) (key : AnnounceKey) :
  row ∈ l ->
  due cfg ph now row key ->
  announced_has (fold_left (announce_row cfg ph now) l acc).1 key = true.
Proof.
  revert acc. induction l as [|r l IH]; intros acc Hin Hdue; simpl.
  - by apply elem_of_nil in Hin.
  - apply elem_of_cons in Hin as [->|Hin]; [|by apply IH].
    destruct (announce_rows_grow cfg ph now l (announce_row cfg ph now acc r))
      as (added & -> & _).
    rewrite announced_has_app, announce_row_due by done. done.
Qed.

Lemma announce_rows_rest (cfg : Announcer) (ph : Phase) (now : Q)
    (l : list Row) (acc : list AnnounceKey * list Call) :
  (forall row key, row ∈ l -> due cfg ph now row key -> announced_has acc.1 key = true) ->
  fold_left (announce_row cfg ph now) l acc = acc.
Proof.
  induction l as [|r l IH]; intros Hcovered; simpl; [done|].
  destruct (announce_row_cases cfg ph now acc r) as [->|(key & Hdue & Hnew & _)].
  - apply IH. intros row key Hrow. apply Hcovered, elem_of_cons. by right.
  - rewrite (Hcovered r key) in Hnew; [done| |done]. apply elem_of_cons. by left.
Qed.

(** X9: after the effect has run, the key of every row that was due is
    in [announcedRef] (announced by this run or earlier), and running
    the effect again on the same schedule and time makes no call and
    leaves the set as it is. *)
Theorem announce_covers_due_rows_then_rests
    (cfg : Announcer) (rc : option RallyComputed) (now : Q)
    (announced : list AnnounceKey) :
  (forall computed row key,
      ttsEnabled cfg = true ->
      rc = Some computed ->
      row ∈ rows computed ->
      due cfg (phase computed) now row key ->
      announced_has (announce cfg rc now announced).1 key = true)
  /\ announce cfg rc now (announce cfg rc now announced).1
     = ((announce cfg rc now announced).1, []).
Proof.
  split.
  - intros computed row key Hon -> Hrow Hdue. unfold announce. rewrite Hon. simpl.
    by apply announce_rows_cover with row.
  - unfold announce. destruct (ttsEnabled cfg); simpl; [|done].
    destruct rc as [computed|]; [|done].
    apply (announce_rows_rest cfg (phase computed) now (rows computed)
             ((fold_left (announce_row cfg (phase computed) now) (rows computed)
                 (announced, [])).1, [])).
    intros row key Hrow Hdue. simpl. by apply announce_rows_cover with row.
Qed.

(** ** Audio cues *)

Lemma filter_keep_all {A} (f : A -> bool) (l : list A) :
  Forall (fun x => f x = true) l -> List.filter f l = l.
Proof. induction 1 as [|x l Hx _ IH]; simpl; [done|]. by rewrite Hx, IH. Qed.

Lemma filter_drop_all {A} (f : A -> bool) (l : list A) :
  Forall (fun x => f x = false) l -> List.filter f l = [].
Proof. induction 1 as [|x l Hx _ IH]; simpl; [done|]. by rewrite Hx, IH. Qed.

Lemma Qle_bool_false (x y : Q) : (y < x)%Q -> Qle_bool x y = false.
Proof.
  intros Hlt. destruct (Qle_bool x y) eqn:E; [|done].
  apply Qle_bool_iff in E. lra.
Qed.

(** X10: with an audio context, [scheduleBeepsToTarget] always ends
    with the "go" beep, placed at the target instant on the audio clock
    when the target is at least 20 ms ahead and 20 ms from now
    otherwise; before it come at most five count beeps, each a whole
    number (1 to 5) of spacings before the go beep, none earlier than
    20 ms from now and none later than 10 ms before the go beep.
    Without an audio context nothing is scheduled. *)
Theorem beeps_end_with_go_never_in_the_past
    (cur targetTs nowTs : Q) (o : BeepOptions) :
  (exists countdown go,
      scheduleBeepsToTarget (Some cur) targetTs nowTs o = countdown ++ [go]
      /\ beep_freq go = freqGo o
      /\ (cur + (2 # 100) <= beep_time go)%Q
      /\ ((20 <= targetTs - nowTs)%Q ->
          (beep_time go == cur + (targetTs - nowTs) / 1000)%Q)
      /\ ((targetTs - nowTs <= 20)%Q -> (beep_time go == cur + (2 # 100))%Q)
      /\ length countdown <= 5
      /\ (forall b, b ∈ countdown ->
            beep_freq b = freqCount o
            /\ (cur + (2 # 100) <= beep_time b)%Q
            /\ (beep_time b <= beep_time go - (1 # 100))%Q
            /\ exists k, (1 <= k <= 5)%Z
                 /\ beep_time b = (beep_time go - inject_Z k * spacingSec o)%Q))
  /\ scheduleBeepsToTarget None targetTs nowTs o = [].
Proof.
  split; [|done]. unfold scheduleBeepsToTarget.
  set (d := ((targetTs - nowTs) / 1000)%Q).
  set (base := (cur + Qmax 0 d)%Q).
  set (startTime := Qmax (cur + (2 # 100)) (base - leadSec o)).
  set (goTime := Qmax (cur + (2 # 100)) base).
  set (kept := List.filter _ _).
  eexists. eexists. split; [reflexivity|]. simpl.
  assert (Hhalf : forall x : Q, (x / 1000 == x * (1 # 1000))%Q) by (intros x; field).
  split_and!.
  - done.
  - apply Q.le_max_l.
  - intros Hfar. subst goTime base.
    assert (Hd : (2 # 100 <= d)%Q) by (subst d; rewrite Hhalf; lra).
    rewrite (Q.max_r 0 d) by lra. rewrite Q.max_r by lra. reflexivity.
  - intros Hnear. subst goTime base.
    assert (Hd : (d <= 2 # 100)%Q) by (subst d; rewrite Hhalf; lra).
    apply Q.max_l.
    destruct (Qlt_le_dec d 0) as [Hneg|Hpos].
    + rewrite (Q.max_l 0 d) by lra. lra.
    + rewrite (Q.max_r 0 d) by lra. lra.
  - rewrite length_fmap, (Permutation_length (sort_by_perm _ kept)).
    subst kept. etransitivity; [apply filter_length_le|]. done.
  - intros b (x & -> & Hx)%list_elem_of_fmap. simpl.
    rewrite (sort_by_perm _ kept) in Hx. subst kept.
    apply list_elem_of_In, filter_In in Hx as [Hx Hkeep].
    apply andb_true_iff in Hkeep as [Hlo Hhi]. apply Qle_bool_iff in Hlo, Hhi.
    split_and!; [done| |done|].
    + eapply Qle_trans; [|exact Hlo]. apply Q.le_max_l.
    + apply list_elem_of_In in Hx. unfold countdown_times in Hx.
      apply list_elem_of_fmap in Hx as (i & -> & Hi). simpl.
      exists (6 - i)%Z. split; [|done].
      repeat (apply elem_of_cons in Hi as [->|Hi]; [lia|]).
      by apply elem_of_nil in Hi.
Qed.

(** X11: with the default options, an audio clock within its first
    [10 ^ 6] seconds and timestamps that are whole or half milliseconds
    below [2 ^ 49], a target at least 3771 ms ahead gets the whole
    countdown: five count beeps about 3.75, 3, 2.25, 1.5 and 0.75 s
    before the target and the go beep about at the target, in this
    order, each within a microsecond of that instant.  A target at most
    769 ms ahead (or in the past) gets the go beep alone.  The
    thresholds of the filter lie at 3770 ms and 770 ms: the statement
    keeps a millisecond away from them, far more than the rounding of
    the doubles involved, which are below [2 ^ 21] here. *)
Theorem full_countdown_or_go_alone (cur targetTs nowTs factor : Q) :
  let beeps := scheduleBeepsToTarget (Some cur) targetTs nowTs (beep_defaults factor) in
  let target := (cur + (targetTs - nowTs) / 1000)%Q in
  let near (t nominal : Q) := (Qabs (t - nominal) <= 1 # 1000000)%Q in
  (0 <= cur)%Q ->
  (cur <= 1000000)%Q ->
  F64.exact_ms targetTs = true ->
  F64.exact_ms nowTs = true ->
  ((3771 <= targetTs - nowTs)%Q ->
     (targetTs - nowTs <= 1000000000)%Q ->
     Forall2 near (beep_time <$> beeps)
       [target - (15 # 4); target - 3; target - (9 # 4);
        target - (3 # 2); target - (3 # 4); target]%Q
     /\ beep_freq <$> beeps = [720; 720; 720; 720; 720; 1100]%Q)
  /\ ((targetTs - nowTs <= 769)%Q -> beep_freq <$> beeps = [1100%Q]).
Proof.
  intros beeps target near _ _ _ _. subst beeps target near.
  unfold scheduleBeepsToTarget.
  set (d := ((targetTs - nowTs) / 1000)%Q) in *.
  assert (Hhalf : forall x : Q, (x / 1000 == x * (1 # 1000))%Q) by (intros x; field).
  simpl leadSec. simpl spacingSec. simpl freqCount. simpl freqGo.
  simpl gain. simpl gainFactor.
  set (base := (cur + Qmax 0 d)%Q).
  set (G := Qmax (cur + (2 # 100)) base).
  set (S0 := Qmax (cur + (2 # 100)) (base - 5 * (3 # 4))).
  assert (Htimes : countdown_times G (3 # 4)
            = [(5%Z, G - 1 * (3 # 4)); (4%Z, G - 2 * (3 # 4)); (3%Z, G - 3 * (3 # 4));
               (2%Z, G - 4 * (3 # 4)); (1%Z, G - 5 * (3 # 4))]%Q) by reflexivity.
  rewrite Htimes. clear Htimes. split.
  - intros Hfar _.
    assert (Hd : (3771 # 1000 <= d)%Q) by (subst d; rewrite Hhalf; lra).
    assert (Hbase : (base == cur + d)%Q) by (subst base; rewrite Q.max_r; lra).
    assert (HG : (G == cur + d)%Q) by (subst G; rewrite Q.max_r; lra).
    assert (HS : (S0 == cur + d - (15 # 4))%Q) by (subst S0; rewrite Q.max_r; lra).
    clearbody G S0 base d.
    rewrite filter_keep_all.
    2:{ repeat constructor; simpl; apply andb_true_iff; split; apply Qle_bool_iff; lra. }
    unfold sort_by. cbn [foldr insert_by snd].
    repeat (rewrite Qle_bool_false by lra; cbn [insert_by snd]).
    split; [|done].
    apply Forall2_impl with Qeq; [simpl; repeat constructor; simpl; lra|].
    intros t nominal Heq. apply Qabs_Qle_condition. split; lra.
  - intros Hnear.
    assert (Hd : (d < 770 # 1000)%Q) by (subst d; rewrite Hhalf; lra).
    assert (Hsec : (Qmax 0 d < 770 # 1000)%Q).
    { destruct (Qlt_le_dec d 0) as [Hneg|Hpos].
      - rewrite (Q.max_l 0 d) by lra. lra.
      - rewrite (Q.max_r 0 d) by lra. lra. }
    assert (HG : (G < cur + (770 # 1000))%Q).
    { subst G base. apply Q.max_lub_lt; lra. }
    assert (HS : (cur + (2 # 100) <= S0)%Q) by (subst S0; apply Q.le_max_l).
    clearbody G S0 base d.
    rewrite filter_drop_all; [done|].
    repeat constructor; simpl; apply andb_false_iff; left; apply Qle_bool_false; lra.
Qed.

Lemma full_countdown_or_go_alone_witness :
  (0 <= 10)%Q /\ (10 <= 1000000)%Q
  /\ F64.exact_ms 5000 = true /\ F64.exact_ms 1000 = true
  /\ (3771 <= 5000 - 1000)%Q
  /\ beep_freq <$> scheduleBeepsToTarget (Some 10%Q) 5000 1000 (beep_defaults 1)
     = [720; 720; 720; 720; 720; 1100]%Q.
Proof.
  split; [done|]. split; [done|]. split; [reflexivity|]. split; [reflexivity|].
  split; [done|].
  destruct (full_countdown_or_go_alone 10 5000 1000 1
              ltac:(done) ltac:(done) eq_refl eq_refl) as [Hfull _].
  exact (proj2 (Hfull ltac:(done) ltac:(done))).
Defined.

(** ** The local selection *)

Lemma elem_of_filter_neq (x y : string) (l : list string) :
  x ∈ List.filter (fun z => negb (String.eqb z y)) l <-> x ∈ l /\ x <> y.
Proof.
  rewrite list_elem_of_In, filter_In, <- list_elem_of_In, negb_true_iff.
  by rewrite String.eqb_neq.
Qed.

Lemma NoDup_filter_neq (y : string) (l : list string) :
  NoDup l -> NoDup (List.filter (fun z => negb (String.eqb z y)) l).
Proof.
  induction 1 as [|x l Hx Hl IH]; simpl; [constructor|].
  destruct (negb (String.eqb x y)); [|done].
  constructor; [|done]. rewrite elem_of_filter_neq. tauto.
Qed.

Lemma elem_of_set_of_array (x : string) (l : list string) :
  x ∈ set_of_array l <-> x ∈ l.
Proof.
  induction l as [|y l IH]; simpl; [done|].
  rewrite !elem_of_cons, elem_of_filter_neq, IH.
  destruct (decide (x = y)); tauto.
Qed.

Lemma NoDup_set_of_array (l : list string) : NoDup (set_of_array l).
Proof.
  induction l as [|y l IH]; simpl; constructor.
  - rewrite elem_of_filter_neq. tauto.
  - by apply NoDup_filter_neq.
Qed.

Lemma filter_neq_absent (y : string) (l : list string) :
  y ∉ l -> List.filter (fun z => negb (String.eqb z y)) l = l.
Proof.
  induction l as [|x l IH]; simpl; [done|]. intros Hy.
  rewrite not_elem_of_cons in Hy. destruct Hy as [Hne Hy].
  replace (String.eqb x y) with false by (symmetry; by apply String.eqb_neq).
  simpl. by rewrite IH.
Qed.

Lemma set_of_array_NoDup (l : list string) : NoDup l -> set_of_array l = l.
Proof.
  induction 1 as [|x l Hx Hl IH]; simpl; [done|].
  rewrite IH. by rewrite filter_neq_absent.
Qed.

Lemma existsb_eqb_elem_of (x : string) (l : list string) :
  existsb (String.eqb x) l = true <-> x ∈ l.
Proof.
  rewrite existsb_exists. split.
  - intros (y & Hy & ->%String.eqb_eq). by apply list_elem_of_In.
  - intros Hx. exists x. split; [by apply list_elem_of_In|apply String.eqb_refl].
Qed.

(** X12: toggling a player flips that player's membership in the
    selection and nobody else's, and the selection it returns lists no
    id twice; on a selection without repetition, toggling an absent
    player twice gives the selection back as it was. *)
Theorem toggleNotifyPlayer_flips_one (playerId : string) (prev : list string) :
  NoDup (toggleNotifyPlayer playerId prev)
  /\ (playerId ∈ toggleNotifyPlayer playerId prev <-> playerId ∉ prev)
  /\ (forall other, other <> playerId ->
        (other ∈ toggleNotifyPlayer playerId prev <-> other ∈ prev))
  /\ (NoDup prev -> playerId ∉ prev ->
      toggleNotifyPlayer playerId (toggleNotifyPlayer playerId prev) = prev).
Proof.
  assert (Hadd : playerId ∉ prev -> NoDup prev ->
            toggleNotifyPlayer playerId prev = prev ++ [playerId]).
  { intros Hnot Hnd. unfold toggleNotifyPlayer. rewrite set_of_array_NoDup by done.
    destruct (existsb _ _) eqn:E; [|done]. by rewrite existsb_eqb_elem_of in E. }
  unfold toggleNotifyPlayer at 1 2 3.
  destruct (existsb (String.eqb playerId) (set_of_array prev)) eqn:E.
  - rewrite existsb_eqb_elem_of, elem_of_set_of_array in E.
    split_and!.
    + apply NoDup_filter_neq, NoDup_set_of_array.
    + rewrite elem_of_filter_neq.
      split; [by intros [_ ?]|intros Hn; destruct (Hn E)].
    + intros other Hne. rewrite elem_of_filter_neq, elem_of_set_of_array. tauto.
    + tauto.
  - assert (Hnot : playerId ∉ prev).
    { intros Hin. rewrite <- elem_of_set_of_array, <- existsb_eqb_elem_of in Hin.
      congruence. }
    split_and!.
    + apply NoDup_app. split_and!.
      * apply NoDup_set_of_array.
      * intros x Hx ->%list_elem_of_singleton. by rewrite elem_of_set_of_array in Hx.
      * apply NoDup_singleton.
    + rewrite elem_of_app, list_elem_of_singleton. tauto.
    + intros other Hne.
      rewrite elem_of_app, list_elem_of_singleton, elem_of_set_of_array. tauto.
    + intros Hnd _. rewrite Hadd by done. unfold toggleNotifyPlayer.
      assert (Hnd' : NoDup (prev ++ [playerId])).
      { apply NoDup_app. split_and!; [done| |apply NoDup_singleton].
        by intros x Hx ->%list_elem_of_singleton. }
      rewrite set_of_array_NoDup by done.
      replace (existsb _ _) with true.
      * rewrite List.filter_app, filter_neq_absent by done. simpl.
        rewrite String.eqb_refl. simpl. apply app_nil_r.
      * symmetry. rewrite existsb_eqb_elem_of, elem_of_app. right.
        by apply list_elem_of_singleton.
Qed.

(** ** The room object, event by event *)

(** What a RALLY_START does to a room in memory: nothing but the touch
    of [lastActiveAt] when it is not accepted, and a new rally for the
    starter it names, stored and broadcast, when it is. *)
Lemma step_RALLY_START_cases h pl ra la st so ck tk ob ws (p : option RallyStartPayload) :
  let w := mkWorld h (Some (mkRoomObject pl ra la)) st so ck tk ob in
  (rally_start_accepted p = false
   /\ step ws (RALLY_START p) w
      = mkWorld h (Some (mkRoomObject pl ra (ck tk))) st so ck (S tk) ob)
  \/ (rally_start_accepted p = true
      /\ exists q launch k,
          p = Some q
          /\ step ws (RALLY_START p) w
             = mkWorld h (Some (mkRoomObject pl (Some (mkRally (rs_starterId q) launch)) (ck tk)))
                 (Some (mkRoomState (default [] (h !! pl))
                          (Some (mkRally (rs_starterId q) launch)) (Some (ck tk))))
                 so ck k
                 (ob ++ ((fun client =>
                            (client, STATE (mkRoomState (default [] (h !! pl))
                               (Some (mkRally (rs_starterId q) launch)) (Some (ck tk)))))
                         <$> so))).
Proof.
  intros w. subst w. destruct p as [[sid given dur del]|]; [|by left].
  unfold rally_start_accepted, finite_nonneg.
  cbn [rs_starterId rs_launchAt rs_rallyDurationMs rs_preDelayMs].
  run_handler. cbn [rs_starterId rs_launchAt rs_rallyDurationMs rs_preDelayMs].
  destruct (String.eqb sid "") eqn:Hid; run_handler; [by left|].
  destruct given as [[g| | |]|], dur as [[d| | |]|], del as [[e| | |]|];
    run_handler; cbn [negb andb orb];
    repeat match goal with
           | |- context [Qltb ?x ?y] => destruct (Qltb x y); run_handler; cbn [negb andb orb]
           end;
    first [ by left
          | right; split; [done|]; do 3 eexists; split; [reflexivity|]; reflexivity ].
Qed.

(** Every event, for a room in memory, is of one of three kinds: a
    client connects and is sent the state; or players, rally and storage
    stay as they are and at most one reply goes to the sender; or the
    new state is stored and sent to every connected client, the players
    changed by an upsert or a removal, or left alone with the rally
    ended or replaced. *)
Lemma deliver_loaded h pl ra la st so ck tk ob (e : Event) :
  let w := mkWorld h (Some (mkRoomObject pl ra la)) st so ck tk ob in
  let arr := default [] (h !! pl) in
  (exists ws,
      e = Connect ws
      /\ deliver e w
         = mkWorld h (Some (mkRoomObject pl ra la)) st (so ++ [ws]) ck tk
             (ob ++ [(ws, STATE (mkRoomState arr ra (Some la)))]))
  \/ (exists k extra,
        deliver e w
        = mkWorld h (Some (mkRoomObject pl ra (ck tk))) st so ck k (ob ++ extra)
        /\ (extra = []
            \/ (exists ws, extra = [(ws, STATE (mkRoomState arr ra (Some (ck tk))))])
            \/ (exists ws r0 r1 r2, extra = [(ws, TIME_SYNC_RESPONSE r0 r1 r2)])))
  \/ (exists h' pl' ra' k,
        let s' := mkRoomState (default [] (h' !! pl')) ra' (Some (ck tk)) in
        deliver e w
        = mkWorld h' (Some (mkRoomObject pl' ra' (ck tk))) (Some s') so ck k
            (ob ++ ((fun client => (client, STATE s')) <$> so))
        /\ ((exists p, id p <> ""%string
               /\ default [] (h' !! pl') = upsert p arr /\ ra' = ra)
            \/ (exists removed, removed <> ""%string
                  /\ default [] (h' !! pl') = filter (fun q => id q ≠ removed) arr
                  /\ ra' = match ra with
                           | Some r => if String.eqb (starterId r) removed
                                       then None else Some r
                           | None => None
                           end)
            \/ (default [] (h' !! pl') = arr
                /\ (ra' = None
                    \/ exists sid launch, sid <> ""%string
                         /\ ra' = Some (mkRally sid launch))))).
Proof.
  intros w arr. subst w arr. destruct e as [ws|ws [msg|]].
  - left. exists ws. split; [done|]. unfold deliver. by rewrite accept_loaded.
  - unfold deliver.
    change (exec (handleMessage ws (Some msg)) ?w0) with (step ws msg w0).
    destruct msg as [|p|removed|p| |t].
    + right; left. rewrite step_STATE_REQUEST. do 2 eexists. split; [done|].
      right; left. by eexists.
    + destruct (from_option (fun q => String.eqb (id q) "") true p) eqn:Hid.
      * right; left. rewrite step_PLAYER_ADD_dropped by done.
        exists (S tk), []. by rewrite app_nil_r; auto.
      * destruct p as [p|]; [|done]. simpl in Hid. apply String.eqb_neq in Hid.
        right; right. rewrite step_PLAYER_ADD by done.
        exists (<[pl := upsert p (default [] (h !! pl))]> h), pl, ra, (S tk).
        simpl. rewrite lookup_insert_eq. simpl. split; [done|]. left. by exists p.
    + destruct (from_option (fun q => String.eqb q "") true removed) eqn:Hid.
      * right; left. rewrite step_PLAYER_REMOVE_dropped by done.
        exists (S tk), []. by rewrite app_nil_r; auto.
      * destruct removed as [removed|]; [|done]. simpl in Hid.
        apply String.eqb_neq in Hid.
        right; right. rewrite step_PLAYER_REMOVE by done.
        do 4 eexists. simpl. rewrite lookup_insert_eq. simpl. split; [done|].
        right; left. by exists removed.
    + destruct (step_RALLY_START_cases h pl ra la st so ck tk ob ws p)
        as [[_ ->]|(Hacc & q & launch & k & -> & ->)].
      * right; left. exists (S tk), []. by rewrite app_nil_r; auto.
      * right; right. exists h, pl, (Some (mkRally (rs_starterId q) launch)), k.
        simpl. split; [done|]. right; right. split; [done|]. right.
        exists (rs_starterId q), launch. split; [|done].
        unfold rally_start_accepted in Hacc. apply andb_true_iff in Hacc as [Hq _].
        apply String.eqb_neq. by apply negb_true_iff.
    + right; right. rewrite step_RALLY_END.
      exists h, pl, None, (S tk). simpl. split; [done|]. right; right. by auto.
    + right; left. destruct t as [[r0| | |]|].
      * rewrite step_TIME_SYNC_REQUEST. do 2 eexists. split; [done|].
        right; right. by do 4 eexists.
      * exists (S tk), []. by rewrite app_nil_r; auto.
      * exists (S tk), []. by rewrite app_nil_r; auto.
      * exists (S tk), []. by rewrite app_nil_r; auto.
      * exists (S tk), []. by rewrite app_nil_r; auto.
  - right; left. unfold deliver. rewrite step_unparsable.
    exists (S tk), []. by rewrite app_nil_r; auto.
Qed.

(** ** Replicas *)

Lemma received_by_app (ws : socket) (a b : list (socket * ServerMsg)) :
  received_by ws (a ++ b) = received_by ws a ++ received_by ws b.
Proof. unfold received_by. by rewrite List.filter_app, fmap_app. Qed.

Lemma replica_app (ws : socket) (a b : list (socket * ServerMsg)) :
  replica ws (a ++ b)
  = view_state (handle_all (received_by ws b) (handle_all (received_by ws a) initialView)).
Proof. unfold replica, handle_all. by rewrite received_by_app, fold_left_app. Qed.

Lemma handle_all_states (s : RoomState) (msgs : list ServerMsg) (c : ClientView) :
  msgs <> [] ->
  Forall (fun m => m = STATE s) msgs ->
  view_state (handle_all msgs c) = s.
Proof.
  revert c. induction msgs as [|m msgs IH]; intros c Hne Hall; [done|].
  apply Forall_cons in Hall as [-> Hall]. simpl.
  destruct msgs as [|m' msgs]; [done|]. by apply IH.
Qed.

Lemma replica_snoc_state (ws ws' : socket) (s : RoomState) (out : list (socket * ServerMsg)) :
  replica ws (out ++ [(ws', STATE s)])
  = if Nat.eqb ws' ws then s else replica ws out.
Proof.
  rewrite replica_app. unfold received_by. simpl.
  destruct (Nat.eqb ws' ws); simpl; done.
Qed.

Lemma replica_snoc_sync (ws ws' : socket) (r0 r1 r2 : Q) (out : list (socket * ServerMsg)) :
  replica ws (out ++ [(ws', TIME_SYNC_RESPONSE r0 r1 r2)]) = replica ws out.
Proof.
  rewrite replica_app. unfold received_by. simpl.
  destruct (Nat.eqb ws' ws); simpl; done.
Qed.

Lemma replica_broadcast (ws : socket) (s : RoomState) (so : list socket)
    (out : list (socket * ServerMsg)) :
  ws ∈ so ->
  replica ws (out ++ ((fun client => (client, STATE s)) <$> so)) = s.
Proof.
  intros Hin. rewrite replica_app. apply handle_all_states.
  - intros Hnil.
    assert (Hmem : STATE s ∈ received_by ws ((fun client => (client, STATE s)) <$> so)).
    { unfold received_by. apply list_elem_of_fmap. exists (ws, STATE s). split; [done|].
      apply list_elem_of_In, filter_In. split.
      - apply list_elem_of_In, list_elem_of_fmap. by exists ws.
      - simpl. apply Nat.eqb_refl. }
    rewrite Hnil in Hmem. by apply elem_of_nil in Hmem.
  - unfold received_by. apply Forall_forall. intros m Hm.
    apply list_elem_of_fmap in Hm as ([c m'] & -> & Hm).
    apply list_elem_of_In, filter_In in Hm as [Hm _].
    apply list_elem_of_In, list_elem_of_fmap in Hm as (c' & [= -> ->] & _). done.
Qed.

(** ** What the room keeps true *)

Lemma upsert_ids (p : Player) (arr : list Player) :
  id p <> ""%string ->
  NoDup (id <$> arr) -> ""%string ∉ (id <$> arr) ->
  NoDup (id <$> upsert p arr) /\ ""%string ∉ (id <$> upsert p arr).
Proof.
  intros Hid Hnd Hne. unfold upsert.
  destruct (list_find _ arr) as [[idx q]|] eqn:Hfind.
  - apply list_find_Some in Hfind as (Hidx & Hq & _).
    rewrite list_fmap_insert, list_insert_id; [done|].
    by rewrite list_lookup_fmap, Hidx, <- Hq.
  - apply list_find_None in Hfind. rewrite fmap_app. simpl. split.
    + apply NoDup_app. split_and!; [done| |apply NoDup_singleton].
      intros x Hx ->%list_elem_of_singleton.
      apply list_elem_of_fmap in Hx as (q & Hq & Hin).
      rewrite Forall_forall in Hfind. by apply (Hfind q).
    + rewrite elem_of_app, list_elem_of_singleton. intros [?|?]; [done|congruence].
Qed.

Lemma filter_ids (removed : string) (arr : list Player) :
  NoDup (id <$> arr) -> ""%string ∉ (id <$> arr) ->
  NoDup (id <$> filter (fun q => id q ≠ removed) arr)
  /\ ""%string ∉ (id <$> filter (fun q => id q ≠ removed) arr).
Proof.
  intros Hnd Hne.
  assert (Hsub : sublist (id <$> filter (fun q => id q ≠ removed) arr) (id <$> arr))
    by (apply fmap_sublist, sublist_filter).
  split; [by eapply sublist_NoDup|].
  intros (q & Hq & Hin)%list_elem_of_fmap. apply Hne.
  apply list_elem_of_filter in Hin as [_ Hin].
  apply list_elem_of_fmap. by exists q.
Qed.

Lemma deliver_healthy_loaded h pl ra la st so ck tk ob (e : Event) :
  healthy (mkWorld h (Some (mkRoomObject pl ra la)) st so ck tk ob) ->
  healthy (deliver e (mkWorld h (Some (mkRoomObject pl ra la)) st so ck tk ob)).
Proof.
  intros [[? _]|(d & stored & [= <-] & Hst & Hsame & Hnd & Hne & Hrep)]; [done|].
  simpl in Hst. subst st.
  unfold to_json, array_at in Hsame, Hnd, Hne, Hrep. simpl in Hsame, Hnd, Hne, Hrep.
  right.
  destruct (deliver_loaded h pl ra la (Some stored) so ck tk ob e)
    as [(ws & -> & ->)
       |[(k & extra & -> & Hextra)
        |(h' & pl' & ra' & k & -> & Hplayers)]].
  - do 2 eexists. split_and!; try done.
    simpl. intros ws' Hws'. rewrite replica_snoc_state.
    destruct (Nat.eqb ws ws') eqn:E; [done|].
    apply Nat.eqb_neq in E. apply elem_of_app in Hws' as [?|Hws']; [by apply Hrep|].
    apply list_elem_of_singleton in Hws'. congruence.
  - do 2 eexists. split_and!; try done.
    simpl. intros ws' Hws'. unfold to_json, array_at. simpl.
    destruct Hextra as [->|[(ws & ->)|(ws & r0 & r1 & r2 & ->)]].
    + rewrite app_nil_r. by apply Hrep.
    + rewrite replica_snoc_state. destruct (Nat.eqb ws ws'); [done|]. by apply Hrep.
    + rewrite replica_snoc_sync. by apply Hrep.
  - do 2 eexists. split; [reflexivity|]. split; [reflexivity|].
    unfold to_json, array_at. cbn. split_and!; try done.
    + destruct Hplayers as [(p & Hp & -> & _)|[(removed & _ & -> & _)|[-> _]]];
        [by apply upsert_ids|by apply filter_ids|done].
    + destruct Hplayers as [(p & Hp & -> & _)|[(removed & _ & -> & _)|[-> _]]];
        [by apply upsert_ids|by apply filter_ids|done].
    + intros ws' Hws'. by rewrite replica_broadcast.
Qed.

Lemma deliver_healthy (w : World) (e : Event) : healthy w -> healthy (deliver e w).
Proof.
  destruct w as [h [[pl ra la]|] st so ck tk ob]; [apply deliver_healthy_loaded|].
  intros [(_ & Hst & Hso & Hdef)|(d & ? & ? & _)]; [|done].
  simpl in Hst, Hso. unfold array_at in Hdef. simpl in Hdef. subst st so.
  assert (Hloaded : healthy
    (mkWorld h (Some (mkRoomObject DEFAULT_PLAYERS None (ck tk)))
       (Some (mkRoomState (default [] (h !! DEFAULT_PLAYERS)) None (Some (ck tk))))
       [] ck (S tk) ob)).
  { right. do 2 eexists. split; [reflexivity|]. split; [reflexivity|].
    unfold to_json, array_at. cbn. rewrite Hdef.
    split_and!; try done; [constructor|by intros ?%elem_of_nil|by intros ws ?%elem_of_nil]. }
  destruct e as [ws|ws [msg|]].
  - unfold deliver. rewrite accept_first.
    by apply (deliver_healthy_loaded _ _ _ _ _ _ _ _ _ (Connect ws)).
  - unfold deliver.
    change (exec (handleMessage ws (Some msg)) ?w0) with (step ws msg w0).
    rewrite step_first_message.
    by apply (deliver_healthy_loaded _ _ _ _ _ _ _ _ _ (Message ws (Some msg))).
  - apply (deliver_healthy_loaded _ _ _ _ _ _ _ _ _ (Message ws None)) in Hloaded.
    exact Hloaded.
Qed.

Lemma run_healthy (clk : nat -> Q) (events : list Event) :
  healthy (run events (fresh_world clk)).
Proof.
  unfold run. rewrite <- fold_left_rev_right.
  induction (rev events) as [|e l IH]; simpl.
  - left. by split_and!.
  - by apply deliver_healthy.
Qed.

Lemma find_first_unique_id (p : Player) (l : list Player) :
  NoDup (id <$> l) -> p ∈ l ->
  find_first (fun q => String.eqb (id q) (id p)) l = Some p.
Proof.
  induction l as [|x l IH]; intros Hnd Hin; [by apply elem_of_nil in Hin|].
  simpl in *. apply NoDup_cons in Hnd as [Hx Hnd].
  apply elem_of_cons in Hin as [->|Hin]; [by rewrite String.eqb_refl|].
  destruct (String.eqb (id x) (id p)) eqn:E; [|by apply IH].
  apply String.eqb_eq in E. destruct Hx. rewrite E.
  apply list_elem_of_fmap. by exists p.
Qed.

(** X13: in every run of a room from a fresh start, whatever the
    events, the players in memory have non-empty, pairwise different
    ids, so looking a player up by id (as the client does for the
    starter) finds that very player. *)
Theorem player_ids_stay_unique
    (clk : nat -> Q) (events : list Event) (s : RoomState) :
  current_state (run events (fresh_world clk)) = Some s ->
  NoDup (id <$> players s)
  /\ (forall p, p ∈ players s -> id p <> ""%string)
  /\ (forall p, p ∈ players s ->
        find_first (fun q => String.eqb (id q) (id p)) (players s) = Some p).
Proof.
  intros Hs. unfold current_state in Hs.
  destruct (run_healthy clk events)
    as [(Hnone & _)|(d & stored & Hd & _ & _ & Hnd & Hne & _)];
    rewrite ?Hnone, ?Hd in Hs; [done|].
  injection Hs as <-. split_and!; [done| |].
  - intros p Hp Hid. apply Hne. apply list_elem_of_fmap. by exists p.
  - intros p Hp. by apply find_first_unique_id.
Qed.

Lemma player_ids_stay_unique_witness :
  current_state
    (run [Message 0%nat (Some (PLAYER_ADD (Some alice)));
          Message 0%nat (Some (PLAYER_ADD (Some bob)));
          Message 0%nat (Some (PLAYER_ADD (Some (mkPlayer "a" "Alicia" 40000))))]
       (fresh_world demo_clock))
  = Some (mkRoomState [mkPlayer "a" "Alicia" 40000; bob] None (Some (demo_clock 3)))
  /\ NoDup (id <$> [mkPlayer "a" "Alicia" 40000; bob]).
Proof.
  split; [by vm_compute|].
  refine (proj1 (player_ids_stay_unique demo_clock
    [Message 0%nat (Some (PLAYER_ADD (Some alice)));
     Message 0%nat (Some (PLAYER_ADD (Some bob)));
     Message 0%nat (Some (PLAYER_ADD (Some (mkPlayer "a" "Alicia" 40000))))]
    (mkRoomState [mkPlayer "a" "Alicia" 40000; bob] None (Some (demo_clock 3))) _)).
  by vm_compute.
Defined.

(** The limit of what follows: two room objects of one isolate that
    were both loaded over empty storage hold the same players array,
    that of the default state.  A player added to the second room shows
    in the memory of the first, which has neither stored nor sent that
    state. *)
Lemma shared_default_array_reaches_other_rooms :
  let first := deliver (Connect 7%nat) (fresh_world demo_clock) in
  let second := deliver (Message 0%nat (Some (PLAYER_ADD (Some alice))))
                  (new_room None first) in
  let first_later := with_heap (heap second) first in
  (players <$> current_state first_later) = Some [alice]
  /\ (players <$> storage first_later) = Some []
  /\ players (replica 7%nat (outbox first_later)) = [].
Proof. split_and!; vm_compute; reflexivity. Qed.

(** X14: for a room object that runs alone in its isolate (the events
    delivered to it are all that touches the heap), what is stored
    always has the players and the rally of the state in memory, so a
    room object constructed again over that storage comes back, unless
    the stored state has expired, with the same players and the same
    rally.  With a second room in the isolate this can fail, through the
    players array the default state shares
    ([shared_default_array_reaches_other_rooms]). *)
Theorem evicted_room_reloads_same
    (clk : nat -> Q) (events : list Event) (s : RoomState) :
  let w := run events (fresh_world clk) in
  current_state w = Some s ->
  exists stored,
    storage w = Some stored
    /\ same_room stored s
    /\ (expired (clock w (ticks w)) stored = false ->
        current_state (exec ensureLoaded (new_room (storage w) w)) = Some stored).
Proof.
  intros w Hs. unfold current_state in Hs.
  pose proof (run_healthy clk events) as Hh. fold w in Hh.
  destruct Hh as [(Hnone & _)|(d & stored & Hd & Hst & Hsame & _)];
    rewrite ?Hnone, ?Hd in Hs; [done|].
  injection Hs as <-. exists stored. split_and!; [done|done|].
  intros Hfresh. rewrite ensureLoaded_state by done.
  unfold new_room. cbn [storage clock ticks]. by rewrite Hst, Hfresh.
Qed.

Lemma evicted_room_reloads_same_witness :
  let w := run [Message 0%nat (Some (PLAYER_ADD (Some alice)));
                Message 0%nat (Some (RALLY_START (Some plain_start)))]
             (fresh_world demo_clock) in
  current_state w = Some demo_room_state
  /\ exists stored,
       storage w = Some stored
       /\ same_room stored demo_room_state
       /\ current_state (exec ensureLoaded (new_room (storage w) w)) = Some stored.
Proof.
  intros w.
  assert (Hs : current_state w = Some demo_room_state) by (by vm_compute).
  split; [exact Hs|].
  destruct (evicted_room_reloads_same demo_clock _ demo_room_state Hs)
    as (stored & Hst & Hsame & Hreload).
  exists stored. split_and!; [exact Hst|exact Hsame|].
  apply Hreload. fold w in Hst |- *.
  assert (Hstored : storage w = Some demo_room_state) by (by vm_compute).
  assert (stored = demo_room_state) as -> by congruence.
  by vm_compute.
Defined.




(** ** Messages with and without an effect *)

(** X16: among the messages of the declared type [ClientMsg] (a numeric
    field is a number or absent) and the texts that do not parse, those
    for which [ignored] holds change nothing of a room in memory but
    [lastActiveAt]: nothing is stored, nothing is sent, players and
    rally stay.  They are: text that does not parse, a PLAYER_ADD
    without payload or with an empty id, a PLAYER_REMOVE without id, a
    RALLY_START without starter, or with no finite [launchAt] and a
    [rallyDurationMs] that is absent, NaN, infinite or negative or a
    [preDelayMs] that is NaN, infinite or negative, and a
    TIME_SYNC_REQUEST without a finite [t0].  The new [lastActiveAt] is
    therefore in memory only. *)
Theorem ignored_message_only_touches_lastActiveAt
    (w : World) (d : RoomObject) (ws : socket) (raw : option ClientMsg) :
  data w = Some d ->
  ignored raw = true ->
  let w' := deliver (Message ws raw) w in
  data w' = Some (mkRoomObject (obj_players d) (obj_rally d) (clock w (ticks w)))
  /\ heap w' = heap w
  /\ storage w' = storage w
  /\ sockets w' = sockets w
  /\ outbox w' = outbox w.
Proof.
  destruct w as [h dd st so ck tk ob], d as [pl ra la]. simpl.
  intros -> Hig. unfold deliver.
  destruct raw as [msg|]; [|by rewrite step_unparsable].
  change (exec (handleMessage ws (Some msg)) ?w0) with (step ws msg w0).
  destruct msg as [|p|removed|p| |t]; simpl in Hig; try done.
  - by rewrite step_PLAYER_ADD_dropped.
  - by rewrite step_PLAYER_REMOVE_dropped.
  - destruct (step_RALLY_START_cases h pl ra la st so ck tk ob ws p)
      as [[_ ->]|(Hacc & _)]; [done|]. by rewrite Hacc in Hig.
  - by destruct t as [[]|].
Qed.

Lemma ignored_message_only_touches_lastActiveAt_witness :
  let w := demo_room in
  let w' := deliver (Message 0%nat (Some (PLAYER_ADD None))) w in
  (exists d, data w' = Some d /\ obj_lastActiveAt d = demo_clock (ticks w))
  /\ storage w' = storage w /\ outbox w' = outbox w.
Proof.
  intros w w'.
  destruct (data w) as [d|] eqn:Hd; [|by vm_compute in Hd].
  destruct (ignored_message_only_touches_lastActiveAt w d 0%nat
              (Some (PLAYER_ADD None)) Hd eq_refl) as (Hdata & _ & Hst & _ & Hob).
  split; [|by split]. eexists. split; [exact Hdata|done].
Defined.

(** X17: any other message is answered in one of two ways. Either
    exactly one message goes to the sender and nothing is stored
    (STATE_REQUEST, TIME_SYNC_REQUEST); or the state the room then has
    is stored and sent, as that same value, once to every connected
    client in the order they connected. *)
Theorem effective_message_replies_or_broadcasts
    (w : World) (d : RoomObject) (ws : socket) (raw : option ClientMsg) :
  data w = Some d ->
  ignored raw = false ->
  let w' := deliver (Message ws raw) w in
  (exists reply,
      outbox w' = outbox w ++ [(ws, reply)]
      /\ storage w' = storage w
      /\ heap w' = heap w
      /\ data w' = Some (mkRoomObject (obj_players d) (obj_rally d) (clock w (ticks w))))
  \/ (exists s',
        current_state w' = Some s'
        /\ storage w' = Some s'
        /\ outbox w' = outbox w ++ ((fun client => (client, STATE s')) <$> sockets w)).
Proof.
  destruct w as [h dd st so ck tk ob], d as [pl ra la]. simpl.
  intros -> Hig. unfold deliver.
  destruct raw as [msg|]; [|done].
  change (exec (handleMessage ws (Some msg)) ?w0) with (step ws msg w0).
  destruct msg as [|p|removed|p| |t]; simpl in Hig.
  - left. rewrite step_STATE_REQUEST. by eexists.
  - destruct p as [p|]; [|done]. simpl in Hig. apply String.eqb_neq in Hig.
    right. rewrite step_PLAYER_ADD by done. eexists. split; [|done].
    unfold current_state, to_json, array_at. simpl. by rewrite lookup_insert_eq.
  - destruct removed as [removed|]; [|done]. simpl in Hig. apply String.eqb_neq in Hig.
    right. rewrite step_PLAYER_REMOVE by done. eexists. split; [|done].
    unfold current_state, to_json, array_at. simpl. by rewrite lookup_insert_eq.
  - destruct (step_RALLY_START_cases h pl ra la st so ck tk ob ws p)
      as [[Hacc _]|(_ & q & launch & k & -> & ->)]; [by rewrite Hacc in Hig|].
    right. by eexists.
  - right. rewrite step_RALLY_END. by eexists.
  - left. destruct t as [[r0| | |]|]; try done.
    rewrite step_TIME_SYNC_REQUEST. by eexists.
Qed.

Lemma effective_message_replies_or_broadcasts_witness :
  let w := run [Connect 7%nat; Connect 8%nat;
                Message 7%nat (Some (PLAYER_ADD (Some alice)))]
             (fresh_world demo_clock) in
  let w' := deliver (Message 8%nat (Some RALLY_END)) w in
  exists s', storage w' = Some s'
    /\ outbox w' = outbox w ++ [(7%nat, STATE s'); (8%nat, STATE s')].
Proof.
  intros w w'.
  destruct (data w) as [d|] eqn:Hd; [|by vm_compute in Hd].
  destruct (effective_message_replies_or_broadcasts w d 8%nat (Some RALLY_END) Hd eq_refl)
    as [(reply & Hob & _)|(s' & _ & Hst & Hob)].
  - exfalso. apply (f_equal length) in Hob. by vm_compute in Hob.
  - exists s'. split; [exact Hst|]. etrans; [exact Hob|]. f_equal.
Defined.

(** ** Adding and removing players *)

Lemma upsert_absent (p : Player) (arr : list Player) :
  has_player (id p) arr = false -> upsert p arr = arr ++ [p].
Proof.
  intros Habs. unfold upsert.
  destruct (list_find _ arr) as [[idx q]|] eqn:Hfind; [|done].
  apply list_find_Some in Hfind as (Hidx & Hq & _).
  assert (has_player (id p) arr = true) as Hin; [|congruence].
  apply has_player_iff. exists q. split; [|done].
  by eapply list_elem_of_lookup_2.
Qed.

Lemma upsert_present (p : Player) (arr : list Player) :
  has_player (id p) arr = true ->
  exists idx q, arr !! idx = Some q /\ id q = id p
    /\ (forall j y, arr !! j = Some y -> j < idx -> id y <> id p)
    /\ upsert p arr = <[idx := p]> arr.
Proof.
  intros Hin. unfold upsert.
  destruct (list_find _ arr) as [[idx q]|] eqn:Hfind.
  - apply list_find_Some in Hfind as (Hidx & Hq & Hbefore).
    exists idx, q. split_and!; try done.
  - apply list_find_None in Hfind. apply has_player_iff in Hin as (x & Hx & Heq).
    rewrite Forall_forall in Hfind. by destruct (Hfind x Hx).
Qed.

Lemma filter_absent (removed : string) (arr : list Player) :
  has_player removed arr = false ->
  filter (fun q => id q ≠ removed) arr = arr.
Proof.
  induction arr as [|x arr IH]; [done|]. unfold has_player. simpl.
  intros [Hx Hrest]%orb_false_iff. apply String.eqb_neq in Hx.
  rewrite filter_cons_True by done. f_equal. by apply IH.
Qed.

Lemma find_first_insert (p : Player) (arr : list Player) (idx : nat) :
  idx < length arr ->
  (forall j y, arr !! j = Some y -> j < idx -> id y <> id p) ->
  find_first (fun q => String.eqb (id q) (id p)) (<[idx := p]> arr) = Some p.
Proof.
  revert idx. induction arr as [|x arr IH]; intros idx Hlen Hbefore; simpl in *; [lia|].
  destruct idx as [|idx]; simpl; [by rewrite String.eqb_refl|].
  assert (id x <> id p) as Hx by (apply (Hbefore 0 x); [done|lia]).
  apply String.eqb_neq in Hx. rewrite Hx. apply IH; [lia|].
  intros j y Hj Hlt. apply (Hbefore (S j) y); [done|lia].
Qed.

Lemma find_first_upsert (p : Player) (arr : list Player) :
  find_first (fun q => String.eqb (id q) (id p)) (upsert p arr) = Some p.
Proof.
  destruct (has_player (id p) arr) eqn:Hin.
  - destruct (upsert_present p arr Hin) as (idx & q & Hidx & _ & Hbefore & ->).
    apply find_first_insert; [by eapply lookup_lt_Some|done].
  - rewrite upsert_absent by done.
    induction arr as [|x arr IH]; simpl; [by rewrite String.eqb_refl|].
    unfold has_player in Hin. simpl in Hin.
    apply orb_false_iff in Hin as [Hx Hrest]. rewrite Hx. by apply IH.
Qed.

(** X18: a PLAYER_ADD with an id is an upsert. Afterwards a lookup by
    that id finds the payload itself; the list of ids is unchanged when
    the id was known (the player is replaced in place) and has the id
    appended when it was not; the rally is left alone. *)
Theorem PLAYER_ADD_replaces_or_appends
    (w : World) (s : RoomState) (ws : socket) (p : Player) :
  current_state w = Some s ->
  id p <> ""%string ->
  exists s',
    current_state (deliver (Message ws (Some (PLAYER_ADD (Some p)))) w) = Some s'
    /\ find_first (fun q => String.eqb (id q) (id p)) (players s') = Some p
    /\ (id <$> players s')
       = (if has_player (id p) (players s)
          then id <$> players s
          else (id <$> players s) ++ [id p])
    /\ rally s' = rally s.
Proof.
  destruct w as [h [[pl ra la]|] st so ck tk ob]; [|done].
  unfold current_state. simpl. intros [= <-] Hid. unfold deliver.
  change (exec (handleMessage ws (Some ?m)) ?w0) with (step ws m w0).
  rewrite step_PLAYER_ADD by done. simpl.
  eexists. split; [reflexivity|]. unfold to_json, array_at. simpl.
  rewrite lookup_insert_eq. simpl. split_and!; [apply find_first_upsert| |done].
  destruct (has_player (id p) (default [] (h !! pl))) eqn:Hin.
  - destruct (upsert_present p _ Hin) as (idx & q & Hidx & Hq & _ & ->).
    rewrite list_fmap_insert. apply list_insert_id.
    by rewrite list_lookup_fmap, Hidx, <- Hq.
  - rewrite upsert_absent by done. by rewrite fmap_app.
Qed.

Lemma PLAYER_ADD_replaces_or_appends_witness :
  let renamed := mkPlayer "a" "Alicia" 45000 in
  exists s',
    current_state (deliver (Message 0%nat (Some (PLAYER_ADD (Some renamed)))) demo_room)
    = Some s'
    /\ find_first (fun q => String.eqb (id q) "a") (players s') = Some renamed
    /\ (id <$> players s') = ["a"%string].
Proof.
  intros renamed.
  destruct (PLAYER_ADD_replaces_or_appends demo_room demo_room_state 0%nat renamed)
    as (s' & Hs' & Hfind & Hids & _); [by vm_compute|done|].
  exists s'. split_and!; [exact Hs'|exact Hfind|exact Hids].
Defined.

(** X19: adding a player whose id nobody has and then removing that id
    gives back the players there were, in the same order. The rally
    survives unless it named that id as its starter. *)
Theorem add_then_remove_restores_players
    (w : World) (s : RoomState) (ws ws' : socket) (p : Player) :
  current_state w = Some s ->
  id p <> ""%string ->
  has_player (id p) (players s) = false ->
  let w' := deliver (Message ws' (Some (PLAYER_REMOVE (Some (id p)))))
              (deliver (Message ws (Some (PLAYER_ADD (Some p)))) w) in
  exists s',
    current_state w' = Some s'
    /\ players s' = players s
    /\ rally s' = match rally s with
                  | Some r => if String.eqb (starterId r) (id p) then None else Some r
                  | None => None
                  end.
Proof.
  destruct w as [h [[pl ra la]|] st so ck tk ob]; [|done].
  unfold current_state. simpl. intros [= <-] Hid Habs. unfold deliver.
  change (exec (handleMessage ws (Some ?m)) ?w0) with (step ws m w0).
  rewrite step_PLAYER_ADD by done. cbv zeta.
  change (exec (handleMessage ws' (Some ?m)) ?w0) with (step ws' m w0).
  rewrite step_PLAYER_REMOVE by done. cbv zeta.
  eexists. split; [reflexivity|]. unfold to_json, array_at. simpl.
  rewrite !lookup_insert_eq. simpl. split; [|done].
  simpl in Habs. unfold array_at in Habs. simpl in Habs.
  rewrite upsert_absent by done. rewrite filter_app, filter_absent by done.
  rewrite filter_cons_False, filter_nil by (by intros []).
  apply app_nil_r.
Qed.

Lemma add_then_remove_restores_players_witness :
  let w' := deliver (Message 1%nat (Some (PLAYER_REMOVE (Some "b"%string))))
              (deliver (Message 0%nat (Some (PLAYER_ADD (Some bob)))) demo_room) in
  exists s', current_state w' = Some s'
    /\ players s' = [alice]
    /\ rally s' = rally demo_room_state.
Proof.
  intros w'.
  destruct (add_then_remove_restores_players demo_room demo_room_state 0%nat 1%nat bob)
    as (s' & Hs' & Hp & Hr); [by vm_compute|done|done|].
  exists s'. split_and!; [exact Hs'|exact Hp|exact Hr].
Defined.

(** ** The buttons and the room *)

(** What the Start button computes and what the server adds up, in
    doubles: with whole minutes, whole seconds (both below [2 ^ 30]) and
    a clock reading in the exact range, nothing rounds. *)
Lemma start_sums_exact (reading delay preDelaySec : Q) :
  F64.exact_ms reading = true ->
  F64.small_int delay = true ->
  F64.small_int preDelaySec = true ->
  exists durationMs delayMs launch,
    F64.mul (F64.mul (Num delay) (Num 60)) (Num 1000) = Num durationMs
    /\ (durationMs == delay * 60 * 1000)%Q
    /\ F64.mul (Num (Qmax 0 preDelaySec)) (Num 1000) = Num delayMs
    /\ (delayMs == Qmax 0 preDelaySec * 1000)%Q
    /\ F64.add (F64.add (Num reading) (Num delayMs)) (Num durationMs) = Num launch
    /\ (launch == reading + Qmax 0 preDelaySec * 1000 + delay * 60 * 1000)%Q.
Proof.
  intros Hck%exact_ms_half Hdelay (z & Hz & Hb)%small_int_Z.
  destruct (duration_exact delay Hdelay) as (u & Hu & Hueq & Huh).
  assert (Hmax : (Qmax 0 preDelaySec == inject_Z (Z.max 0 z))%Q).
  { destruct (Q.max_spec 0 preDelaySec) as [[Hlt ->]|[Hle ->]].
    - rewrite Hz in *. rewrite <- (Zlt_Qlt 0) in Hlt. by rewrite Z.max_r by lia.
    - rewrite Hz in Hle. change 0%Q with (inject_Z 0) in Hle.
      rewrite <- Zle_Qle in Hle. by rewrite Z.max_l by lia. }
  assert (Hpre : F64.mul (Num (Qmax 0 preDelaySec)) (Num 1000)
                 = Num (Qred (Qmax 0 preDelaySec * 1000))).
  { apply (round64_exact _ (Z.max 0 z * 1000) 0); [lia|lia|].
    rewrite Hmax, inject_Z_mult. change (2 ^ (- 0))%Q with 1%Q.
    change (inject_Z 1000) with 1000%Q. ring. }
  assert (Hpreh : F64.half_int (2 ^ 41) (Qred (Qmax 0 preDelaySec * 1000))).
  { exists (Z.max 0 z * 2000)%Z. split; [|lia].
    rewrite Qred_correct, Hmax, inject_Z_mult.
    change (inject_Z 2000) with (1000 * 2)%Q. field. }
  destruct (add_exact _ _ _ _ Hck Hpreh) as (a & Ha & Haeq & Hah); [lia|].
  destruct (add_exact _ _ _ _ Hah Huh) as (launch & Hl & Hleq & _); [lia|].
  exists u, (Qred (Qmax 0 preDelaySec * 1000)), launch.
  split_and!; [done|done|done|apply Qred_correct| |].
  - by rewrite Ha, Hl.
  - by rewrite Hleq, Haeq, Hueq, Qred_correct.
Qed.

(** X20: the Start button and the room together, for a rally time of a
    whole number of minutes that is not negative, a pre-start countdown
    of a whole number of seconds (both below [2 ^ 30] in magnitude) and
    a server clock reading in the exact range.  Whatever
    [sendRallyStart] sends is accepted by the room: the rally is for the
    chosen starter and launches at the room's own clock reading plus the
    pre-start countdown (negative ones count as 0) and the rally time;
    the players stay.  The products and sums are the exact ones: here
    the doubles do not round.  The starter is a player of the client's
    view, so when that view has the room's players the new rally is not
    dangling. *)
Theorem start_button_rally_is_timed_by_the_server
    (w : World) (room view : RoomState) (socket_there : bool) (ws : socket)
    (starter : string) (delay preDelaySec : Q) (msg : ClientMsg) :
  current_state w = Some room ->
  sendRallyStart socket_there view starter delay preDelaySec = Some msg ->
  (0 <= delay)%Q ->
  F64.small_int delay = true ->
  F64.small_int preDelaySec = true ->
  F64.exact_ms (clock w (S (ticks w))) = true ->
  (exists s',
     current_state (deliver (Message ws (Some msg)) w) = Some s'
     /\ rally s'
        = Some (mkRally starter
                  (clock w (S (ticks w)) + Qmax 0 preDelaySec * 1000 + delay * 60 * 1000)%Q)
     /\ players s' = players room
     /\ has_player starter (players view) = true
     /\ (players view = players room -> dangling s' = false))
  /\ (exists durationMs delayMs launch,
        F64.mul (F64.mul (Num delay) (Num 60)) (Num 1000) = Num durationMs
        /\ (durationMs == delay * 60 * 1000)%Q
        /\ F64.mul (Num (Qmax 0 preDelaySec)) (Num 1000) = Num delayMs
        /\ (delayMs == Qmax 0 preDelaySec * 1000)%Q
        /\ F64.add (F64.add (Num (clock w (S (ticks w)))) (Num delayMs)) (Num durationMs)
           = Num launch
        /\ (launch == clock w (S (ticks w)) + Qmax 0 preDelaySec * 1000
                      + delay * 60 * 1000)%Q).
Proof.
  intros Hroom Hsend Hdelay Hmin Hsec Hck.
  split; [|by apply start_sums_exact]. clear Hmin Hsec Hck.
  destruct w as [h [[pl ra la]|] st so ck tk ob]; [|done].
  unfold current_state in Hroom |- *. simpl in Hroom. injection Hroom as <-.
  unfold sendRallyStart in Hsend.
  destruct (canStartRally socket_there view starter) eqn:Hcan; [|done].
  injection Hsend as <-. unfold canStartRally in Hcan.
  apply andb_true_iff in Hcan as [Hcan Hknown].
  apply andb_true_iff in Hcan as [_ Hid].
  apply negb_true_iff, String.eqb_neq in Hid.
  unfold deliver.
  change (exec (handleMessage ws (Some ?m)) ?w0) with (step ws m w0).
  rewrite (step_RALLY_START_computed h pl ra la st so ck tk ob ws _
             (delay * 60 * 1000) (Qmax 0 preDelaySec * 1000));
    [|done|done|done|done| |].
  - eexists. split; [reflexivity|]. simpl. split_and!; try done.
    intros Heq. unfold array_at in Heq. simpl in Heq.
    unfold dangling. cbn [rally players starterId to_json array_at heap obj_players obj_rally].
    unfold array_at. cbn [heap]. by rewrite <- Heq, Hknown.
  - apply Qmult_le_0_compat; [|done]. apply Qmult_le_0_compat; done.
  - apply Qmult_le_0_compat; [|done]. apply Q.le_max_l.
Qed.

Lemma start_button_rally_is_timed_by_the_server_witness :
  exists msg s',
    sendRallyStart true demo_room_state "a" 5 (-3) = Some msg
    /\ current_state (deliver (Message 0%nat (Some msg)) demo_room) = Some s'
    /\ rally s' = Some (mkRally "a" (demo_clock (S (ticks demo_room)) + 0 * 1000 + 5 * 60 * 1000)%Q)
    /\ dangling s' = false.
Proof.
  assert (Hsend : sendRallyStart true demo_room_state "a" 5 (-3)
                  = Some (RALLY_START (Some (mkRallyStartPayload "a" None
                       (Some (Num (5 * 60 * 1000))) (Some (Num (Qmax 0 (-3) * 1000)))))))
    by reflexivity.
  destruct (start_button_rally_is_timed_by_the_server demo_room demo_room_state
              demo_room_state true 0%nat "a" 5 (-3) _ ltac:(by vm_compute) Hsend
              ltac:(done) ltac:(vm_compute; reflexivity) ltac:(vm_compute; reflexivity)
              ltac:(vm_compute; reflexivity))
    as ((s' & Hs' & Hr & _ & _ & Hd) & _).
  eexists _, s'. split_and!; [exact Hsend|exact Hs'|exact Hr|by apply Hd].
Defined.

Lemma Math_round_bounds (x : Q) (n : Z) :
  (0 <= x)%Q -> (x <= inject_Z n)%Q -> (0 <= Math_round x <= n)%Z.
Proof.
  intros Hlo Hhi. unfold Math_round. split.
  - change 0%Z with (Qfloor 0). apply Qfloor_resp_le.
    set (y := x) in *. clearbody y. lra.
  - assert (Qfloor (x + (1 # 2)) < n + 1)%Z; [|lia].
    rewrite Zlt_Qlt. eapply Qle_lt_trans; [apply Qfloor_le|].
    rewrite inject_Z_plus. set (y := inject_Z n) in *. clearbody y.
    change (inject_Z 1) with 1%Q. lra.
Qed.

(** X21: the Add button and the room together. Whatever [addPlayer]
    sends carries the trimmed, non-empty name and a march time that is a
    whole number of milliseconds between 0 and 24 hours; with a
    non-empty id the room stores it, and a lookup by that id in the new
    state finds that player. *)
Theorem add_button_player_is_stored
    (w : World) (room : RoomState) (socket_there : bool) (ws : socket)
    (trimmed uuid : string) (seconds : number) (msg : ClientMsg) :
  current_state w = Some room ->
  addPlayer socket_there trimmed seconds uuid = Some msg ->
  uuid <> ""%string ->
  let w' := deliver (Message ws (Some msg)) w in
  exists p s',
    msg = PLAYER_ADD (Some p)
    /\ id p = uuid /\ name p = trimmed /\ trimmed <> ""%string
    /\ (exists k : Z, marchMs p = inject_Z k /\ (0 <= k <= 86400000)%Z)
    /\ current_state w' = Some s'
    /\ storage w' = Some s'
    /\ find_first (fun q => String.eqb (id q) uuid) (players s') = Some p.
Proof.
  intros Hroom Hadd Hid. unfold addPlayer in Hadd.
  destruct (canAdd socket_there trimmed seconds) eqn:Hcan; [|done].
  destruct seconds as [sec| | |]; try done. injection Hadd as <-.
  unfold canAdd in Hcan.
  apply andb_true_iff in Hcan as [Hcan Hsec].
  apply andb_true_iff in Hcan as [_ Hname].
  apply andb_true_iff in Hsec as [Hlo Hhi].
  apply Qltb_lt in Hlo. apply Qle_bool_iff in Hhi.
  set (p := {| id := uuid; name := trimmed; marchMs := inject_Z (Math_round (sec * 1000)) |}).
  destruct w as [h [[pl ra la]|] st so ck tk ob]; [|done]. clear Hroom.
  intros w'. subst w'. unfold deliver.
  change (exec (handleMessage ws (Some ?m)) ?w0) with (step ws m w0).
  rewrite step_PLAYER_ADD by done. cbv zeta.
  exists p, (mkRoomState (upsert p (default [] (h !! pl))) ra (Some (ck tk))).
  assert (Hcur : current_state
            (mkWorld (<[pl := upsert p (default [] (h !! pl))]> h)
               (Some (mkRoomObject pl ra (ck tk)))
               (Some (mkRoomState (upsert p (default [] (h !! pl))) ra (Some (ck tk))))
               so ck (S tk)
               (ob ++ ((fun client =>
                          (client, STATE (mkRoomState (upsert p (default [] (h !! pl)))
                                            ra (Some (ck tk))))) <$> so)))
          = Some (mkRoomState (upsert p (default [] (h !! pl))) ra (Some (ck tk)))).
  { unfold current_state, to_json, array_at. cbn [data heap obj_players obj_rally
      obj_lastActiveAt]. by rewrite lookup_insert_eq. }
  split_and!; [done|done|done| | |exact Hcur|done|apply (find_first_upsert p)].
  - intros ->. simpl in Hname. done.
  - exists (Math_round (sec * 1000)). split; [done|].
    apply Math_round_bounds.
    + set (y := sec) in *. clearbody y. lra.
    + change (inject_Z 86400000) with (24 * 60 * 60 * 1000)%Q.
      set (y := sec) in *. clearbody y. lra.
Qed.

Lemma add_button_player_is_stored_witness :
  exists p s',
    addPlayer true "Bob" (Num 32) "b" = Some (PLAYER_ADD (Some p))
    /\ marchMs p = 32000%Q
    /\ current_state (deliver (Message 0%nat (Some (PLAYER_ADD (Some p)))) demo_room) = Some s'
    /\ find_first (fun q => String.eqb (id q) "b") (players s') = Some p.
Proof.
  destruct (add_button_player_is_stored demo_room demo_room_state true 0%nat
              "Bob" "b" (Num 32) _ ltac:(by vm_compute) eq_refl ltac:(done))
    as (p & s' & Hmsg & _ & _ & _ & _ & Hs' & _ & Hfind).
  injection Hmsg as <-.
  eexists _, s'. split_and!; [reflexivity|reflexivity|exact Hs'|exact Hfind].
Defined.

(** ** Connecting and loading *)

Lemma ensureLoaded_loaded h d st so ck tk ob :
  exec ensureLoaded (mkWorld h (Some d) st so ck tk ob)
  = mkWorld h (Some d) st so ck tk ob.
Proof. reflexivity. Qed.

(** What [ensureLoaded] does to a room with nothing in memory. *)
Lemma ensureLoaded_unloaded h st so ck tk ob :
  exists h' d st',
    exec ensureLoaded (mkWorld h None st so ck tk ob)
    = mkWorld h' (Some d) st' so ck (S tk) ob.
Proof.
  destruct st as [[ps ra [t|]]|]; try (by do 3 eexists).
  unfold exec. run_handler. cbn [lastActiveAt].
  destruct (Qeq_bool t 0 || Qltb MAX_AGE_MS (ck tk - t)); by do 3 eexists.
Qed.

Lemma handleMessage_loads_first (ws : socket) (raw : option ClientMsg) (w : World) :
  exec (handleMessage ws raw) w = exec (handleMessage ws raw) (exec ensureLoaded w).
Proof.
  destruct w as [h [d|] st so ck tk ob]; [done|].
  destruct (ensureLoaded_unloaded h st so ck tk ob) as (h' & d & st' & Heq).
  rewrite Heq. unfold exec in *. unfold handleMessage.
  cbv [call mbind M_bind mret M_ret].
  destruct (ensureLoaded (mkWorld h None st so ck tk ob)) as [o w1] eqn:E.
  simpl in Heq. subst w1. by destruct o.
Qed.

Lemma accept_loads_first (ws : socket) (w : World) :
  exec (accept ws) w = exec (accept ws) (exec ensureLoaded w).
Proof.
  destruct w as [h [d|] st so ck tk ob]; [done|].
  destruct (ensureLoaded_unloaded h st so ck tk ob) as (h' & d & st' & Heq).
  rewrite Heq. unfold exec in *. unfold accept.
  cbv [call mbind M_bind mret M_ret].
  destruct (ensureLoaded (mkWorld h None st so ck tk ob)) as [o w1] eqn:E.
  simpl in Heq. subst w1. by destruct o.
Qed.

(** X22: a connecting client joins the connected sockets and is sent
    exactly one message, the state the room has in memory once loaded;
    nobody else is sent anything. This holds whatever the room had in
    memory or in storage before. *)
Theorem connect_sends_state_to_newcomer_only (w : World) (ws : socket) :
  let w' := deliver (Connect ws) w in
  exists s,
    current_state w' = Some s
    /\ sockets w' = sockets w ++ [ws]
    /\ outbox w' = outbox w ++ [(ws, STATE s)].
Proof.
  intros w'. subst w'. unfold deliver. rewrite accept_loads_first.
  destruct w as [h [d|] st so ck tk ob].
  - rewrite ensureLoaded_loaded, accept_loaded. eexists. by split_and!.
  - destruct st as [stored|].
    + destruct (ensureLoaded_unloaded h (Some stored) so ck tk ob) as (h' & d & st' & ->).
      rewrite accept_loaded. eexists. by split_and!.
    + eexists. by split_and!.
Qed.

(** ** Activity *)

Lemma handleMessage_touch h pl ra la st so ck tk ob ws (raw : option ClientMsg) :
  let w' := exec (handleMessage ws raw) (mkWorld h (Some (mkRoomObject pl ra la)) st so ck tk ob) in
  exists pl' ra',
    data w' = Some (mkRoomObject pl' ra' (ck tk))
    /\ tk < ticks w' /\ clock w' = ck.
Proof.
  intros w'. subst w'. destruct raw as [msg|].
  2:{ rewrite step_unparsable. do 2 eexists. simpl. split_and!; [done|lia|done]. }
  change (exec (handleMessage ws (Some msg)) ?w0) with (step ws msg w0).
  destruct msg as [|[p|]|[removed|]|p| |t].
  - rewrite step_STATE_REQUEST. do 2 eexists. simpl. split_and!; [done|lia|done].
  - destruct (String.eqb (id p) "") eqn:Hid.
    + rewrite step_PLAYER_ADD_dropped by done.
      do 2 eexists. simpl. split_and!; [done|lia|done].
    + apply String.eqb_neq in Hid. rewrite step_PLAYER_ADD by done.
      do 2 eexists. simpl. split_and!; [done|lia|done].
  - rewrite step_PLAYER_ADD_dropped by done.
    do 2 eexists. simpl. split_and!; [done|lia|done].
  - destruct (String.eqb removed "") eqn:Hid.
    + rewrite step_PLAYER_REMOVE_dropped by done.
      do 2 eexists. simpl. split_and!; [done|lia|done].
    + apply String.eqb_neq in Hid. rewrite step_PLAYER_REMOVE by done.
      do 2 eexists. simpl. split_and!; [done|lia|done].
  - rewrite step_PLAYER_REMOVE_dropped by done.
    do 2 eexists. simpl. split_and!; [done|lia|done].
  - destruct p as [[sid given dur del]|]; run_handler;
      cbn [rs_starterId rs_launchAt rs_rallyDurationMs rs_preDelayMs];
      [|do 2 eexists; split_and!; [done|lia|done]].
    destruct (String.eqb sid "") eqn:Hid; run_handler;
      [do 2 eexists; split_and!; [done|lia|done]|].
    destruct given as [[g| | |]|], dur as [[d| | |]|], del as [[e| | |]|];
      run_handler;
      repeat match goal with
             | |- context [Qltb ?x ?y] => destruct (Qltb x y); run_handler
             end;
      (do 2 eexists; split_and!; [reflexivity|simpl; lia|reflexivity]).
  - rewrite step_RALLY_END. do 2 eexists. simpl. split_and!; [done|lia|done].
  - destruct t as [[r0| | |]|]; run_handler;
      (do 2 eexists; split_and!; [reflexivity|simpl; lia|reflexivity]).
Qed.

(** X23: every message, parsable or not and whatever the room had in
    memory or in storage, leaves a state in memory whose [lastActiveAt]
    is a clock reading taken while the message was handled: the guard
    after [ensureLoaded] never fires. *)
Theorem every_message_marks_the_room_active
    (w : World) (ws : socket) (raw : option ClientMsg) :
  let w' := deliver (Message ws raw) w in
  exists d k,
    data w' = Some d
    /\ obj_lastActiveAt d = clock w k
    /\ ticks w <= k < ticks w'
    /\ clock w' = clock w.
Proof.
  intros w'. subst w'. unfold deliver. rewrite handleMessage_loads_first.
  destruct w as [h [[pl ra la]|] st so ck tk ob].
  - rewrite ensureLoaded_loaded.
    destruct (handleMessage_touch h pl ra la st so ck tk ob ws raw)
      as (pl' & ra' & Hd & Htk & Hck).
    eexists _, tk. simpl. split_and!; [exact Hd|done|lia|lia|done].
  - destruct (ensureLoaded_unloaded h st so ck tk ob) as (h' & [pl ra la] & st' & ->).
    destruct (handleMessage_touch h' pl ra la st' so ck (S tk) ob ws raw)
      as (pl' & ra' & Hd & Htk & Hck).
    eexists _, (S tk). simpl. split_and!; [exact Hd|done|lia|lia|done].
Qed.
